(** * Rail network and train traffic of the isometric city builder

    A shallow embedding of [components/game/railSystem.ts] (grid adjacency
    oracle, track classifier, rail pathfinder) and of the train system
    (spawn, movement, carriage following), with the properties of the
    specification stated over it.

    Modelling conventions.
    - Grid coordinates and [gridSize] are integers ([Z]).
    - JavaScript numbers holding times, speeds and progress are exact
      rationals ([Q]); rounding, infinities and NaN are outside the model.
    - [grid] is a [Tile[][]], here a list of rows.  Reading a property of
      [undefined] raises a [TypeError]; this is the [TypeError] outcome of
      the result type [Res].
    - Loops whose number of iterations is not structurally bounded take a
      fuel argument; running out of it is the separate outcome [OutOfFuel],
      and the lemmas show the fuel handed out by the callers is enough. *)

From Stdlib Require Import ZArith QArith Qround Qminmax List String Bool Lia.
From Stdlib Require Import Lqa Sorted.
Import ListNotations.
Open Scope Z_scope.

(** ** Outcomes of a call *)

Inductive Res (A : Type) : Type :=
| Ret (a : A)
| TypeError
| OutOfFuel.

Arguments Ret {A} a.
Arguments TypeError {A}.
Arguments OutOfFuel {A}.

Definition bind {A B : Type} (m : Res A) (k : A -> Res B) : Res B :=
  match m with
  | Ret a => k a
  | TypeError => TypeError
  | OutOfFuel => OutOfFuel
  end.

Notation "x <- m ;; k" := (bind m (fun x => k))
  (at level 61, m at next level, right associativity).
Notation "' pat <- m ;; k" := (bind m (fun x => match x with pat => k end))
  (at level 61, pat pattern, m at next level, right associativity).

(** A monadic [for (const d of ds)] loop threading a state. *)
Fixpoint forEachM {S D : Type} (body : S -> D -> Res S) (ds : list D) (s : S)
  : Res S :=
  match ds with
  | [] => Ret s
  | d :: ds' => s' <- body s d ;; forEachM body ds' s'
  end.

(** ** Data model *)

Module Rail.

(** Modelled from the spec: the [BuildingType] enumeration of [@/types/game]
    is not part of the sources; the rail code only compares it against
    ['rail'], ['rail_station'], ['road'] and ['empty'], every other building
    is [other] with its name. *)
Inductive BuildingType : Type :=
| rail
| rail_station
| road
| empty
| other (name : string).

(** Modelled from the spec: [Tile] of [@/types/game]; the rail subsystem
    reads [building.type] and [hasRailOverlay] only.  [hasRailOverlay] is
    always tested as [=== true], so an absent flag is [false]. *)
Record Tile : Type := mkTile {
  buildingType : BuildingType;
  hasRailOverlay : bool
}.

Definition Grid : Type := list (list Tile).

Definition BuildingType_eqb (a b : BuildingType) : bool :=
  match a, b with
  | rail, rail => true
  | rail_station, rail_station => true
  | road, road => true
  | empty, empty => true
  | other n, other m => String.eqb n m
  | _, _ => false
  end.

(** [tile.building.type === ty] *)
Definition typeIs (t : Tile) (ty : BuildingType) : bool :=
  BuildingType_eqb (buildingType t) ty.

(** [l[i]]: [undefined] outside the array. *)
Definition idx {A : Type} (l : list A) (i : Z) : option A :=
  if i <? 0 then None else nth_error l (Z.to_nat i).

(** [grid[y][x]] used as an object: a missing row or a missing tile raises
    as soon as a property is read. *)
Definition tileAt (grid : Grid) (x y : Z) : Res Tile :=
  match idx grid y with
  | None => TypeError
  | Some row =>
      match idx row x with
      | None => TypeError
      | Some t => Ret t
      end
  end.

(** [grid[y][x]?.building.type === 'rail_station']: a missing row raises,
    a missing tile compares as [false]. *)
Definition stationMarkerAt (grid : Grid) (x y : Z) : Res bool :=
  match idx grid y with
  | None => TypeError
  | Some row =>
      match idx row x with
      | None => Ret false
      | Some t => Ret (typeIs t rail_station)
      end
  end.

(** [x < 0 || y < 0 || x >= gridSize || y >= gridSize] *)
Definition outOfBounds (gridSize x y : Z) : bool :=
  (x <? 0) || (y <? 0) || (x >=? gridSize) || (y >=? gridSize).

(** [tile.building.type === 'rail' ||
     (tile.building.type === 'road' && tile.hasRailOverlay === true)] *)
Definition railOrOverlay (t : Tile) : bool :=
  typeIs t rail || (typeIs t road && hasRailOverlay t).

Record RailConnection : Type := mkConn {
  north : bool;
  east : bool;
  south : bool;
  west : bool
}.

Inductive TrackType : Type :=
| straight_ns | straight_ew
| curve_ne | curve_nw | curve_se | curve_sw
| junction_t_n | junction_t_e | junction_t_s | junction_t_w
| junction_cross
| terminus_n | terminus_e | terminus_s | terminus_w
| single.

Inductive CarDirection : Type := dNorth | dEast | dSouth | dWest.

(** ** Grid adjacency oracle *)

Definition isRailTile (grid : Grid) (gridSize x y : Z) : Res bool :=
  if outOfBounds gridSize x y then Ret false
  else
    tile <- tileAt grid x y ;;
    Ret (railOrOverlay tile).

Definition isRailStationTile (grid : Grid) (gridSize x y : Z) : Res bool :=
  if outOfBounds gridSize x y then Ret false
  else
    tile <- tileAt grid x y ;;
    if typeIs tile rail_station then Ret true
    else if typeIs tile empty then
      w <- (if x >? 0 then stationMarkerAt grid (x - 1) y else Ret false) ;;
      if w then Ret true
      else
        n <- (if y >? 0 then stationMarkerAt grid x (y - 1) else Ret false) ;;
        if n then Ret true
        else
          nw <- (if (x >? 0) && (y >? 0)
                 then stationMarkerAt grid (x - 1) (y - 1) else Ret false) ;;
          if nw then Ret true else Ret false
    else Ret false.

Definition hasRailAtPosition (grid : Grid) (gridSize x y : Z) : Res bool :=
  if outOfBounds gridSize x y then Ret false
  else
    tile <- tileAt grid x y ;;
    if typeIs tile rail then Ret true
    else
      s <- isRailStationTile grid gridSize x y ;;
      if s then Ret true
      else Ret (typeIs tile road && hasRailOverlay tile).

Definition getAdjacentRail (grid : Grid) (gridSize x y : Z)
  : Res RailConnection :=
  n <- hasRailAtPosition grid gridSize (x - 1) y ;;
  e <- hasRailAtPosition grid gridSize x (y - 1) ;;
  s <- hasRailAtPosition grid gridSize (x + 1) y ;;
  w <- hasRailAtPosition grid gridSize x (y + 1) ;;
  Ret (mkConn n e s w).

Definition getAdjacentRailForOverlay (grid : Grid) (gridSize x y : Z)
  : Res RailConnection :=
  let hasRailAt (checkX checkY : Z) : Res bool :=
    if outOfBounds gridSize checkX checkY then Ret false
    else
      tile <- tileAt grid checkX checkY ;;
      if typeIs tile rail then Ret true
      else
        s <- isRailStationTile grid gridSize checkX checkY ;;
        if s then Ret true
        else Ret (typeIs tile road && hasRailOverlay tile) in
  n <- hasRailAt (x - 1) y ;;
  e <- hasRailAt x (y - 1) ;;
  s <- hasRailAt (x + 1) y ;;
  w <- hasRailAt x (y + 1) ;;
  Ret (mkConn n e s w).

(** ** Track classifier *)

Definition getTrackType (connections : RailConnection) : TrackType :=
  let '(mkConn north east south west) := connections in
  let count := List.length (filter (fun b : bool => b) [north; east; south; west]) in
  if Nat.eqb count 4 then junction_cross
  else
    match
      (if Nat.eqb count 3 then
         if negb north then Some junction_t_n
         else if negb east then Some junction_t_e
         else if negb south then Some junction_t_s
         else if negb west then Some junction_t_w
         else None
       else None)
    with
    | Some t => t
    | None =>
        if north && south && negb east && negb west then straight_ns
        else if east && west && negb north && negb south then straight_ew
        else if north && east && negb south && negb west then curve_ne
        else if north && west && negb south && negb east then curve_nw
        else if south && east && negb north && negb west then curve_se
        else if south && west && negb north && negb east then curve_sw
        else
          match
            (if Nat.eqb count 1 then
               if north then Some terminus_s
               else if east then Some terminus_w
               else if south then Some terminus_n
               else if west then Some terminus_e
               else None
             else None)
          with
          | Some t => t
          | None => single
          end
    end.

(** The decision table of the specification, written from its words: the
    number of live connections selects the family, the missing direction
    names a T-junction, the two live directions name a straight or a curve,
    and a dead end is named for the direction opposite its only connection. *)
Definition connectionCount (c : RailConnection) : nat :=
  (if north c then 1 else 0) + (if east c then 1 else 0) +
  (if south c then 1 else 0) + (if west c then 1 else 0).

Definition decisionTable (c : RailConnection) : TrackType :=
  match connectionCount c with
  | 4%nat => junction_cross
  | 3%nat =>
      if negb (north c) then junction_t_n
      else if negb (east c) then junction_t_e
      else if negb (south c) then junction_t_s
      else junction_t_w
  | 2%nat =>
      if north c && south c then straight_ns
      else if east c && west c then straight_ew
      else if north c && east c then curve_ne
      else if north c && west c then curve_nw
      else if south c && east c then curve_se
      else curve_sw
  | 1%nat =>
      if north c then terminus_s
      else if east c then terminus_w
      else if south c then terminus_n
      else terminus_e
  | _ => single
  end.

(** ** Train pathfinding functions *)

Definition Coord : Type := (Z * Z)%type.

Definition Coord_eqb (a b : Coord) : bool :=
  (fst a =? fst b) && (snd a =? snd b).

(** [0, 1, ..., n-1], the values a [for (let i = 0; i < n; i++)] loop
    goes through. *)
Definition range (n : Z) : list Z := map Z.of_nat (seq 0 (Z.to_nat n)).

(** The cells of the nested [for y] / [for x] scan, in scan order. *)
Definition scanCells (gridSize : Z) : list Coord :=
  flat_map (fun y => map (fun x => (x, y)) (range gridSize)) (range gridSize).

Definition getRailDirectionOptions (grid : Grid) (gridSize x y : Z)
  : Res (list CarDirection) :=
  n <- hasRailAtPosition grid gridSize (x - 1) y ;;
  let options := if n then [dNorth] else [] in
  e <- hasRailAtPosition grid gridSize x (y - 1) ;;
  let options := if e then options ++ [dEast] else options in
  s <- hasRailAtPosition grid gridSize (x + 1) y ;;
  let options := if s then options ++ [dSouth] else options in
  w <- hasRailAtPosition grid gridSize x (y + 1) ;;
  let options := if w then options ++ [dWest] else options in
  Ret options.

Definition findRailStations (grid : Grid) (gridSize : Z) : Res (list Coord) :=
  forEachM
    (fun stations c =>
       tile <- tileAt grid (fst c) (snd c) ;;
       if typeIs tile rail_station then Ret (stations ++ [c])
       else Ret stations)
    (scanCells gridSize) [].

Definition countRailTiles (grid : Grid) (gridSize : Z) : Res Z :=
  forEachM
    (fun count c =>
       tile <- tileAt grid (fst c) (snd c) ;;
       if railOrOverlay tile then Ret (count + 1) else Ret count)
    (scanCells gridSize) 0.

(** The test [!isRailTile(..) && !isRailStationTile(..)] of the pathfinder
    and of the train movement, negated: the tile carries rail or belongs to
    a station.  The station test is made only when the rail test fails. *)
Definition railOrStation (grid : Grid) (gridSize x y : Z) : Res bool :=
  r <- isRailTile grid gridSize x y ;;
  if r then Ret true else isRailStationTile grid gridSize x y.

(** An element of the BFS queue: a cell and the path that reached it. *)
Record QueueEntry : Type := mkEntry {
  qx : Z;
  qy : Z;
  qpath : list Coord
}.

(** The keys [`${x},${y}`] of the visited set are in bijection with the
    integer pairs, so the set is a list of cells with a membership test. *)
Definition visitedHas (visited : list Coord) (c : Coord) : bool :=
  existsb (Coord_eqb c) visited.

Definition directions : list (Z * Z) := [(-1, 0); (0, -1); (1, 0); (0, 1)].

(** One round of the inner [for (const { dx, dy } of directions)] loop. *)
Definition visitNeighbor (grid : Grid) (gridSize : Z) (current : QueueEntry)
  (st : list QueueEntry * list Coord) (d : Z * Z)
  : Res (list QueueEntry * list Coord) :=
  let '(queue, visited) := st in
  let nx := qx current + fst d in
  let ny := qy current + snd d in
  if outOfBounds gridSize nx ny then Ret st
  else if visitedHas visited (nx, ny) then Ret st
  else
    valid <- railOrStation grid gridSize nx ny ;;
    if negb valid then Ret st
    else Ret (queue ++ [mkEntry nx ny (qpath current ++ [(nx, ny)])],
              (nx, ny) :: visited).

(** The [while (queue.length > 0)] loop. *)
Fixpoint bfsLoop (fuel : nat) (grid : Grid) (gridSize endX endY : Z)
  (queue : list QueueEntry) (visited : list Coord)
  : Res (option (list Coord)) :=
  match queue with
  | [] => Ret None
  | current :: rest =>
      match fuel with
      | O => OutOfFuel
      | S fuel' =>
          if (qx current =? endX) && (qy current =? endY)
          then Ret (Some (qpath current))
          else
            '(queue', visited') <-
              forEachM (visitNeighbor grid gridSize current) directions
                       (rest, visited) ;;
            bfsLoop fuel' grid gridSize endX endY queue' visited'
      end
  end.

(** Every round of the loop takes one entry off the queue, and an entry is
    put on it at most once per cell of the grid, after the first one. *)
Definition bfsFuel (gridSize : Z) : nat := S (Z.to_nat (gridSize * gridSize)).

Definition findPathOnRails (grid : Grid) (gridSize startX startY endX endY : Z)
  : Res (option (list Coord)) :=
  bfsLoop (bfsFuel gridSize) grid gridSize endX endY
          [mkEntry startX startY [(startX, startY)]]
          [(startX, startY)].

End Rail.

(** ** Train system *)

Module Trains.
Import Rail.

Inductive CarriageType : Type :=
| locomotive | passenger | freight_box | freight_tank | freight_flat | caboose.

Inductive TrainType : Type := passengerTrain | freightTrain.

Record TrainCarriage : Type := mkCarriage {
  carType : CarriageType;
  carColor : string;
  carTileX : Z;
  carTileY : Z;
  carProgress : Q;
  carDirection : CarDirection
}.

Record Train : Type := mkTrain {
  trainId : Z;
  trainType : TrainType;
  carriages : list TrainCarriage;
  tileX : Z;
  tileY : Z;
  direction : CarDirection;
  progress : Q;
  speed : Q;
  path : list Coord;
  pathIndex : Z;
  age : Q;
  maxAge : Q;
  color : string;
  atStation : bool;
  stationWaitTimer : Q
}.

(** Field assignments [train.f = v]. *)
Definition setCarriages (t : Train) (v : list TrainCarriage) : Train :=
  mkTrain (trainId t) (trainType t) v (tileX t) (tileY t) (direction t)
          (progress t) (speed t) (path t) (pathIndex t) (age t) (maxAge t)
          (color t) (atStation t) (stationWaitTimer t).
Definition setTile (t : Train) (x y : Z) : Train :=
  mkTrain (trainId t) (trainType t) (carriages t) x y (direction t)
          (progress t) (speed t) (path t) (pathIndex t) (age t) (maxAge t)
          (color t) (atStation t) (stationWaitTimer t).
Definition setDirection (t : Train) (v : CarDirection) : Train :=
  mkTrain (trainId t) (trainType t) (carriages t) (tileX t) (tileY t) v
          (progress t) (speed t) (path t) (pathIndex t) (age t) (maxAge t)
          (color t) (atStation t) (stationWaitTimer t).
Definition setProgress (t : Train) (v : Q) : Train :=
  mkTrain (trainId t) (trainType t) (carriages t) (tileX t) (tileY t)
          (direction t) v (speed t) (path t) (pathIndex t) (age t) (maxAge t)
          (color t) (atStation t) (stationWaitTimer t).
Definition setPath (t : Train) (p : list Coord) (i : Z) : Train :=
  mkTrain (trainId t) (trainType t) (carriages t) (tileX t) (tileY t)
          (direction t) (progress t) (speed t) p i (age t) (maxAge t)
          (color t) (atStation t) (stationWaitTimer t).
Definition setAge (t : Train) (v : Q) : Train :=
  mkTrain (trainId t) (trainType t) (carriages t) (tileX t) (tileY t)
          (direction t) (progress t) (speed t) (path t) (pathIndex t) v
          (maxAge t) (color t) (atStation t) (stationWaitTimer t).
Definition setAtStation (t : Train) (v : bool) : Train :=
  mkTrain (trainId t) (trainType t) (carriages t) (tileX t) (tileY t)
          (direction t) (progress t) (speed t) (path t) (pathIndex t) (age t)
          (maxAge t) (color t) v (stationWaitTimer t).
Definition setStationWaitTimer (t : Train) (v : Q) : Train :=
  mkTrain (trainId t) (trainType t) (carriages t) (tileX t) (tileY t)
          (direction t) (progress t) (speed t) (path t) (pathIndex t) (age t)
          (maxAge t) (color t) (atStation t) v.

(** *** Constants *)

Definition LOCOMOTIVE_COLORS : list string :=
  ["#1e40af"; "#dc2626"; "#059669"; "#7c3aed"; "#ea580c"; "#0891b2"]%string.
Definition FREIGHT_COLORS : list string :=
  ["#8B4513"; "#696969"; "#2F4F4F"; "#8B0000"; "#006400"; "#4682B4"]%string.
Definition PASSENGER_COLORS : list string :=
  ["#C0C0C0"; "#1e40af"; "#059669"; "#7c3aed"]%string.

Definition MIN_RAIL_TILES_FOR_TRAINS : Z := 10.
Definition STATION_STOP_DURATION : Q := 2.
Definition TRAIN_MAX_AGE : Q := 60.
Definition PASSENGER_MIN : Z := 5.
Definition PASSENGER_MAX : Z := 8.
Definition FREIGHT_MIN : Z := 6.
Definition FREIGHT_MAX : Z := 10.
Definition CARRIAGE_SPACING : Q := 28 # 100.

(** [DIRECTION_META[d].step] of [constants.ts] *)
Definition step (d : CarDirection) : Z * Z :=
  match d with
  | dNorth => (-1, 0)
  | dEast => (0, -1)
  | dSouth => (1, 0)
  | dWest => (0, 1)
  end.

Definition OPPOSITE_DIRECTION (d : CarDirection) : CarDirection :=
  match d with
  | dNorth => dSouth
  | dEast => dWest
  | dSouth => dNorth
  | dWest => dEast
  end.

Definition CarDirection_eqb (a b : CarDirection) : bool :=
  match a, b with
  | dNorth, dNorth | dEast, dEast | dSouth, dSouth | dWest, dWest => true
  | _, _ => false
  end.

Definition TrainType_eqb (a b : TrainType) : bool :=
  match a, b with
  | passengerTrain, passengerTrain | freightTrain, freightTrain => true
  | _, _ => false
  end.

(** [a < b] on numbers *)
Definition Qlt_bool (a b : Q) : bool := negb (Qle_bool b a).

(** [l[i].x]: reading a coordinate of a missing element raises. *)
Definition coordAt (l : list Coord) (i : Z) : Res Coord :=
  match idx l i with
  | Some c => Ret c
  | None => TypeError
  end.

(** *** Train movement *)

Definition includes (l : list CarDirection) (d : CarDirection) : bool :=
  existsb (CarDirection_eqb d) l.

Definition pickNextDirection (previousDirection : CarDirection)
  (grid : Grid) (gridSize x y : Z) : Res (option CarDirection) :=
  options <- getRailDirectionOptions grid gridSize x y ;;
  if Nat.eqb (List.length options) 0 then Ret None
  else
    connections <- getAdjacentRail grid gridSize x y ;;
    let trackType := getTrackType connections in
    let incoming := OPPOSITE_DIRECTION previousDirection in
    let filtered :=
      filter (fun dir => negb (CarDirection_eqb dir incoming)) options in
    if Nat.eqb (List.length filtered) 0 then Ret (Some incoming)
    else
      let straightOrFirst :=
        if includes filtered previousDirection then Some previousDirection
        else hd_error filtered in
      match trackType with
      | straight_ns | straight_ew => Ret straightOrFirst
      | curve_ne | curve_nw | curve_se | curve_sw => Ret (hd_error filtered)
      | junction_t_n | junction_t_e | junction_t_s | junction_t_w =>
          Ret straightOrFirst
      | junction_cross => Ret straightOrFirst
      | terminus_n | terminus_e | terminus_s | terminus_w =>
          Ret (Some incoming)
      | single =>
          match hd_error filtered with
          | Some d => Ret (Some d)
          | None => Ret (Some incoming)
          end
      end.

Definition getDirectionToTile (fromX fromY toX toY : Z)
  : option CarDirection :=
  let dx := toX - fromX in
  let dy := toY - fromY in
  if (dx =? -1) && (dy =? 0) then Some dNorth
  else if (dx =? 1) && (dy =? 0) then Some dSouth
  else if (dx =? 0) && (dy =? -1) then Some dEast
  else if (dx =? 0) && (dy =? 1) then Some dWest
  else None.

(** The local variables of the walk back along the path history. *)
Record Follow : Type := mkFollow {
  carriageTileX : Z;
  carriageTileY : Z;
  carriageProgress : Q;
  carriageDirection : CarDirection;
  pathIdx : Z;
  foundValidPosition : bool
}.

(** [while (carriageProgress < 0 && pathIdx > 0)] *)
Fixpoint walkBack (fuel : nat) (train : Train) (s : Follow) : Res Follow :=
  if Qlt_bool (carriageProgress s) 0 && (pathIdx s >? 0) then
    match fuel with
    | O => OutOfFuel
    | S fuel' =>
        let pathIdx' := pathIdx s - 1 in
        let carriageProgress' := (carriageProgress s + 1)%Q in
        let len := Z.of_nat (List.length (path train)) in
        if (pathIdx' >=? 0) && (pathIdx' <? len) then
          prevTile <- coordAt (path train) pathIdx' ;;
          dir <- (if pathIdx' + 1 <? len then
                    nextTile <- coordAt (path train) (pathIdx' + 1) ;;
                    match getDirectionToTile (fst prevTile) (snd prevTile)
                                             (fst nextTile) (snd nextTile) with
                    | Some d => Ret d
                    | None => Ret (carriageDirection s)
                    end
                  else Ret (carriageDirection s)) ;;
          walkBack fuel' train
            (mkFollow (fst prevTile) (snd prevTile) carriageProgress' dir
                      pathIdx' true)
        else
          walkBack fuel' train
            (mkFollow (carriageTileX s) (carriageTileY s) carriageProgress'
                      (carriageDirection s) pathIdx' (foundValidPosition s))
    end
  else Ret s.

(** The body of the carriage loop for the carriage at index [i]. *)
Definition followCarriage (train : Train) (i : Z) (carriage : TrainCarriage)
  : Res TrainCarriage :=
  if i =? 0 then
    Ret (mkCarriage (carType carriage) (carColor carriage)
                    (tileX train) (tileY train) (progress train)
                    (direction train))
  else
    let targetProgress := (progress train - inject_Z i * CARRIAGE_SPACING)%Q in
    s <- walkBack (Z.to_nat (pathIndex train)) train
           (mkFollow (tileX train) (tileY train) targetProgress
                     (direction train) (pathIndex train) false) ;;
    s <- (if negb (foundValidPosition s) && Qlt_bool (carriageProgress s) 0
          then
            spawnTile <- coordAt (path train) 0 ;;
            Ret (mkFollow (fst spawnTile) (snd spawnTile) 0
                          (carriageDirection s) (pathIdx s)
                          (foundValidPosition s))
          else Ret s) ;;
    let clamped := Qmax 0 (Qmin (99 # 100) (carriageProgress s)) in
    Ret (mkCarriage (carType carriage) (carColor carriage)
                    (carriageTileX s) (carriageTileY s) clamped
                    (carriageDirection s)).

(** [for (let i = 0; i < train.carriages.length; i++)], from index [i]. *)
Fixpoint followCarriages (train : Train) (i : Z) (cs : list TrainCarriage)
  : Res (list TrainCarriage) :=
  match cs with
  | [] => Ret []
  | c :: cs' =>
      c' <- followCarriage train i c ;;
      rest <- followCarriages train (i + 1) cs' ;;
      Ret (c' :: rest)
  end.

(** The [grid] and [gridSize] arguments of the source are not used. *)
Definition updateCarriagePositions (train : Train) : Res Train :=
  cs <- followCarriages train 0 (carriages train) ;;
  Ret (setCarriages train cs).

(** [while (train.progress >= 1)] *)
Fixpoint moveLoop (fuel : nat) (grid : Grid) (gridSize : Z) (train : Train)
  : Res Train :=
  if Qle_bool 1 (progress train) then
    match fuel with
    | O => OutOfFuel
    | S fuel' =>
        let newTileX := tileX train + fst (step (direction train)) in
        let newTileY := tileY train + snd (step (direction train)) in
        valid <- railOrStation grid gridSize newTileX newTileY ;;
        if negb valid then
          altDir <- pickNextDirection (direction train) grid gridSize
                      (tileX train) (tileY train) ;;
          match altDir with
          | None =>
              Ret (setProgress
                     (setDirection train (OPPOSITE_DIRECTION (direction train)))
                     (1 # 2))
          | Some d => Ret (setProgress (setDirection train d) (1 # 10))
          end
        else
          let train := setTile train newTileX newTileY in
          let train := setProgress train (progress train - 1)%Q in
          s <- isRailStationTile grid gridSize newTileX newTileY ;;
          let train :=
            if s && TrainType_eqb (trainType train) passengerTrain
            then setStationWaitTimer (setAtStation train true)
                                     STATION_STOP_DURATION
            else train in
          nextDir <- pickNextDirection (direction train) grid gridSize
                       (tileX train) (tileY train) ;;
          let train :=
            match nextDir with
            | Some d => setDirection train d
            | None => train
            end in
          let train :=
            setPath train (path train ++ [(newTileX, newTileY)])
                    (pathIndex train + 1) in
          let train :=
            if (Z.of_nat (List.length (path train)) >? 80)
            then setPath train (tl (path train)) (pathIndex train - 1)
            else train in
          moveLoop fuel' grid gridSize train
    end
  else Ret train.

(** Each round of the loop takes 1 off a progress of at least 1. *)
Definition moveFuel (p : Q) : nat := Z.to_nat (Qfloor p).

(** The train is updated in place: the result carries the value returned
    and the train as the call leaves it. *)
Definition updateTrain (train : Train) (delta speedMultiplier : Q)
  (grid : Grid) (gridSize : Z) : Res (bool * Train) :=
  let train := setAge train (age train + delta * speedMultiplier)%Q in
  if Qlt_bool (maxAge train) (age train) then Ret (false, train)
  else if atStation train then
    let train :=
      setStationWaitTimer train
        (stationWaitTimer train - delta * speedMultiplier)%Q in
    let train :=
      if Qle_bool (stationWaitTimer train) 0 then setAtStation train false
      else train in
    Ret (true, train)
  else
    valid <- railOrStation grid gridSize (tileX train) (tileY train) ;;
    if negb valid then Ret (false, train)
    else
      let train :=
        setProgress train
          (progress train + speed train * delta * speedMultiplier)%Q in
      train <- moveLoop (moveFuel (progress train)) grid gridSize train ;;
      train <- updateCarriagePositions train ;;
      Ret (true, train).

(** *** Train spawning *)

(** The values [Math.random()] returns, call after call; each one lies in
    the interval from 0 (included) to 1 (excluded). *)
Record RandomSource : Type := mkRandom {
  draw : nat -> Q;
  draw_range : forall n, (0 <= draw n)%Q /\ (draw n < 1)%Q
}.

(** What spawning reads and writes besides the grid: how many random
    numbers were drawn, and [trainIdRef.current]. *)
Record SpawnState : Type := mkSpawnState {
  draws : nat;
  current : Z
}.

Definition Spawn (A : Type) : Type := SpawnState -> Res (A * SpawnState).

Definition retS {A : Type} (a : A) : Spawn A := fun st => Ret (a, st).

Definition bindS {A B : Type} (m : Spawn A) (k : A -> Spawn B) : Spawn B :=
  fun st =>
    match m st with
    | Ret (a, st') => k a st'
    | TypeError => TypeError
    | OutOfFuel => OutOfFuel
    end.

Definition liftS {A : Type} (m : Res A) : Spawn A :=
  fun st => a <- m ;; Ret (a, st).

Notation "x <~ m ;; k" := (bindS m (fun x => k))
  (at level 61, m at next level, right associativity).

(** [Math.floor(r * n)] *)
Definition floorTimes (r : Q) (n : Z) : Z := Qfloor (r * inject_Z n).

Section Spawning.

Variable rnd : RandomSource.

(** [Math.random()] *)
Definition random : Spawn Q :=
  fun st => Ret (draw rnd (draws st), mkSpawnState (S (draws st)) (current st)).

(** [trainIdRef.current++] *)
Definition nextTrainId : Spawn Z :=
  fun st => Ret (current st, mkSpawnState (draws st) (current st + 1)).

(** [l[Math.floor(Math.random() * l.length)]].  The source draws from
    non-empty arrays only, where the index is in range; the outcome on an
    index out of range stands for an element that does not exist. *)
Definition pickRandom {A : Type} (l : list A) : Spawn A :=
  r <~ random ;;
  match idx l (floorTimes r (Z.of_nat (List.length l))) with
  | Some a => retS a
  | None => fun _ => TypeError
  end.

(** The indices [1 .. numCarriages - 2] of the body cars. *)
Definition bodyIndices (numCarriages : Z) : list Z :=
  map (fun k => 1 + k) (range (numCarriages - 2)).

(** The speed and the maximum age are sums over exact rationals; in the
    double arithmetic of the source the sums are rounded, so that a draw
    just below 1 gives the upper ends (a maximum age of exactly 90, or 100
    for a freight train) that the exact sums stay below. *)
Definition createPassengerTrain (id tileX tileY : Z) (direction : CarDirection)
  : Spawn Train :=
  r <~ random ;;
  let numCarriages :=
    PASSENGER_MIN + floorTimes r (PASSENGER_MAX - PASSENGER_MIN + 1) in
  locomotiveColor <~ pickRandom LOCOMOTIVE_COLORS ;;
  passengerColor <~ pickRandom PASSENGER_COLORS ;;
  let carriages :=
    [mkCarriage locomotive locomotiveColor tileX tileY 0 direction] in
  let carriages :=
    carriages ++
    map (fun i => mkCarriage passenger passengerColor tileX tileY
                    (- inject_Z i * CARRIAGE_SPACING)%Q direction)
        (bodyIndices numCarriages) in
  let carriages :=
    if numCarriages >? 1 then
      carriages ++
      [mkCarriage caboose locomotiveColor tileX tileY
         (- inject_Z (numCarriages - 1) * CARRIAGE_SPACING)%Q direction]
    else carriages in
  speedDraw <~ random ;;
  ageDraw <~ random ;;
  retS (mkTrain id passengerTrain carriages tileX tileY direction 0
          ((25 # 100) + speedDraw * (1 # 10))%Q
          [(tileX, tileY)] 0 0
          (TRAIN_MAX_AGE + ageDraw * 30)%Q
          locomotiveColor false 0).

(** The loop over the freight cars: each draws its type, then its colour. *)
Fixpoint freightCars (tileX tileY : Z) (direction : CarDirection)
  (indices : list Z) (carriages : list TrainCarriage)
  : Spawn (list TrainCarriage) :=
  match indices with
  | [] => retS carriages
  | i :: indices' =>
      freightType <~ pickRandom [freight_box; freight_tank; freight_flat] ;;
      freightColor <~ pickRandom FREIGHT_COLORS ;;
      freightCars tileX tileY direction indices'
        (carriages ++
         [mkCarriage freightType freightColor tileX tileY
            (- inject_Z i * CARRIAGE_SPACING)%Q direction])
  end.

Definition createFreightTrain (id tileX tileY : Z) (direction : CarDirection)
  : Spawn Train :=
  r <~ random ;;
  let numCarriages :=
    FREIGHT_MIN + floorTimes r (FREIGHT_MAX - FREIGHT_MIN + 1) in
  locomotiveColor <~ pickRandom LOCOMOTIVE_COLORS ;;
  carriages <~
    freightCars tileX tileY direction (bodyIndices numCarriages)
      [mkCarriage locomotive locomotiveColor tileX tileY 0 direction] ;;
  let carriages :=
    if numCarriages >? 1 then
      carriages ++
      [mkCarriage caboose "#8B0000" tileX tileY
         (- inject_Z (numCarriages - 1) * CARRIAGE_SPACING)%Q direction]
    else carriages in
  speedDraw <~ random ;;
  ageDraw <~ random ;;
  retS (mkTrain id freightTrain carriages tileX tileY direction 0
          ((18 # 100) + speedDraw * (8 # 100))%Q
          [(tileX, tileY)] 0 0
          (TRAIN_MAX_AGE + ageDraw * 40)%Q
          locomotiveColor false 0).

(** A spawn point: the tile and the heading. *)
Definition SpawnPoint : Type := (Z * Z * CarDirection)%type.

(** The first loop of [findAdjacentRailToStation], over the four
    orthogonal neighbours. *)
Fixpoint firstOrthogonalRail (grid : Grid) (gridSize stationX stationY : Z)
  (ds : list (Z * Z * CarDirection)) : Res (option SpawnPoint) :=
  match ds with
  | [] => Ret None
  | (dx, dy, dir) :: ds' =>
      let nx := stationX + dx in
      let ny := stationY + dy in
      r <- isRailTile grid gridSize nx ny ;;
      if r then Ret (Some (nx, ny, dir))
      else firstOrthogonalRail grid gridSize stationX stationY ds'
  end.

(** Its second loop, over the diagonal and two-away neighbours. *)
Fixpoint firstDiagonalRail (grid : Grid) (gridSize stationX stationY : Z)
  (ds : list (Z * Z)) : Spawn (option SpawnPoint) :=
  match ds with
  | [] => retS None
  | (dx, dy) :: ds' =>
      let nx := stationX + dx in
      let ny := stationY + dy in
      r <~ liftS (isRailTile grid gridSize nx ny) ;;
      if r then
        options <~ liftS (getRailDirectionOptions grid gridSize nx ny) ;;
        if (0 <? List.length options)%nat then
          dir <~ pickRandom options ;;
          retS (Some (nx, ny, dir))
        else firstDiagonalRail grid gridSize stationX stationY ds'
      else firstDiagonalRail grid gridSize stationX stationY ds'
  end.

Definition findAdjacentRailToStation (grid : Grid)
  (gridSize stationX stationY : Z) : Spawn (option SpawnPoint) :=
  let directions :=
    [(-1, 0, dSouth); (0, -1, dWest); (1, 0, dNorth); (0, 1, dEast)] in
  found <~ liftS (firstOrthogonalRail grid gridSize stationX stationY
                    directions) ;;
  match found with
  | Some p => retS (Some p)
  | None =>
      let diagonals :=
        [(-1, -1); (-1, 1); (1, -1); (1, 1);
         (2, 0); (0, 2); (-2, 0); (0, -2)] in
      firstDiagonalRail grid gridSize stationX stationY diagonals
  end.

Definition findRandomRailTile (grid : Grid) (gridSize : Z)
  : Spawn (option Coord) :=
  railTiles <~
    liftS (forEachM
             (fun railTiles c =>
                r <- isRailTile grid gridSize (fst c) (snd c) ;;
                if r then
                  options <- getRailDirectionOptions grid gridSize
                               (fst c) (snd c) ;;
                  if (2 <=? List.length options)%nat
                  then Ret (railTiles ++ [c])
                  else Ret railTiles
                else Ret railTiles)
             (scanCells gridSize) []) ;;
  railTiles <~
    (if Nat.eqb (List.length railTiles) 0 then
       liftS (forEachM
                (fun railTiles c =>
                   r <- isRailTile grid gridSize (fst c) (snd c) ;;
                   if r then Ret (railTiles ++ [c]) else Ret railTiles)
                (scanCells gridSize) railTiles)
     else retS railTiles) ;;
  if Nat.eqb (List.length railTiles) 0 then retS None
  else
    t <~ pickRandom railTiles ;;
    retS (Some t).

Definition spawnTrain (grid : Grid) (gridSize : Z) : Spawn (option Train) :=
  railTileCount <~ liftS (countRailTiles grid gridSize) ;;
  if railTileCount <? MIN_RAIL_TILES_FOR_TRAINS then retS None
  else
    stations <~ liftS (findRailStations grid gridSize) ;;
    fromStation <~
      (if (0 <? List.length stations)%nat then
         r <~ random ;;
         retS (Qlt_bool r (7 # 10))
       else retS false) ;;
    spawn <~
      (if fromStation then
         station <~ pickRandom stations ;;
         findAdjacentRailToStation grid gridSize (fst station) (snd station)
       else
         railTile <~ findRandomRailTile grid gridSize ;;
         match railTile with
         | None => retS None
         | Some (spawnX, spawnY) =>
             options <~ liftS (getRailDirectionOptions grid gridSize
                                 spawnX spawnY) ;;
             if Nat.eqb (List.length options) 0 then retS None
             else
               direction <~ pickRandom options ;;
               retS (Some (spawnX, spawnY, direction))
         end) ;;
    match spawn with
    | None => retS None
    | Some (spawnX, spawnY, direction) =>
        r <~ random ;;
        id <~ nextTrainId ;;
        train <~
          (if Qlt_bool r (1 # 2)
           then createPassengerTrain id spawnX spawnY direction
           else createFreightTrain id spawnX spawnY direction) ;;
        retS (Some train)
    end.

End Spawning.

End Trains.

(** ** Rendering helpers of the rail and train systems *)

Module Curves.
Import Rail.

(** [getTrackSide] of [railSystem.ts]: 0 for north- and east-bound trains,
    1 for south- and west-bound ones. *)
Definition getTrackSide (direction : CarDirection) : Z :=
  match direction with
  | dNorth | dEast => 0
  | dSouth | dWest => 1
  end.

(** [getCurveTraversalDirection] of the train system: the curve parameters
    [(entryT, exitT)] at which a train travelling in [enterDirection]
    enters and leaves a curve tile, or null. *)
Definition getCurveTraversalDirection (trackType : TrackType)
  (enterDirection : CarDirection) : option (Q * Q) :=
  match trackType with
  | curve_ne =>
      match enterDirection with
      | dNorth => Some (1, 0)%Q
      | dEast => Some (0, 1)%Q
      | _ => None
      end
  | curve_nw =>
      match enterDirection with
      | dNorth => Some (1, 0)%Q
      | dWest => Some (0, 1)%Q
      | _ => None
      end
  | curve_se =>
      match enterDirection with
      | dSouth => Some (1, 0)%Q
      | dEast => Some (0, 1)%Q
      | _ => None
      end
  | curve_sw =>
      match enterDirection with
      | dSouth => Some (1, 0)%Q
      | dWest => Some (0, 1)%Q
      | _ => None
      end
  | _ => None
  end.

End Curves.

(** ** Helpers shared with the road vehicles ([utils.ts], [types.ts]) *)

Module Utils.
Import Rail Trains.

Definition TILE_WIDTH : Q := 64.
Definition HEIGHT_RATIO : Q := 60 # 100.
Definition TILE_HEIGHT : Q := TILE_WIDTH * HEIGHT_RATIO.

Definition getOppositeDirection (direction : CarDirection) : CarDirection :=
  OPPOSITE_DIRECTION direction.

Definition isRoadTile (gridData : Grid) (gridSizeValue x y : Z) : Res bool :=
  if outOfBounds gridSizeValue x y then Ret false
  else
    tile <- tileAt gridData x y ;;
    Ret (typeIs tile road).

Definition getDirectionOptions (gridData : Grid) (gridSizeValue x y : Z)
  : Res (list CarDirection) :=
  n <- isRoadTile gridData gridSizeValue (x - 1) y ;;
  let options := if n then [dNorth] else [] in
  e <- isRoadTile gridData gridSizeValue x (y - 1) ;;
  let options := if e then options ++ [dEast] else options in
  s <- isRoadTile gridData gridSizeValue (x + 1) y ;;
  let options := if s then options ++ [dSouth] else options in
  w <- isRoadTile gridData gridSizeValue x (y + 1) ;;
  let options := if w then options ++ [dWest] else options in
  Ret options.

(** The heading of a road vehicle at a tile: a random one among the road
    neighbours, the way back only when it is the only one. *)
Definition pickNextDirection (rnd : RandomSource)
  (previousDirection : CarDirection) (gridData : Grid)
  (gridSizeValue x y : Z) : Spawn (option CarDirection) :=
  bindS (liftS (getDirectionOptions gridData gridSizeValue x y))
    (fun options =>
       if Nat.eqb (List.length options) 0 then retS None
       else
         let incoming := getOppositeDirection previousDirection in
         let filtered :=
           filter (fun dir => negb (CarDirection_eqb dir incoming)) options in
         let pool :=
           if (0 <? List.length filtered)%nat then filtered else options in
         bindS (pickRandom rnd pool) (fun d => retS (Some d))).

(** [Math.round]: the nearest integer, halves going up. *)
Definition round (q : Q) : Z := Qfloor (q + (1 # 2)).

Definition gridToScreen (x y offsetX offsetY : Q) : Q * Q :=
  let screenX := ((x - y) * (TILE_WIDTH / 2) + offsetX)%Q in
  let screenY := ((x + y) * (TILE_HEIGHT / 2) + offsetY)%Q in
  (screenX, screenY).

Definition screenToGrid (screenX screenY offsetX offsetY : Q) : Z * Z :=
  let adjustedX := (screenX - offsetX - TILE_WIDTH / 2)%Q in
  let adjustedY := (screenY - offsetY - TILE_HEIGHT / 2)%Q in
  let gridX :=
    ((adjustedX / (TILE_WIDTH / 2) + adjustedY / (TILE_HEIGHT / 2)) / 2)%Q in
  let gridY :=
    ((adjustedY / (TILE_HEIGHT / 2) - adjustedX / (TILE_WIDTH / 2)) / 2)%Q in
  (round gridX, round gridY).

End Utils.

(** ** Predicates and scenarios of the specification *)

Module Scenarios.
Import Rail Trains.

(** A grid of [gridSize] rows of [gridSize] tiles. *)
Definition squareGridb (grid : Grid) (gridSize : Z) : bool :=
  (0 <=? gridSize) &&
  (Z.of_nat (List.length grid) =? gridSize) &&
  forallb (fun row : list Tile => Z.of_nat (List.length row) =? gridSize) grid.

Definition squareGrid (grid : Grid) (gridSize : Z) : Prop :=
  squareGridb grid gridSize = true.

(** The building on a tile, if the tile exists. *)
Definition buildingAt (grid : Grid) (x y : Z) : option BuildingType :=
  match tileAt grid x y with
  | Ret t => Some (buildingType t)
  | _ => None
  end.

(** The tile exists and is the origin marker of a station. *)
Definition stationAt (grid : Grid) (x y : Z) : bool :=
  match tileAt grid x y with
  | Ret t => typeIs t rail_station
  | _ => false
  end.

(** A square grid given by the tile of each cell. *)
Definition mkGrid (gridSize : Z) (f : Z -> Z -> Tile) : Grid :=
  map (fun y => map (fun x => f x y) (range gridSize)) (range gridSize).

Definition grass : Tile := mkTile (other "grass") false.
Definition railTile : Tile := mkTile rail false.
Definition stationTile : Tile := mkTile rail_station false.
Definition emptyTile : Tile := mkTile empty false.

(** A 7 x 7 map with one 2x2 station whose origin is (3,3). *)
Definition stationGrid : Grid :=
  mkGrid 7 (fun x y =>
    if (x =? 3) && (y =? 3) then stationTile
    else if ((x =? 4) && (y =? 3)) || ((x =? 3) && (y =? 4))
            || ((x =? 4) && (y =? 4)) then emptyTile
    else grass).

(** The sixteen connection patterns, north varying slowest. *)
Definition allConnections : list RailConnection :=
  flat_map (fun n => flat_map (fun e => flat_map (fun s =>
    map (fun w => mkConn n e s w) [false; true]) [false; true])
    [false; true]) [false; true].

(** A 3 x 3 map with two rail tiles, (0,1) and (1,1): the tile (1,1) has
    its only connection to the north and is a [terminus_s]. *)
Definition terminusGrid : Grid :=
  mkGrid 3 (fun x y =>
    if (y =? 1) && ((x =? 0) || (x =? 1)) then railTile else grass).

(** A 3 x 3 map whose only rail tile is (1,1). *)
Definition isolatedGrid : Grid :=
  mkGrid 3 (fun x y => if (x =? 1) && (y =? 1) then railTile else grass).

Definition twoCars (x y : Z) (d : CarDirection) : list TrainCarriage :=
  [mkCarriage locomotive "#1e40af" x y 0 d;
   mkCarriage caboose "#1e40af" x y (- (28 # 100)) d].

(** A passenger train that came from (0,1) onto (1,1) and heads south,
    nine tenths of the way across the tile. *)
Definition bounceTrain : Train :=
  mkTrain 1 passengerTrain (twoCars 1 1 dSouth) 1 1 dSouth (9 # 10) (1 # 4)
          [(0, 1); (1, 1)] 1 0 60 "#1e40af" false 0.

(** The same train waiting at a station with one second left. *)
Definition dwellingTrain : Train :=
  mkTrain 1 passengerTrain (twoCars 1 1 dSouth) 1 1 dSouth (9 # 10) (1 # 4)
          [(0, 1); (1, 1)] 1 0 60 "#1e40af" true 1.

(** A freshly spawned train whose lead is 0.995 of the way across its
    first tile. *)
Definition lateTrain : Train :=
  mkTrain 2 freightTrain (twoCars 1 1 dNorth) 1 1 dNorth (995 # 1000) (1 # 4)
          [(1, 1)] 0 0 60 "#1e40af" false 0.

(** The number of tiles that carry rail: pure rail tiles and road tiles
    with a rail overlay. *)
Definition railTileCount (grid : Grid) : nat :=
  List.length (filter railOrOverlay (List.concat grid)).

(** A 3 x 3 map without any rail. *)
Definition meadowGrid : Grid := mkGrid 3 (fun _ _ => grass).

(** A random source that always draws one half. *)
Definition halfSource : RandomSource.
Proof.
  refine (mkRandom (fun _ => 1 # 2) _).
  intros _. split; [discriminate | reflexivity].
Defined.

(** A 4 x 4 map with a closed loop of twelve rail tiles on its border. *)
Definition loopGrid : Grid :=
  mkGrid 4 (fun x y =>
    if (x =? 0) || (x =? 3) || (y =? 0) || (y =? 3) then railTile else grass).

(** *** Paths on the rail network *)

(** A cell the search may step onto. *)
Definition passable (grid : Grid) (gridSize : Z) (c : Coord) : Prop :=
  outOfBounds gridSize (fst c) (snd c) = false /\
  railOrStation grid gridSize (fst c) (snd c) = Ret true.

(** Orthogonally adjacent cells. *)
Definition adjacent (a b : Coord) : Prop :=
  Z.abs (fst b - fst a) + Z.abs (snd b - snd a) = 1.

(** Every step of the sequence goes to an adjacent rail-or-station cell. *)
Fixpoint stepsOk (grid : Grid) (gridSize : Z) (p : list Coord) : Prop :=
  match p with
  | a :: rest =>
      match rest with
      | b :: _ => adjacent a b /\ passable grid gridSize b /\
                  stepsOk grid gridSize rest
      | [] => True
      end
  | [] => True
  end.

(** [p] leads from [s] to [e] over rail-or-station cells. *)
Definition railPath (grid : Grid) (gridSize : Z) (s e : Coord)
  (p : list Coord) : Prop :=
  hd_error p = Some s /\ last p s = e /\ stepsOk grid gridSize p.

(** A 5 x 5 map whose only rail is the line from (0,0) to (0,4). *)
Definition lineGrid : Grid :=
  mkGrid 5 (fun x y => if x =? 0 then railTile else grass).

Definition straightLine : list Coord := [(0, 0); (0, 1); (0, 2); (0, 3); (0, 4)].

(** *** The search seen level by level *)

Definition cell (e : QueueEntry) : Coord := (qx e, qy e).

(** [walk n c]: the cell [c] is reached from [start] in [n] steps over
    rail-or-station cells. *)
Inductive walk (grid : Grid) (gridSize : Z) (start : Coord)
  : nat -> Coord -> Prop :=
| walk_here : walk grid gridSize start 0 start
| walk_step (n : nat) (u v : Coord) :
    walk grid gridSize start n u -> adjacent u v ->
    passable grid gridSize v -> walk grid gridSize start (S n) v.

(** A queue entry reached in [k] steps carries a path of [k] steps. *)
Definition entryOk (grid : Grid) (gridSize : Z) (start : Coord) (k : nat)
  (e : QueueEntry) : Prop :=
  railPath grid gridSize start (cell e) (qpath e) /\
  List.length (qpath e) = S k.

(** In-bounds cells the search has not seen yet. *)
Definition unvisited (gridSize : Z) (visited : list Coord) : nat :=
  List.length
    (filter (fun c => negb (visitedHas visited c)) (scanCells gridSize)).

(** The state of the search between two rounds of its loop: the queue is
    [A ++ B], with the entries of [A] at [k] steps from the start and those
    of [B] at [k + 1]; [P] are the cells taken off the queue so far. *)
Record SearchInv (grid : Grid) (gridSize : Z) (start goal : Coord)
  (k : nat) (A B : list QueueEntry) (visited P : list Coord) : Prop :=
  mkSearchInv {
    inv_near : Forall (entryOk grid gridSize start k) A;
    inv_far : Forall (entryOk grid gridSize start (S k)) B;
    inv_visited :
      forall c, In c visited <-> In c P \/ In c (map cell (A ++ B));
    inv_below :
      forall n c, walk grid gridSize start n c -> (n < k)%nat -> In c P;
    inv_level :
      forall c, walk grid gridSize start k c -> In c P \/ In c (map cell A);
    inv_closed :
      forall u v, In u P -> adjacent u v -> passable grid gridSize v ->
                  In v P \/ In v (map cell (A ++ B));
    inv_goal : ~ In goal P
  }.

(** What the specification asks of the result of a search. *)
Definition searchPost (grid : Grid) (gridSize : Z) (start goal : Coord)
  (r : option (list Coord)) : Prop :=
  match r with
  | None => forall p, ~ railPath grid gridSize start goal p
  | Some p =>
      railPath grid gridSize start goal p /\
      forall q, railPath grid gridSize start goal q ->
                (List.length p <= List.length q)%nat
  end.

(** *** The order in which paths are found *)

(** The place of the step from [a] to [b] in the order in which the
    neighbours of a cell are tried: north (x-1) first, then east (y-1),
    south (x+1) and west (y+1). *)
Definition turn (a b : Coord) : Z :=
  let dx := fst b - fst a in
  let dy := snd b - snd a in
  if (dx =? -1) && (dy =? 0) then 0
  else if (dx =? 0) && (dy =? -1) then 1
  else if (dx =? 1) && (dy =? 0) then 2
  else 3.

(** The steps of a path, each by its place in that order. *)
Fixpoint turns (p : list Coord) : list Z :=
  match p with
  | a :: rest =>
      match rest with
      | b :: _ => turn a b :: turns rest
      | [] => []
      end
  | [] => []
  end.

(** Lexicographic comparison, decided at the first place where the two
    sequences differ: [lexLt] asks for such a place, [lexLe] also accepts
    sequences that agree as far as the shorter one goes. *)
Fixpoint lexLt (s t : list Z) : Prop :=
  match s, t with
  | a :: s', b :: t' => a < b \/ (a = b /\ lexLt s' t')
  | _, _ => False
  end.

Fixpoint lexLe (s t : list Z) : Prop :=
  match s, t with
  | a :: s', b :: t' => a < b \/ (a = b /\ lexLe s' t')
  | _, _ => True
  end.

(** [p] is the first of the paths of its length from [s] to [e]: at the
    first step where another such path differs from [p], the step of [p]
    comes earlier in the order north, east, south, west. *)
Definition firstFound (grid : Grid) (gridSize : Z) (s e : Coord)
  (p : list Coord) : Prop :=
  forall q, railPath grid gridSize s e q -> List.length q = List.length p ->
            lexLe (turns p) (turns q).

(** The entry [a] was found on an earlier path than [b]. *)
Definition before (a b : QueueEntry) : Prop :=
  lexLt (turns (qpath a)) (turns (qpath b)).

(** The entry put on the queue for the neighbour of [e] in direction [d]. *)
Definition child (e : QueueEntry) (d : Z * Z) : QueueEntry :=
  mkEntry (qx e + fst d) (qy e + snd d)
          (qpath e ++ [(qx e + fst d, qy e + snd d)]).

(** The queue [A ++ B] of the search is in the order of the paths: each
    level is sorted, the entries of [B] were found from entries that came
    before those left in [A], and every entry carries the first path of
    its length to its cell. *)
Record SearchOrder (grid : Grid) (gridSize : Z) (start : Coord)
  (A B : list QueueEntry) : Prop :=
  mkSearchOrder {
    ord_near : StronglySorted before A;
    ord_far : StronglySorted before B;
    ord_levels : forall a b, In a A -> In b B -> before b a;
    ord_first :
      forall e, In e (A ++ B) ->
                firstFound grid gridSize start (cell e) (qpath e)
  }.

(** What the fixed order of the neighbours adds to [searchPost]. *)
Definition orderPost (grid : Grid) (gridSize : Z) (start goal : Coord)
  (r : option (list Coord)) : Prop :=
  match r with
  | None => True
  | Some p => firstFound grid gridSize start goal p
  end.

(** *** Auxiliary notions *)

(** The call does not stop on an exhausted loop bound. *)
Definition fuelSafe {A : Type} (m : Res A) : Prop := m <> OutOfFuel.

(** The headings offered at a tile are its live connections, in the order
    north, east, south, west. *)
Definition optionsOf (c : RailConnection) : list CarDirection :=
  (if north c then [dNorth] else []) ++ (if east c then [dEast] else []) ++
  (if south c then [dSouth] else []) ++ (if west c then [dWest] else []).

(** The counting loop body of [countRailTiles]. *)
Definition countBody (grid : Grid) (count : Z) (c : Coord) : Res Z :=
  tile <- tileAt grid (fst c) (snd c) ;;
  if railOrOverlay tile then Ret (count + 1) else Ret count.

End Scenarios.

(** ** Further scenarios *)

Module MoreScenarios.
Import Rail Trains Scenarios.

(** The curve types. *)
Definition isCurve (t : TrackType) : bool :=
  match t with
  | curve_ne | curve_nw | curve_se | curve_sw => true
  | _ => false
  end.

(** The connection of [c] in the direction [d]. *)
Definition connected (c : RailConnection) (d : CarDirection) : bool :=
  match d with
  | dNorth => north c
  | dEast => east c
  | dSouth => south c
  | dWest => west c
  end.

(** The neighbour of a cell in a direction, by [DIRECTION_META]. *)
Definition ahead (x y : Z) (d : CarDirection) : Coord :=
  (x + fst (step d), y + snd (step d)).

(** The train after one round of the tile-crossing loop that moves it onto
    the tile [(newTileX, newTileY)]: [s] is the station test of that tile
    and [nextDir] the heading picked there. *)
Definition advance (train : Train) (newTileX newTileY : Z) (s : bool)
  (nextDir : option CarDirection) : Train :=
  let train := setTile train newTileX newTileY in
  let train := setProgress train (progress train - 1)%Q in
  let train :=
    if s && TrainType_eqb (trainType train) passengerTrain
    then setStationWaitTimer (setAtStation train true) STATION_STOP_DURATION
    else train in
  let train :=
    match nextDir with
    | Some d => setDirection train d
    | None => train
    end in
  let train :=
    setPath train (path train ++ [(newTileX, newTileY)])
            (pathIndex train + 1) in
  if (Z.of_nat (List.length (path train)) >? 80)
  then setPath train (tl (path train)) (pathIndex train - 1)
  else train.

(** The path history as the movement keeps it: not empty, at most 80
    tiles, ending on the lead tile, with [pathIndex] on its last entry. *)
Definition historyOk (train : Train) : Prop :=
  path train <> [] /\
  (List.length (path train) <= 80)%nat /\
  pathIndex train = Z.of_nat (List.length (path train)) - 1 /\
  last (path train) (0, 0) = (tileX train, tileY train).

(** What a tick never changes of a train. *)
Definition sameMakeup (t t' : Train) : Prop :=
  trainId t' = trainId t /\ trainType t' = trainType t /\
  speed t' = speed t /\ maxAge t' = maxAge t /\ color t' = color t /\
  map carType (carriages t') = map carType (carriages t) /\
  map carColor (carriages t') = map carColor (carriages t).

(** A freight train running on [loopGrid] from (0,0) towards the south, at
    a speed that crosses two tiles in a tick of one second. *)
Definition expressTrain : Train :=
  mkTrain 3 freightTrain (twoCars 0 0 dSouth) 0 0 dSouth (1 # 2) 2
          [(0, 0)] 0 0 60 "#1e40af" false 0.

(** A carriage as it is created: on the spawn tile, with the heading of
    the train. *)
Definition onSpawnTile (x y : Z) (d : CarDirection) (c : TrainCarriage)
  : Prop :=
  carTileX c = x /\ carTileY c = y /\ carDirection c = d.

(** The state of a train as it is created. *)
Definition freshTrain (t : Train) (id : Z) (ty : TrainType) (x y : Z)
  (d : CarDirection) : Prop :=
  trainId t = id /\ trainType t = ty /\ tileX t = x /\ tileY t = y /\
  direction t = d /\ progress t = 0%Q /\ age t = 0%Q /\
  path t = [(x, y)] /\ pathIndex t = 0 /\ atStation t = false /\
  Forall (onSpawnTile x y d) (carriages t).

(** The body car at index [i] of a passenger train whose cars are painted
    in the colour [col]. *)
Definition passengerCar (col : string) (i : Z) (c : TrainCarriage) : Prop :=
  carType c = passenger /\ carColor c = col /\
  carProgress c = (- inject_Z i * CARRIAGE_SPACING)%Q.

(** The body car at index [i] of a freight train. *)
Definition freightCar (i : Z) (c : TrainCarriage) : Prop :=
  In (carType c) [freight_box; freight_tank; freight_flat] /\
  In (carColor c) FREIGHT_COLORS /\
  carProgress c = (- inject_Z i * CARRIAGE_SPACING)%Q.

(** A 5 x 5 map with a station marker at (2,2) and two rail tiles to its
    north, (1,2) and (0,2). *)
Definition depotGrid : Grid :=
  mkGrid 5 (fun x y =>
    if (x =? 2) && (y =? 2) then stationTile
    else if (y =? 2) && (x <? 2) then railTile
    else grass).

(** A 3 x 3 map with a road along the row [y = 1]. *)
Definition roadGrid : Grid :=
  mkGrid 3 (fun x y => if y =? 1 then mkTile road false else grass).

(** A passenger train on [depotGrid], on the rail tile (1,2) north of the
    station, heading south towards it. *)
Definition arrivingTrain : Train :=
  mkTrain 4 passengerTrain (twoCars 1 2 dSouth) 1 2 dSouth (9 # 10) (1 # 4)
          [(0, 2); (1, 2)] 1 0 60 "#1e40af" false 0.

(** A train that has not left its spawn tile, with its second carriage
    still behind the edge of the tile. *)
Definition waitingTrain : Train :=
  mkTrain 5 freightTrain (twoCars 1 1 dNorth) 1 1 dNorth (1 # 10) (1 # 4)
          [(1, 1)] 0 0 60 "#1e40af" false 0.

End MoreScenarios.

(** * Properties *)

(** ** Outcomes *)

Lemma bind_Ret_inv {A B : Type} (m : Res A) (k : A -> Res B) (b : B) :
  bind m k = Ret b -> exists a, m = Ret a /\ k a = Ret b.
Proof. destruct m; simpl; intros H; try discriminate. eauto. Qed.

(** ** Track classifier *)

Module ClassifierFacts.
Import Rail Scenarios.

(** C1. For each of the 16 connection patterns [getTrackType] returns the
    variant of the decision table: a crossing for 4 connections, the
    T-junction named for the missing direction for 3, a straight or the
    matching curve for 2, the terminus facing away from the only connection
    for 1 (a lone north connection gives [terminus_s]), and [single] for
    none.  The second conjunct lists the sixteen results. *)
Theorem getTrackType_decision_table :
  (forall c : RailConnection, getTrackType c = decisionTable c) /\
  map getTrackType allConnections =
    [ single;       terminus_e;   terminus_n;   curve_sw;
      terminus_w;   straight_ew;  curve_se;     junction_t_n;
      terminus_s;   curve_nw;     straight_ns;  junction_t_e;
      curve_ne;     junction_t_s; junction_t_w; junction_cross ].
Proof.
  split.
  - intros [[] [] [] []]; reflexivity.
  - reflexivity.
Qed.

End ClassifierFacts.

(** ** Grid adjacency oracle *)

Module OracleFacts.
Import Rail Scenarios.

Lemma BuildingType_eqb_eq a b : BuildingType_eqb a b = true <-> a = b.
Proof.
  destruct a, b; simpl; split; intros H; try congruence; try reflexivity.
  - apply String.eqb_eq in H. congruence.
  - inversion H. apply String.eqb_refl.
Qed.

Lemma outOfBounds_false gridSize x y :
  outOfBounds gridSize x y = false <->
  0 <= x < gridSize /\ 0 <= y < gridSize.
Proof.
  unfold outOfBounds. rewrite !orb_false_iff.
  rewrite !Z.ltb_ge, !Z.geb_leb, !Z.leb_gt. lia.
Qed.

Lemma idx_Some {A : Type} (l : list A) (i : Z) :
  0 <= i < Z.of_nat (List.length l) -> exists a, idx l i = Some a.
Proof.
  intros H. unfold idx. destruct (Z.ltb_spec i 0); [lia|].
  destruct (nth_error l (Z.to_nat i)) eqn:E; eauto.
  apply nth_error_None in E. lia.
Qed.

Lemma idx_In {A : Type} (l : list A) (i : Z) (a : A) :
  idx l i = Some a -> In a l.
Proof.
  unfold idx. destruct (i <? 0); [discriminate|]. apply nth_error_In.
Qed.

Lemma idx_neg {A : Type} (l : list A) (i : Z) : i < 0 -> idx l i = None.
Proof. intros H. unfold idx. destruct (Z.ltb_spec i 0); [reflexivity|lia]. Qed.

Lemma squareGrid_rows grid gridSize :
  squareGrid grid gridSize ->
  0 <= gridSize /\ Z.of_nat (List.length grid) = gridSize /\
  forall row, In row grid -> Z.of_nat (List.length row) = gridSize.
Proof.
  unfold squareGrid, squareGridb. rewrite !andb_true_iff.
  intros [[H0 H1] H2]. apply Z.leb_le in H0. apply Z.eqb_eq in H1.
  rewrite forallb_forall in H2. repeat split; auto.
  intros row Hin. apply Z.eqb_eq. auto.
Qed.

(** On a square grid every in-bounds tile exists. *)
Lemma tileAt_square grid gridSize x y :
  squareGrid grid gridSize -> outOfBounds gridSize x y = false ->
  exists t, tileAt grid x y = Ret t.
Proof.
  intros Hsq Hb. apply outOfBounds_false in Hb.
  destruct (squareGrid_rows _ _ Hsq) as (_ & Hlen & Hrows).
  unfold tileAt.
  destruct (idx_Some grid y) as [row Hrow]; [lia|]. rewrite Hrow.
  destruct (idx_Some row x) as [t Ht].
  { rewrite (Hrows row (idx_In _ _ _ Hrow)). lia. }
  rewrite Ht. eauto.
Qed.

(** The marker test of a neighbour, when the guard of the source holds or
    the neighbour's row exists. *)
Lemma stationMarkerAt_row grid x y row :
  idx grid y = Some row -> stationMarkerAt grid x y = Ret (stationAt grid x y).
Proof.
  intros H. unfold stationMarkerAt, stationAt, tileAt. rewrite H.
  destruct (idx row x); reflexivity.
Qed.

Lemma stationAt_neg_x grid x y : x < 0 -> stationAt grid x y = false.
Proof.
  intros H. unfold stationAt, tileAt. destruct (idx grid y); [|reflexivity].
  rewrite idx_neg by assumption. reflexivity.
Qed.

Lemma stationAt_neg_y grid x y : y < 0 -> stationAt grid x y = false.
Proof.
  intros H. unfold stationAt, tileAt. rewrite idx_neg by assumption.
  reflexivity.
Qed.

Lemma square_row grid gridSize y :
  squareGrid grid gridSize -> 0 <= y < gridSize ->
  exists row, idx grid y = Some row.
Proof.
  intros Hsq Hy. destruct (squareGrid_rows _ _ Hsq) as (_ & Hlen & _).
  apply idx_Some. lia.
Qed.

(** An [empty] tile belongs to a station exactly when its west, north or
    north-west neighbour is the origin marker. *)
Lemma isRailStationTile_empty grid gridSize x y :
  squareGrid grid gridSize -> outOfBounds gridSize x y = false ->
  buildingAt grid x y = Some empty ->
  isRailStationTile grid gridSize x y =
  Ret (stationAt grid (x - 1) y || stationAt grid x (y - 1)
       || stationAt grid (x - 1) (y - 1)).
Proof.
  intros Hsq Hb Hty. pose proof Hb as Hb'. apply outOfBounds_false in Hb'.
  unfold isRailStationTile. rewrite Hb.
  unfold buildingAt in Hty.
  destruct (tileAt grid x y) as [t| |] eqn:Ht; try discriminate.
  injection Hty as Hty. simpl.
  unfold typeIs. rewrite Hty. simpl.
  destruct (square_row _ _ y Hsq) as [row Hrow]; [lia|].
  assert (HW : (if x >? 0 then stationMarkerAt grid (x - 1) y else Ret false)
               = Ret (stationAt grid (x - 1) y)).
  { destruct (Z.gtb_spec x 0).
    - eapply stationMarkerAt_row; eauto.
    - rewrite stationAt_neg_x by lia. reflexivity. }
  assert (HN : (if y >? 0 then stationMarkerAt grid x (y - 1) else Ret false)
               = Ret (stationAt grid x (y - 1))).
  { destruct (Z.gtb_spec y 0).
    - destruct (square_row _ _ (y - 1) Hsq) as [r' Hr']; [lia|].
      eapply stationMarkerAt_row; eauto.
    - rewrite stationAt_neg_y by lia. reflexivity. }
  assert (HNW : (if (x >? 0) && (y >? 0)
                 then stationMarkerAt grid (x - 1) (y - 1) else Ret false)
               = Ret (stationAt grid (x - 1) (y - 1))).
  { destruct (Z.gtb_spec x 0); destruct (Z.gtb_spec y 0); simpl.
    - destruct (square_row _ _ (y - 1) Hsq) as [r' Hr']; [lia|].
      eapply stationMarkerAt_row; eauto.
    - rewrite stationAt_neg_y by lia. reflexivity.
    - rewrite stationAt_neg_x by lia. reflexivity.
    - rewrite stationAt_neg_x by lia. reflexivity. }
  rewrite HW. simpl. destruct (stationAt grid (x - 1) y); simpl; [reflexivity|].
  rewrite HN. simpl. destruct (stationAt grid x (y - 1)); simpl; [reflexivity|].
  rewrite HNW. simpl. destruct (stationAt grid (x - 1) (y - 1)); reflexivity.
Qed.

Lemma isRailStationTile_origin grid gridSize x y :
  outOfBounds gridSize x y = false ->
  buildingAt grid x y = Some rail_station ->
  isRailStationTile grid gridSize x y = Ret true.
Proof.
  intros Hb Hty. unfold isRailStationTile. rewrite Hb.
  unfold buildingAt in Hty.
  destruct (tileAt grid x y) as [t| |]; try discriminate.
  injection Hty as Hty. simpl. unfold typeIs. rewrite Hty. reflexivity.
Qed.

(** Anything else than a marker or an [empty] tile is no station tile. *)
Lemma isRailStationTile_other grid gridSize x y ty :
  buildingAt grid x y = Some ty -> ty <> rail_station -> ty <> empty ->
  isRailStationTile grid gridSize x y = Ret false.
Proof.
  intros Hty H1 H2. unfold isRailStationTile.
  destruct (outOfBounds gridSize x y); [reflexivity|].
  unfold buildingAt in Hty.
  destruct (tileAt grid x y) as [t| |]; try discriminate.
  injection Hty as Hty. simpl. unfold typeIs. rewrite Hty.
  destruct (BuildingType_eqb ty rail_station) eqn:E1.
  { apply BuildingType_eqb_eq in E1. contradiction. }
  destruct (BuildingType_eqb ty empty) eqn:E2.
  { apply BuildingType_eqb_eq in E2. contradiction. }
  reflexivity.
Qed.

Lemma stationAt_building grid x y :
  stationAt grid x y = true <-> buildingAt grid x y = Some rail_station.
Proof.
  unfold stationAt, buildingAt, typeIs.
  destruct (tileAt grid x y) as [t| |]; try (split; discriminate).
  rewrite BuildingType_eqb_eq. split; congruence.
Qed.

(** A tile that is no marker and has no marker to its west, north and
    north-west is no station tile. *)
Lemma isRailStationTile_outside grid gridSize x y :
  squareGrid grid gridSize -> outOfBounds gridSize x y = false ->
  stationAt grid x y = false ->
  stationAt grid (x - 1) y = false -> stationAt grid x (y - 1) = false ->
  stationAt grid (x - 1) (y - 1) = false ->
  isRailStationTile grid gridSize x y = Ret false.
Proof.
  intros Hsq Hb H0 HW HN HNW.
  destruct (tileAt_square _ _ x y Hsq Hb) as [t Ht].
  assert (Hty : buildingAt grid x y = Some (buildingType t)).
  { unfold buildingAt. rewrite Ht. reflexivity. }
  destruct (BuildingType_eqb (buildingType t) empty) eqn:E.
  - apply BuildingType_eqb_eq in E. rewrite E in Hty.
    rewrite (isRailStationTile_empty _ _ _ _ Hsq Hb Hty), HW, HN, HNW. reflexivity.
  - eapply isRailStationTile_other; eauto.
    + intros Hs. rewrite Hs in Hty. apply stationAt_building in Hty. congruence.
    + intros He. rewrite He in E. discriminate.
Qed.

(** C8. On a square grid with a station marker at (3,3) and [empty] tiles
    at (4,3), (3,4) and (4,4), where neither (2,3), (5,4) nor the tiles to
    their west, north and north-west are markers, [isRailStationTile] holds
    of the four footprint tiles and fails for (2,3) and (5,4); and on every
    in-bounds [empty] tile it is the disjunction of the marker tests of the
    west, north and north-west neighbours. *)
Theorem isRailStationTile_footprint (grid : Grid) (gridSize : Z) :
  squareGrid grid gridSize -> 6 <= gridSize ->
  buildingAt grid 3 3 = Some rail_station ->
  buildingAt grid 4 3 = Some empty ->
  buildingAt grid 3 4 = Some empty ->
  buildingAt grid 4 4 = Some empty ->
  stationAt grid 2 3 = false -> stationAt grid 1 3 = false ->
  stationAt grid 2 2 = false -> stationAt grid 1 2 = false ->
  stationAt grid 5 4 = false -> stationAt grid 5 3 = false ->
  isRailStationTile grid gridSize 3 3 = Ret true /\
  isRailStationTile grid gridSize 4 3 = Ret true /\
  isRailStationTile grid gridSize 3 4 = Ret true /\
  isRailStationTile grid gridSize 4 4 = Ret true /\
  isRailStationTile grid gridSize 2 3 = Ret false /\
  isRailStationTile grid gridSize 5 4 = Ret false /\
  (forall x y,
      outOfBounds gridSize x y = false ->
      buildingAt grid x y = Some empty ->
      isRailStationTile grid gridSize x y =
      Ret (stationAt grid (x - 1) y || stationAt grid x (y - 1)
           || stationAt grid (x - 1) (y - 1))).
Proof.
  intros Hsq Hsz H33 H43 H34 H44 S23 S13 S22 S12 S54 S53.
  assert (Hin : forall x y, 0 <= x < 6 -> 0 <= y < 6 ->
                            outOfBounds gridSize x y = false).
  { intros x y Hx Hy. apply outOfBounds_false. lia. }
  assert (M33 : stationAt grid 3 3 = true) by (apply stationAt_building; auto).
  assert (M43 : stationAt grid 4 3 = false).
  { destruct (stationAt grid 4 3) eqn:E; [|reflexivity].
    apply stationAt_building in E. congruence. }
  assert (M44 : stationAt grid 4 4 = false).
  { destruct (stationAt grid 4 4) eqn:E; [|reflexivity].
    apply stationAt_building in E. congruence. }
  repeat split.
  - apply isRailStationTile_origin; auto. apply Hin; lia.
  - rewrite (isRailStationTile_empty _ _ _ _ Hsq) by (auto; apply Hin; lia).
    simpl. rewrite M33. reflexivity.
  - rewrite (isRailStationTile_empty _ _ _ _ Hsq) by (auto; apply Hin; lia).
    simpl. rewrite M33, orb_true_r. reflexivity.
  - rewrite (isRailStationTile_empty _ _ _ _ Hsq) by (auto; apply Hin; lia).
    simpl. rewrite M33, orb_true_r. reflexivity.
  - apply isRailStationTile_outside; auto. apply Hin; lia.
  - apply isRailStationTile_outside; auto. apply Hin; lia.
  - intros x y Hb Hty. apply isRailStationTile_empty; auto.
Qed.

Lemma isRailStationTile_footprint_witness :
  isRailStationTile stationGrid 7 3 3 = Ret true /\
  isRailStationTile stationGrid 7 4 3 = Ret true /\
  isRailStationTile stationGrid 7 3 4 = Ret true /\
  isRailStationTile stationGrid 7 4 4 = Ret true /\
  isRailStationTile stationGrid 7 2 3 = Ret false /\
  isRailStationTile stationGrid 7 5 4 = Ret false /\
  (forall x y,
      outOfBounds 7 x y = false ->
      buildingAt stationGrid x y = Some empty ->
      isRailStationTile stationGrid 7 x y =
      Ret (stationAt stationGrid (x - 1) y || stationAt stationGrid x (y - 1)
           || stationAt stationGrid (x - 1) (y - 1))).
Proof.
  apply (isRailStationTile_footprint stationGrid 7);
    solve [reflexivity | lia].
Defined.

(** C4 (as the code has it). The overlay oracle and the base oracle are the
    same function: both test a neighbour with [isRailStationTile], which
    accepts the marker tile as well as the [empty] tiles of the footprint,
    so they agree on every grid and coordinate. *)
Theorem getAdjacentRailForOverlay_agrees (grid : Grid) (gridSize x y : Z) :
  getAdjacentRailForOverlay grid gridSize x y =
  getAdjacentRail grid gridSize x y.
Proof. reflexivity. Qed.

(** C4 as stated fails: no grid and coordinate tell the two oracles apart;
    on [stationGrid] the tile (2,3), whose south neighbour (3,3) has
    building type [rail_station], gets the same connections from both. *)
Lemma overlay_oracle_never_differs :
  ~ (exists grid gridSize x y,
        getAdjacentRailForOverlay grid gridSize x y <>
        getAdjacentRail grid gridSize x y) /\
  getAdjacentRailForOverlay stationGrid 7 2 3 =
    Ret (mkConn false false true false) /\
  getAdjacentRail stationGrid 7 2 3 = Ret (mkConn false false true false).
Proof.
  split; [|split; reflexivity].
  intros (grid & gridSize & x & y & H). apply H.
  unfold getAdjacentRailForOverlay, getAdjacentRail, hasRailAtPosition.
  reflexivity.
Qed.

End OracleFacts.

(** ** Train movement *)

Module TrainFacts.
Import Rail Trains Scenarios OracleFacts.

Local Open Scope Q_scope.

Lemma Qlt_bool_iff (a b : Q) : Qlt_bool a b = true <-> a < b.
Proof.
  unfold Qlt_bool. rewrite negb_true_iff. split.
  - intros H. apply Qnot_le_lt. intros Hle.
    apply Qle_bool_iff in Hle. congruence.
  - intros H. destruct (Qle_bool b a) eqn:E; [|reflexivity].
    apply Qle_bool_iff in E. exfalso. apply (Qlt_not_le _ _ H E).
Qed.

Lemma Qle_bool_false (a b : Q) : Qle_bool a b = false <-> b < a.
Proof.
  rewrite <- Qlt_bool_iff. unfold Qlt_bool. rewrite negb_true_iff. tauto.
Qed.

(** [Math.max(0, Math.min(0.99, p))] lies between 0 and 0.99. *)
Lemma clamp_bounds (p : Q) :
  0 <= Qmax 0 (Qmin (99 # 100) p) /\ Qmax 0 (Qmin (99 # 100) p) <= 99 # 100.
Proof.
  split.
  - apply Q.le_max_l.
  - apply Q.max_lub.
    + discriminate.
    + apply Q.le_min_l.
Qed.

(** *** The walk back along the path history *)

Lemma coordAt_defined (l : list Coord) (i : Z) :
  (0 <= i < Z.of_nat (List.length l))%Z -> exists c, coordAt l i = Ret c.
Proof.
  intros H. unfold coordAt. destruct (idx_Some l i H) as [c Hc].
  rewrite Hc. eauto.
Qed.

(** With as much fuel as the path index the walk returns. *)
Lemma walkBack_returns (fuel : nat) (train : Train) (s : Follow) :
  (pathIdx s <= Z.of_nat fuel)%Z -> exists s', walkBack fuel train s = Ret s'.
Proof.
  revert s. induction fuel as [|fuel IH]; intros s Hle.
  - simpl. destruct (Z.gtb_spec (pathIdx s) 0); [lia|].
    rewrite andb_false_r. eauto.
  - simpl.
    destruct (Qlt_bool (carriageProgress s) 0 && (pathIdx s >? 0)%Z) eqn:C;
      [|eauto].
    destruct ((pathIdx s - 1 >=? 0)%Z
              && (pathIdx s - 1 <? Z.of_nat (List.length (path train)))%Z)
      eqn:R.
    + apply andb_true_iff in R. destruct R as [R1 R2].
      rewrite Z.geb_leb in R1. apply Z.leb_le in R1. apply Z.ltb_lt in R2.
      destruct (coordAt_defined (path train) (pathIdx s - 1)) as [c Hc];
        [lia|].
      rewrite Hc. simpl.
      destruct (Z.ltb_spec (pathIdx s - 1 + 1)
                           (Z.of_nat (List.length (path train)))) as [L|L].
      * destruct (coordAt_defined (path train) (pathIdx s - 1 + 1))
          as [c' Hc']; [lia|].
        rewrite Hc'. simpl.
        destruct (getDirectionToTile (fst c) (snd c) (fst c') (snd c'));
          simpl; apply IH; simpl; lia.
      * simpl. apply IH. simpl. lia.
    + apply IH. simpl. lia.
Qed.

(** *** One carriage *)

Lemma followCarriage_locomotive (train : Train) (c : TrainCarriage) :
  followCarriage train 0 c =
  Ret (mkCarriage (carType c) (carColor c) (tileX train) (tileY train)
                  (progress train) (direction train)).
Proof. reflexivity. Qed.

Lemma followCarriage_bounds (train : Train) (i : Z) (c c' : TrainCarriage) :
  i <> 0%Z -> followCarriage train i c = Ret c' ->
  0 <= carProgress c' /\ carProgress c' <= 99 # 100.
Proof.
  intros Hi H. unfold followCarriage in H.
  destruct (Z.eqb_spec i 0); [contradiction|].
  apply bind_Ret_inv in H. destruct H as (s & _ & H).
  apply bind_Ret_inv in H. destruct H as (s' & _ & H).
  injection H as <-. simpl. apply clamp_bounds.
Qed.

Lemma followCarriage_returns (train : Train) (i : Z) (c : TrainCarriage) :
  path train <> [] -> exists c', followCarriage train i c = Ret c'.
Proof.
  intros Hp. unfold followCarriage. destruct (i =? 0)%Z; [eauto|].
  destruct (walkBack_returns (Z.to_nat (pathIndex train)) train
              (mkFollow (tileX train) (tileY train)
                 (progress train - inject_Z i * CARRIAGE_SPACING)
                 (direction train) (pathIndex train) false)) as [s Hs].
  { simpl. lia. }
  rewrite Hs. simpl.
  destruct (negb (foundValidPosition s) && Qlt_bool (carriageProgress s) 0).
  - destruct (coordAt_defined (path train) 0) as [c0 Hc0].
    { destruct (path train); [contradiction|]. simpl. lia. }
    rewrite Hc0. simpl. eauto.
  - simpl. eauto.
Qed.

(** *** The carriage loop *)

Lemma followCarriages_spec (train : Train) :
  forall (cs cs' : list TrainCarriage) (i : Z),
    (0 <= i)%Z -> followCarriages train i cs = Ret cs' ->
    List.length cs' = List.length cs /\
    forall (k : nat) (c' : TrainCarriage),
      nth_error cs' k = Some c' ->
      ((i + Z.of_nat k = 0)%Z -> carProgress c' = progress train) /\
      ((i + Z.of_nat k <> 0)%Z ->
       0 <= carProgress c' /\ carProgress c' <= 99 # 100).
Proof.
  induction cs as [|c cs IH]; intros cs' i Hi H; simpl in H.
  - injection H as <-. split; [reflexivity|].
    intros [|k] c' Hk; discriminate.
  - apply bind_Ret_inv in H. destruct H as (c1 & Hc1 & H).
    apply bind_Ret_inv in H. destruct H as (rest & Hrest & H).
    injection H as <-.
    destruct (IH rest (i + 1)%Z ltac:(lia) Hrest) as [Hlen Hall].
    split; [simpl; congruence|].
    intros [|k] c' Hk; simpl in Hk.
    + injection Hk as <-. split.
      * intros H0. assert (i = 0%Z) by lia. subst i.
        rewrite followCarriage_locomotive in Hc1. injection Hc1 as <-.
        reflexivity.
      * intros Hne. apply (followCarriage_bounds train i c c1); [lia|auto].
    + destruct (Hall k c' Hk) as [_ Hb]. split; [lia|].
      intros _. apply Hb. lia.
Qed.

Lemma followCarriages_returns (train : Train) :
  path train <> [] ->
  forall (cs : list TrainCarriage) (i : Z),
    exists cs', followCarriages train i cs = Ret cs'.
Proof.
  intros Hp. induction cs as [|c cs IH]; intros i; simpl; [eauto|].
  destruct (followCarriage_returns train i c Hp) as [c' ->].
  destruct (IH (i + 1)%Z) as [rest ->]. simpl. eauto.
Qed.

(** The carriage step rewrites the carriages and nothing else. *)
Lemma updateCarriagePositions_frame (train train' : Train) :
  updateCarriagePositions train = Ret train' ->
  exists cs, train' = setCarriages train cs.
Proof.
  unfold updateCarriagePositions. intros H.
  apply bind_Ret_inv in H. destruct H as (cs & _ & H).
  injection H as <-. eauto.
Qed.

Lemma updateCarriagePositions_returns (train : Train) :
  path train <> [] -> exists train', updateCarriagePositions train = Ret train'.
Proof.
  intros Hp. unfold updateCarriagePositions.
  destruct (followCarriages_returns train Hp (carriages train) 0%Z)
    as [cs ->].
  simpl. eauto.
Qed.

(** C5 (as the code has it). After the carriage-follow step every carriage
    behind the locomotive has its stored progress within [0, 0.99]; the
    locomotive at index 0 is not clamped, it takes the lead progress of the
    train as it is.  The step returns whenever the path history is not
    empty. *)
Theorem carriage_progress_after_follow (train : Train) :
  (forall train',
      updateCarriagePositions train = Ret train' ->
      List.length (carriages train') = List.length (carriages train) /\
      forall (k : nat) (c : TrainCarriage),
        nth_error (carriages train') k = Some c ->
        (k = 0%nat -> carProgress c = progress train) /\
        (k <> 0%nat -> 0 <= carProgress c /\ carProgress c <= 99 # 100)) /\
  (path train <> [] ->
   exists train', updateCarriagePositions train = Ret train').
Proof.
  split.
  - intros train' H. unfold updateCarriagePositions in H.
    apply bind_Ret_inv in H. destruct H as (cs & Hcs & H).
    injection H as <-. simpl.
    destruct (followCarriages_spec train (carriages train) cs 0%Z
                ltac:(lia) Hcs) as [Hlen Hall].
    split; [exact Hlen|].
    intros k c Hk. destruct (Hall k c Hk) as [H0 H1].
    split; intros Hk'.
    + apply H0. lia.
    + apply H1. lia.
  - apply updateCarriagePositions_returns.
Qed.

Lemma carriage_progress_after_follow_witness :
  (forall train',
      updateCarriagePositions bounceTrain = Ret train' ->
      List.length (carriages train') = List.length (carriages bounceTrain) /\
      forall (k : nat) (c : TrainCarriage),
        nth_error (carriages train') k = Some c ->
        (k = 0%nat -> carProgress c = progress bounceTrain) /\
        (k <> 0%nat -> 0 <= carProgress c /\ carProgress c <= 99 # 100)) /\
  (exists train', updateCarriagePositions bounceTrain = Ret train').
Proof.
  destruct (carriage_progress_after_follow bounceTrain) as [H1 H2].
  split; [exact H1|]. apply H2. discriminate.
Defined.

(** C5 as stated fails for the locomotive: a two-carriage train whose lead
    progress is 0.995 leaves the step with 0.995 stored on carriage 0,
    above 0.99. *)
Lemma locomotive_progress_above_bound :
  exists train' c,
    (2 <= List.length (carriages lateTrain) <= 10)%nat /\
    updateCarriagePositions lateTrain = Ret train' /\
    nth_error (carriages train') 0 = Some c /\
    ~ (0 <= carProgress c /\ carProgress c <= 99 # 100).
Proof.
  eexists. eexists. split; [simpl; lia|]. split; [reflexivity|].
  split; [reflexivity|]. simpl. intros [_ H]. revert H. apply Qlt_not_le.
  reflexivity.
Qed.

(** *** Calls that involve no bounded loop never run out of fuel *)

Lemma fuelSafe_Ret {A : Type} (a : A) : fuelSafe (Ret a).
Proof. discriminate. Qed.

Lemma fuelSafe_TypeError {A : Type} : fuelSafe (@TypeError A).
Proof. discriminate. Qed.

Lemma fuelSafe_bind {A B : Type} (m : Res A) (k : A -> Res B) :
  fuelSafe m -> (forall a, fuelSafe (k a)) -> fuelSafe (bind m k).
Proof.
  unfold fuelSafe. intros Hm Hk. destruct m; simpl; auto. discriminate.
Qed.

Lemma fuelSafe_if {A : Type} (b : bool) (m1 m2 : Res A) :
  fuelSafe m1 -> fuelSafe m2 -> fuelSafe (if b then m1 else m2).
Proof. destruct b; auto. Qed.

Lemma fuelSafe_tileAt grid x y : fuelSafe (tileAt grid x y).
Proof.
  unfold tileAt. destruct (idx grid y) as [row|]; [|discriminate].
  destruct (idx row x); discriminate.
Qed.

Lemma fuelSafe_stationMarkerAt grid x y : fuelSafe (stationMarkerAt grid x y).
Proof.
  unfold stationMarkerAt. destruct (idx grid y) as [row|]; [|discriminate].
  destruct (idx row x); discriminate.
Qed.

Ltac fuel_safe :=
  repeat first
    [ apply fuelSafe_Ret
    | apply fuelSafe_TypeError
    | apply fuelSafe_tileAt
    | apply fuelSafe_stationMarkerAt
    | assumption
    | apply fuelSafe_bind; [|intros ?]
    | apply fuelSafe_if
    | match goal with
      | |- fuelSafe (match ?x with _ => _ end) => destruct x
      end ].

Lemma fuelSafe_isRailTile grid gridSize x y :
  fuelSafe (isRailTile grid gridSize x y).
Proof. unfold isRailTile. fuel_safe. Qed.

Lemma fuelSafe_isRailStationTile grid gridSize x y :
  fuelSafe (isRailStationTile grid gridSize x y).
Proof. unfold isRailStationTile. fuel_safe. Qed.

Lemma fuelSafe_hasRailAtPosition grid gridSize x y :
  fuelSafe (hasRailAtPosition grid gridSize x y).
Proof.
  unfold hasRailAtPosition.
  pose proof (fuelSafe_isRailStationTile grid gridSize x y). fuel_safe.
Qed.

Lemma fuelSafe_railOrStation grid gridSize x y :
  fuelSafe (railOrStation grid gridSize x y).
Proof.
  unfold railOrStation.
  pose proof (fuelSafe_isRailTile grid gridSize x y).
  pose proof (fuelSafe_isRailStationTile grid gridSize x y). fuel_safe.
Qed.

Lemma fuelSafe_getAdjacentRail grid gridSize x y :
  fuelSafe (getAdjacentRail grid gridSize x y).
Proof.
  unfold getAdjacentRail.
  repeat (apply fuelSafe_bind;
          [apply fuelSafe_hasRailAtPosition|intros ?]).
  apply fuelSafe_Ret.
Qed.

Lemma fuelSafe_getRailDirectionOptions grid gridSize x y :
  fuelSafe (getRailDirectionOptions grid gridSize x y).
Proof.
  unfold getRailDirectionOptions.
  repeat (apply fuelSafe_bind;
          [apply fuelSafe_hasRailAtPosition|intros ?]).
  apply fuelSafe_Ret.
Qed.

Lemma fuelSafe_pickNextDirection d grid gridSize x y :
  fuelSafe (pickNextDirection d grid gridSize x y).
Proof.
  unfold pickNextDirection.
  apply fuelSafe_bind; [apply fuelSafe_getRailDirectionOptions|intros options].
  apply fuelSafe_if; [apply fuelSafe_Ret|].
  apply fuelSafe_bind; [apply fuelSafe_getAdjacentRail|intros c].
  cbv zeta. apply fuelSafe_if; [apply fuelSafe_Ret|].
  destruct (getTrackType c); fuel_safe.
Qed.

Lemma fuelSafe_walkBack (fuel : nat) (train : Train) (s : Follow) :
  (pathIdx s <= Z.of_nat fuel)%Z -> fuelSafe (walkBack fuel train s).
Proof.
  intros H. destruct (walkBack_returns fuel train s H) as [s' ->].
  discriminate.
Qed.

Lemma fuelSafe_coordAt l i : fuelSafe (coordAt l i).
Proof. unfold coordAt. destruct (idx l i); discriminate. Qed.

Lemma fuelSafe_updateCarriagePositions (train : Train) :
  fuelSafe (updateCarriagePositions train).
Proof.
  unfold updateCarriagePositions.
  apply fuelSafe_bind; [|intros ?; apply fuelSafe_Ret].
  generalize 0%Z. induction (carriages train) as [|c cs IH]; intros i; simpl.
  - apply fuelSafe_Ret.
  - apply fuelSafe_bind.
    + unfold followCarriage. apply fuelSafe_if; [apply fuelSafe_Ret|].
      apply fuelSafe_bind.
      * apply fuelSafe_walkBack. simpl. lia.
      * intros s. pose proof (fuelSafe_coordAt (path train) 0). fuel_safe.
    + intros c'. apply fuelSafe_bind; [apply IH|intros ?; apply fuelSafe_Ret].
Qed.

(** *** The tile-crossing loop *)

(** What the loop body leaves of the progress when it moves on: the
    station, heading and path updates do not touch it. *)
Lemma moveLoop_step (fuel : nat) grid gridSize (train : Train) :
  Qle_bool 1 (progress train) = true ->
  moveLoop (S fuel) grid gridSize train =
  (let newTileX := (tileX train + fst (step (direction train)))%Z in
   let newTileY := (tileY train + snd (step (direction train)))%Z in
   valid <- railOrStation grid gridSize newTileX newTileY ;;
   if negb valid then
     altDir <- pickNextDirection (direction train) grid gridSize
                 (tileX train) (tileY train) ;;
     match altDir with
     | None =>
         Ret (setProgress
                (setDirection train (OPPOSITE_DIRECTION (direction train)))
                (1 # 2))
     | Some d => Ret (setProgress (setDirection train d) (1 # 10))
     end
   else
     s <- isRailStationTile grid gridSize newTileX newTileY ;;
     nextDir <- pickNextDirection (direction train) grid gridSize
                  newTileX newTileY ;;
     exists_next <-
       Ret (let train := setTile train newTileX newTileY in
            let train := setProgress train (progress train - 1) in
            let train :=
              if s && TrainType_eqb (trainType train) passengerTrain
              then setStationWaitTimer (setAtStation train true)
                                       STATION_STOP_DURATION
              else train in
            let train :=
              match nextDir with
              | Some d => setDirection train d
              | None => train
              end in
            let train :=
              setPath train (path train ++ [(newTileX, newTileY)])
                      (pathIndex train + 1) in
            if (Z.of_nat (List.length (path train)) >? 80)%Z
            then setPath train (tl (path train)) (pathIndex train - 1)
            else train) ;;
     moveLoop fuel grid gridSize exists_next).
Proof.
  intros H. simpl. rewrite H. cbv zeta.
  destruct (railOrStation grid gridSize _ _) as [valid| |]; simpl; auto.
  destruct valid; simpl; auto.
  destruct (isRailStationTile grid gridSize _ _) as [s| |]; simpl; auto.
  destruct (s && TrainType_eqb (trainType train) passengerTrain); simpl;
    destruct (pickNextDirection _ _ _ _ _) as [nd| |]; simpl; auto.
Qed.

Lemma moveLoop_exit (fuel : nat) grid gridSize (train : Train) :
  Qle_bool 1 (progress train) = false ->
  moveLoop fuel grid gridSize train = Ret train.
Proof. intros H. destruct fuel; simpl; rewrite H; reflexivity. Qed.

(** The loop leaves a non-negative progress within [0, 1). *)
Lemma moveLoop_progress grid gridSize :
  forall (fuel : nat) (train train' : Train),
    0 <= progress train ->
    moveLoop fuel grid gridSize train = Ret train' ->
    0 <= progress train' /\ progress train' < 1.
Proof.
  induction fuel as [|fuel IH]; intros train train' H0 H.
  - simpl in H. destruct (Qle_bool 1 (progress train)) eqn:E; [discriminate|].
    injection H as <-. apply Qle_bool_false in E. auto.
  - destruct (Qle_bool 1 (progress train)) eqn:E.
    + rewrite (moveLoop_step fuel grid gridSize train E) in H.
      cbv zeta in H.
      apply bind_Ret_inv in H. destruct H as (valid & _ & H).
      destruct valid; simpl in H.
      * apply bind_Ret_inv in H. destruct H as (s & _ & H).
        apply bind_Ret_inv in H. destruct H as (nd & _ & H).
        simpl in H. apply IH in H; [exact H|].
        apply Qle_bool_iff in E.
        assert (P : 0 <= progress train - 1) by lra.
        destruct (s && TrainType_eqb (trainType train) passengerTrain);
          destruct nd; simpl;
          match goal with
          | |- context [if ?c then _ else _] => destruct c
          end; simpl; exact P.
      * apply bind_Ret_inv in H. destruct H as (alt & _ & H).
        destruct alt; injection H as <-; simpl; split;
          solve [discriminate | reflexivity].
    + rewrite moveLoop_exit in H by assumption. injection H as <-.
      apply Qle_bool_false in E. auto.
Qed.

(** The fuel [moveFuel] hands out is enough. *)
Lemma moveLoop_fuelSafe grid gridSize :
  forall (fuel : nat) (train : Train),
    progress train < inject_Z (Z.of_nat fuel) + 1 ->
    fuelSafe (moveLoop fuel grid gridSize train).
Proof.
  induction fuel as [|fuel IH]; intros train Hlt.
  - simpl. destruct (Qle_bool 1 (progress train)) eqn:E; [|apply fuelSafe_Ret].
    apply Qle_bool_iff in E. change (inject_Z (Z.of_nat 0)) with 0 in Hlt.
    exfalso. lra.
  - destruct (Qle_bool 1 (progress train)) eqn:E.
    + rewrite (moveLoop_step fuel grid gridSize train E). cbv zeta.
      apply fuelSafe_bind; [apply fuelSafe_railOrStation|intros valid].
      destruct valid; simpl.
      * apply fuelSafe_bind; [apply fuelSafe_isRailStationTile|intros s].
        apply fuelSafe_bind; [apply fuelSafe_pickNextDirection|intros nd].
        simpl. apply IH.
        assert (P : progress train - 1 < inject_Z (Z.of_nat fuel) + 1).
        { rewrite Nat2Z.inj_succ in Hlt. unfold Z.succ in Hlt.
          rewrite inject_Z_plus in Hlt.
          change (inject_Z 1) with 1 in Hlt. lra. }
        destruct (s && TrainType_eqb (trainType train) passengerTrain);
          destruct nd; simpl;
          match goal with
          | |- context [if ?c then _ else _] => destruct c
          end; simpl; exact P.
      * apply fuelSafe_bind; [apply fuelSafe_pickNextDirection|intros alt].
        destruct alt; apply fuelSafe_Ret.
    + rewrite moveLoop_exit by assumption. apply fuelSafe_Ret.
Qed.

Lemma moveFuel_enough (p : Q) : p < inject_Z (Z.of_nat (moveFuel p)) + 1.
Proof.
  unfold moveFuel. pose proof (Qlt_floor p) as H.
  destruct (Z_le_gt_dec 0 (Qfloor p)) as [Hf|Hf].
  - rewrite Z2Nat.id by assumption. rewrite inject_Z_plus in H. exact H.
  - rewrite inject_Z_plus in H. change (inject_Z 1) with 1 in H.
    assert (L : inject_Z (Qfloor p) <= inject_Z (-1)).
    { rewrite <- Zle_Qle. lia. }
    change (inject_Z (-1)) with (- (1)) in L.
    replace (Z.to_nat (Qfloor p)) with 0%nat by lia.
    change (inject_Z (Z.of_nat 0)) with 0. lra.
Qed.

(** [updateTrain] never exhausts the bounds given to its loops. *)
Lemma updateTrain_fuelSafe (train : Train) (delta speedMultiplier : Q)
  grid gridSize :
  fuelSafe (updateTrain train delta speedMultiplier grid gridSize).
Proof.
  unfold updateTrain. cbv zeta.
  apply fuelSafe_if; [apply fuelSafe_Ret|].
  apply fuelSafe_if; [apply fuelSafe_Ret|].
  apply fuelSafe_bind; [apply fuelSafe_railOrStation|intros valid].
  apply fuelSafe_if; [apply fuelSafe_Ret|].
  apply fuelSafe_bind.
  - apply moveLoop_fuelSafe. apply moveFuel_enough.
  - intros t1. apply fuelSafe_bind;
      [apply fuelSafe_updateCarriagePositions|intros ?; apply fuelSafe_Ret].
Qed.

(** C6. A call of [updateTrain] on a train whose lead progress is in [0,1),
    with non-negative delta, speed multiplier and speed, that returns
    [true] leaves the lead progress in [0,1) again; no call exhausts the
    bound of the tile-crossing loop. *)
Theorem lead_progress_invariant (train train' : Train)
  (delta speedMultiplier : Q) (grid : Grid) (gridSize : Z) :
  0 <= progress train -> progress train < 1 ->
  0 <= delta -> 0 <= speedMultiplier -> 0 <= speed train ->
  updateTrain train delta speedMultiplier grid gridSize = Ret (true, train') ->
  (0 <= progress train' /\ progress train' < 1) /\
  updateTrain train delta speedMultiplier grid gridSize <> OutOfFuel.
Proof.
  intros P0 P1 Hd Hm Hs H. split; [|apply updateTrain_fuelSafe].
  unfold updateTrain in H. cbv zeta in H.
  destruct (Qlt_bool _ _); [discriminate|]. simpl in H.
  destruct (atStation train).
  - injection H as <-.
    destruct (Qle_bool _ _); simpl; auto.
  - apply bind_Ret_inv in H. destruct H as (valid & _ & H).
    destruct valid; simpl in H; [|discriminate].
    apply bind_Ret_inv in H. destruct H as (t1 & Hloop & H).
    apply bind_Ret_inv in H. destruct H as (t2 & Hcar & H).
    injection H as <-.
    apply updateCarriagePositions_frame in Hcar. destruct Hcar as [cs ->].
    simpl. apply moveLoop_progress in Hloop; [exact Hloop|].
    simpl. assert (0 <= speed train * delta * speedMultiplier).
    { apply Qmult_le_0_compat; [apply Qmult_le_0_compat|]; assumption. }
    lra.
Qed.

Lemma lead_progress_invariant_witness :
  exists train',
    updateTrain bounceTrain 1 1 terminusGrid 3 = Ret (true, train') /\
    (0 <= progress train' /\ progress train' < 1) /\
    updateTrain bounceTrain 1 1 terminusGrid 3 <> OutOfFuel.
Proof.
  eexists. split; [reflexivity|].
  eapply (lead_progress_invariant bounceTrain _ 1 1 terminusGrid 3);
    solve [reflexivity | discriminate].
Defined.

(** C9. A tick of a train that waits at a station and has not outlived
    [maxAge] returns [true], takes delta times the speed multiplier off the
    dwell timer (and adds it to the age), clears the at-station flag exactly
    when the timer is then at or below 0, and leaves the lead tile, heading,
    lead progress, path history and every carriage as they were. *)
Theorem station_dwell_tick (train : Train) (delta speedMultiplier : Q)
  (grid : Grid) (gridSize : Z) :
  atStation train = true ->
  age train + delta * speedMultiplier <= maxAge train ->
  exists train',
    updateTrain train delta speedMultiplier grid gridSize = Ret (true, train') /\
    age train' = age train + delta * speedMultiplier /\
    stationWaitTimer train' = stationWaitTimer train - delta * speedMultiplier /\
    (stationWaitTimer train' <= 0 -> atStation train' = false) /\
    (0 < stationWaitTimer train' -> atStation train' = true) /\
    tileX train' = tileX train /\ tileY train' = tileY train /\
    direction train' = direction train /\
    progress train' = progress train /\
    path train' = path train /\ pathIndex train' = pathIndex train /\
    carriages train' = carriages train /\
    trainId train' = trainId train /\ trainType train' = trainType train /\
    speed train' = speed train /\ maxAge train' = maxAge train /\
    color train' = color train.
Proof.
  intros Hst Hage. unfold updateTrain. cbv zeta.
  assert (E : Qlt_bool (maxAge (setAge train (age train + delta * speedMultiplier)))
                       (age (setAge train (age train + delta * speedMultiplier)))
              = false).
  { simpl. unfold Qlt_bool. apply negb_false_iff. apply Qle_bool_iff.
    exact Hage. }
  rewrite E. simpl. rewrite Hst.
  destruct (Qle_bool (stationWaitTimer train - delta * speedMultiplier) 0)
    eqn:T.
  - eexists. split; [reflexivity|]. simpl.
    repeat split; auto.
    intros Hpos. apply Qle_bool_iff in T. exfalso.
    apply (Qlt_not_le _ _ Hpos T).
  - eexists. split; [reflexivity|]. simpl.
    repeat split; auto.
    intros Hle. apply Qle_bool_iff in Hle. congruence.
Qed.

Lemma station_dwell_tick_witness :
  exists train',
    updateTrain dwellingTrain (1 # 2) 1 terminusGrid 3 = Ret (true, train') /\
    stationWaitTimer train' = 1 - (1 # 2) * 1 /\
    atStation train' = true /\
    tileX train' = 1%Z /\ tileY train' = 1%Z /\
    progress train' = 9 # 10 /\
    carriages train' = carriages dwellingTrain.
Proof.
  destruct (station_dwell_tick dwellingTrain (1 # 2) 1 terminusGrid 3)
    as (t' & Hrun & _ & Htimer & _ & Hflag & Hx & Hy & _ & Hp & _ & _ & Hc & _).
  - reflexivity.
  - discriminate.
  - exists t'. repeat split; auto.
    apply Hflag. rewrite Htimer. reflexivity.
Defined.

End TrainFacts.

(** ** Dead ends *)

Module DeadEndFacts.
Import Rail Trains Scenarios OracleFacts TrainFacts.

Local Open Scope Q_scope.

Lemma getRailDirectionOptions_connections grid gridSize x y c :
  getAdjacentRail grid gridSize x y = Ret c ->
  getRailDirectionOptions grid gridSize x y = Ret (optionsOf c).
Proof.
  unfold getAdjacentRail, getRailDirectionOptions. intros H.
  apply bind_Ret_inv in H. destruct H as (n & -> & H).
  apply bind_Ret_inv in H. destruct H as (e & -> & H).
  apply bind_Ret_inv in H. destruct H as (s & -> & H).
  apply bind_Ret_inv in H. destruct H as (w & -> & H).
  injection H as <-. destruct n, e, s, w; reflexivity.
Qed.

(** On a tile with one connection the heading picked is the reverse of the
    incoming one, whatever the connection. *)
Lemma pickNextDirection_terminus d grid gridSize x y c :
  getAdjacentRail grid gridSize x y = Ret c ->
  connectionCount c = 1%nat ->
  pickNextDirection d grid gridSize x y = Ret (Some (OPPOSITE_DIRECTION d)).
Proof.
  intros Hc Hn. unfold pickNextDirection.
  rewrite (getRailDirectionOptions_connections _ _ _ _ _ Hc), Hc. simpl.
  destruct c as [[] [] [] []]; try discriminate Hn; destruct d; reflexivity.
Qed.

(** On a tile with no connection no heading is picked. *)
Lemma pickNextDirection_isolated d grid gridSize x y c :
  getAdjacentRail grid gridSize x y = Ret c ->
  connectionCount c = 0%nat ->
  pickNextDirection d grid gridSize x y = Ret None.
Proof.
  intros Hc Hn. unfold pickNextDirection.
  rewrite (getRailDirectionOptions_connections _ _ _ _ _ Hc).
  destruct c as [[] [] [] []]; try discriminate Hn. reflexivity.
Qed.

(** A neighbour the connection oracle counts is one the train may enter. *)
Lemma hasRailAtPosition_railOrStation grid gridSize x y :
  hasRailAtPosition grid gridSize x y = Ret true ->
  railOrStation grid gridSize x y = Ret true.
Proof.
  unfold hasRailAtPosition, railOrStation, isRailTile, railOrOverlay.
  destruct (outOfBounds gridSize x y) eqn:B; [discriminate|].
  destruct (tileAt grid x y) as [t| |] eqn:T; try discriminate. simpl.
  destruct (typeIs t rail); simpl; [reflexivity|].
  destruct (isRailStationTile grid gridSize x y) as [s| |]; simpl;
    try discriminate.
  destruct s; simpl.
  - destruct (typeIs t road && hasRailOverlay t); reflexivity.
  - intros H. injection H as ->. reflexivity.
Qed.

(** A [terminus_n] tile has its connection to the south: a train heading
    south there has track ahead. *)
Lemma terminus_n_track_south grid gridSize x y c :
  getAdjacentRail grid gridSize x y = Ret c ->
  getTrackType c = terminus_n ->
  railOrStation grid gridSize (x + fst (step dSouth)) (y + snd (step dSouth))
  = Ret true.
Proof.
  unfold getAdjacentRail. intros H Ht.
  apply bind_Ret_inv in H. destruct H as (n & _ & H).
  apply bind_Ret_inv in H. destruct H as (e & _ & H).
  apply bind_Ret_inv in H. destruct H as (s & Hs & H).
  apply bind_Ret_inv in H. destruct H as (w & _ & H).
  injection H as <-. simpl. rewrite Z.add_0_r.
  apply hasRailAtPosition_railOrStation.
  destruct n, e, s, w; try discriminate Ht. exact Hs.
Qed.

(** The first round of the tile-crossing loop when the tile ahead carries
    no track. *)
Lemma moveLoop_blocked grid gridSize (train : Train) (alt : option CarDirection) :
  1 <= progress train ->
  railOrStation grid gridSize
    (tileX train + fst (step (direction train)))
    (tileY train + snd (step (direction train))) = Ret false ->
  pickNextDirection (direction train) grid gridSize (tileX train) (tileY train)
  = Ret alt ->
  moveLoop (moveFuel (progress train)) grid gridSize train =
  Ret (match alt with
       | None => setProgress
                   (setDirection train (OPPOSITE_DIRECTION (direction train)))
                   (1 # 2)
       | Some d => setProgress (setDirection train d) (1 # 10)
       end).
Proof.
  intros Hp Hnext Halt.
  assert (F : exists n, moveFuel (progress train) = S n).
  { unfold moveFuel.
    assert (1 <= Qfloor (progress train))%Z.
    { apply (Qfloor_resp_le 1 (progress train)) in Hp. exact Hp. }
    exists (Z.to_nat (Qfloor (progress train) - 1)). lia. }
  destruct F as [n ->].
  rewrite moveLoop_step by (apply Qle_bool_iff; exact Hp).
  cbv zeta. rewrite Hnext. simpl. rewrite Halt. simpl.
  destruct alt; reflexivity.
Qed.

(** On a tile with a connection a heading is picked. *)
Lemma pickNextDirection_connected d grid gridSize x y c :
  getAdjacentRail grid gridSize x y = Ret c ->
  connectionCount c <> 0%nat ->
  exists d', pickNextDirection d grid gridSize x y = Ret (Some d').
Proof.
  intros Hc Hn. unfold pickNextDirection.
  rewrite (getRailDirectionOptions_connections _ _ _ _ _ Hc), Hc.
  destruct c as [[] [] [] []]; try (exfalso; apply Hn; reflexivity);
    destruct d; simpl; eauto.
Qed.

(** C3 (as the code has it). A train whose heading points off the rail is
    not removed when it reaches the tile boundary: the tick returns [true]
    and the lead stays on its tile.  On a terminus the heading is reversed
    and the progress set to 0.1.  On every tile with a connection, one or
    more, the heading is the one [pickNextDirection] returns and the
    progress is 0.1; the reversal in place with progress 0.5 is what a
    tile with no connection at all gives, and only such a tile. *)
Theorem terminus_reversal (train : Train) (delta speedMultiplier : Q)
  (grid : Grid) (gridSize : Z) (c : RailConnection) :
  atStation train = false ->
  age train + delta * speedMultiplier <= maxAge train ->
  railOrStation grid gridSize (tileX train) (tileY train) = Ret true ->
  getAdjacentRail grid gridSize (tileX train) (tileY train) = Ret c ->
  railOrStation grid gridSize
    (tileX train + fst (step (direction train)))
    (tileY train + snd (step (direction train))) = Ret false ->
  1 <= progress train + speed train * delta * speedMultiplier ->
  path train <> [] ->
  exists train',
    updateTrain train delta speedMultiplier grid gridSize = Ret (true, train') /\
    tileX train' = tileX train /\ tileY train' = tileY train /\
    (connectionCount c = 1%nat ->
     direction train' = OPPOSITE_DIRECTION (direction train) /\
     progress train' = 1 # 10) /\
    (connectionCount c <> 0%nat ->
     pickNextDirection (direction train) grid gridSize
                       (tileX train) (tileY train)
     = Ret (Some (direction train')) /\
     progress train' = 1 # 10) /\
    (connectionCount c = 0%nat ->
     direction train' = OPPOSITE_DIRECTION (direction train) /\
     progress train' = 1 # 2) /\
    (progress train' == 1 # 2 <-> connectionCount c = 0%nat).
Proof.
  intros Hst Hage Hcur Hc Hnext Hp Hpath.
  assert (E : Qlt_bool (maxAge (setAge train (age train + delta * speedMultiplier)))
                       (age (setAge train (age train + delta * speedMultiplier)))
              = false).
  { simpl. unfold Qlt_bool. apply negb_false_iff. apply Qle_bool_iff.
    exact Hage. }
  assert (Run : forall alt,
             pickNextDirection (direction train) grid gridSize
                               (tileX train) (tileY train) = Ret alt ->
             exists train',
               updateTrain train delta speedMultiplier grid gridSize
               = Ret (true, train') /\
               (exists cs,
                   train' = setCarriages
                     (match alt with
                      | None => setProgress
                                 (setDirection
                                    (setProgress
                                       (setAge train
                                          (age train + delta * speedMultiplier))
                                       (progress train
                                        + speed train * delta * speedMultiplier))
                                    (OPPOSITE_DIRECTION (direction train)))
                                 (1 # 2)
                      | Some d => setProgress
                                   (setDirection
                                      (setProgress
                                         (setAge train
                                            (age train + delta * speedMultiplier))
                                         (progress train
                                          + speed train * delta * speedMultiplier))
                                      d)
                                   (1 # 10)
                      end) cs)).
  { intros alt Halt. unfold updateTrain. cbv zeta. rewrite E.
    cbn [atStation setAge tileX tileY]. rewrite Hst, Hcur.
    cbn [bind negb].
    rewrite (moveLoop_blocked grid gridSize _ alt); simpl; auto.
    match goal with
    | |- context [updateCarriagePositions ?t] =>
        destruct (updateCarriagePositions_returns t) as [t2 Ht2];
        [destruct alt; exact Hpath|]
    end.
    rewrite Ht2. simpl. eexists. split; [reflexivity|].
    apply updateCarriagePositions_frame in Ht2. exact Ht2. }
  destruct (Nat.eq_dec (connectionCount c) 0) as [Hz|Hnz].
  - destruct (Run _ (pickNextDirection_isolated _ _ _ _ _ _ Hc Hz))
      as (t' & Hrun & cs & Ht').
    exists t'. split; [exact Hrun|]. rewrite Ht'. simpl.
    split; [reflexivity|]. split; [reflexivity|].
    split; [intros H1; rewrite Hz in H1; discriminate|].
    split; [intros H1; contradiction|].
    split; [auto|]. split; [intros _; exact Hz|reflexivity].
  - destruct (pickNextDirection_connected (direction train) _ _ _ _ _ Hc Hnz)
      as [d' Hd'].
    destruct (Run _ Hd') as (t' & Hrun & cs & Ht').
    exists t'. split; [exact Hrun|]. rewrite Ht'. simpl.
    split; [reflexivity|]. split; [reflexivity|].
    split; [|split; [|split; [|split]]].
    + intros H1. split; [|reflexivity].
      pose proof (pickNextDirection_terminus (direction train) _ _ _ _ _ Hc H1)
        as Ht.
      rewrite Hd' in Ht. injection Ht as ->. reflexivity.
    + intros _. split; [exact Hd'|reflexivity].
    + intros H0. contradiction.
    + intros H. discriminate H.
    + intros H0. contradiction.
Qed.

Lemma terminus_reversal_witness :
  exists train',
    updateTrain bounceTrain 1 1 terminusGrid 3 = Ret (true, train') /\
    direction train' = dNorth /\ progress train' = 1 # 10 /\
    tileX train' = 1%Z /\ tileY train' = 1%Z.
Proof.
  destruct (terminus_reversal bounceTrain 1 1 terminusGrid 3
              (mkConn true false false false))
    as (t' & Hrun & Hx & Hy & H1 & _);
    try solve [reflexivity | discriminate].
  exists t'. split; [exact Hrun|].
  destruct (H1 eq_refl) as [Hd Hpr].
  split; [exact Hd|]. split; [exact Hpr|]. split; assumption.
Defined.

(** C3 as stated fails on the progress: on [terminusGrid] the tile (1,1) is
    a terminus (its only connection is to the north), the train heads south
    where there is no track, and the tick that reaches the boundary leaves
    it heading north with progress 0.1, which is not 0.5. *)
Lemma terminus_progress_is_not_half :
  exists c train',
    getAdjacentRail terminusGrid 3 1 1 = Ret c /\
    connectionCount c = 1%nat /\ getTrackType c = terminus_s /\
    direction bounceTrain = dSouth /\
    railOrStation terminusGrid 3 2 1 = Ret false /\
    updateTrain bounceTrain 1 1 terminusGrid 3 = Ret (true, train') /\
    direction train' = dNorth /\
    ~ progress train' == 1 # 2.
Proof.
  eexists. eexists.
  split; [reflexivity|]. split; [reflexivity|]. split; [reflexivity|].
  split; [reflexivity|]. split; [reflexivity|]. split; [reflexivity|].
  split; [reflexivity|]. simpl. discriminate.
Qed.

End DeadEndFacts.

(** ** Train spawning *)

Module SpawnFacts.
Import Rail Trains Scenarios OracleFacts.

Lemma forEachM_app {S D : Type} (body : S -> D -> Res S) (l1 l2 : list D) (s : S) :
  forEachM body (l1 ++ l2) s = s' <- forEachM body l1 s ;; forEachM body l2 s'.
Proof.
  revert s. induction l1 as [|d l1 IH]; intros s; simpl; [reflexivity|].
  destruct (body s d); simpl; auto.
Qed.

Lemma idx_of_nat {A : Type} (l : list A) (i : nat) :
  idx l (Z.of_nat i) = nth_error l i.
Proof.
  unfold idx. destruct (Z.ltb_spec (Z.of_nat i) 0); [lia|].
  rewrite Nat2Z.id. reflexivity.
Qed.

(** Scanning the rest [suf] of row [y] counts its rail tiles. *)
Lemma count_row (grid : Grid) (y : nat) (row : list Tile) :
  nth_error grid y = Some row ->
  forall (suf pre : list Tile) (count : Z),
    row = pre ++ suf ->
    forEachM (countBody grid)
      (map (fun x => (x, Z.of_nat y))
           (map Z.of_nat (seq (List.length pre) (List.length suf)))) count
    = Ret (count + Z.of_nat (List.length (filter railOrOverlay suf))).
Proof.
  intros Hrow. induction suf as [|t suf IH]; intros pre count Heq; simpl.
  - f_equal. lia.
  - assert (Ht : nth_error row (List.length pre) = Some t).
    { rewrite Heq, nth_error_app2 by lia. rewrite Nat.sub_diag. reflexivity. }
    assert (T : tileAt grid (Z.of_nat (List.length pre)) (Z.of_nat y) = Ret t).
    { unfold tileAt. rewrite idx_of_nat, Hrow. cbn iota beta.
      rewrite idx_of_nat, Ht. reflexivity. }
    unfold countBody at 1. simpl fst. simpl snd. rewrite T. simpl.
    assert (Heq' : row = (pre ++ [t]) ++ suf).
    { rewrite <- app_assoc. exact Heq. }
    destruct (railOrOverlay t); simpl.
    + specialize (IH (pre ++ [t]) (count + 1) Heq').
      rewrite length_app, Nat.add_1_r in IH. simpl in IH. rewrite IH.
      f_equal. lia.
    + specialize (IH (pre ++ [t]) count Heq').
      rewrite length_app, Nat.add_1_r in IH. simpl in IH. exact IH.
Qed.

(** Scanning the rows [suf] counts the rail tiles on them. *)
Lemma count_rows (grid : Grid) (n : nat) :
  (forall row, In row grid -> List.length row = n) ->
  forall (suf pre : list (list Tile)) (count : Z),
    grid = pre ++ suf ->
    forEachM (countBody grid)
      (flat_map (fun y => map (fun x => (x, y)) (map Z.of_nat (seq 0 n)))
                (map Z.of_nat (seq (List.length pre) (List.length suf))))
      count
    = Ret (count + Z.of_nat (List.length (filter railOrOverlay (List.concat suf)))).
Proof.
  intros Hrows. induction suf as [|row suf IH]; intros pre count Heq; simpl.
  - f_equal. lia.
  - rewrite forEachM_app.
    assert (Hrow : nth_error grid (List.length pre) = Some row).
    { rewrite Heq, nth_error_app2 by lia. rewrite Nat.sub_diag. reflexivity. }
    assert (Hlen : List.length row = n).
    { apply Hrows. rewrite Heq. apply in_or_app. right. left. reflexivity. }
    pose proof (count_row grid (List.length pre) row Hrow row [] count
                          eq_refl) as R.
    simpl in R. rewrite Hlen in R. rewrite R. simpl.
    assert (Heq' : grid = (pre ++ [row]) ++ suf).
    { rewrite <- app_assoc. exact Heq. }
    specialize (IH (pre ++ [row])
                   (count + Z.of_nat (List.length (filter railOrOverlay row)))
                   Heq').
    rewrite length_app, Nat.add_1_r in IH. simpl in IH. rewrite IH.
    f_equal. rewrite filter_app, length_app. lia.
Qed.

(** On a square grid [countRailTiles] returns the number of rail tiles. *)
Lemma countRailTiles_square (grid : Grid) (gridSize : Z) :
  squareGrid grid gridSize ->
  countRailTiles grid gridSize = Ret (Z.of_nat (railTileCount grid)).
Proof.
  intros Hsq. destruct (squareGrid_rows _ _ Hsq) as (H0 & Hlen & Hrows).
  unfold countRailTiles, scanCells, range, railTileCount.
  assert (Hn : Z.to_nat gridSize = List.length grid) by lia.
  pose proof (count_rows grid (Z.to_nat gridSize)) as R.
  specialize (R ltac:(intros row Hin; specialize (Hrows row Hin); lia)).
  specialize (R grid [] 0 eq_refl). simpl in R.
  rewrite <- Hn in R. exact R.
Qed.

Lemma filter_none {A : Type} (f : A -> bool) (l : list A) :
  (forall a, In a l -> f a = false) -> filter f l = [].
Proof.
  induction l as [|a l IH]; intros H; simpl; [reflexivity|].
  rewrite (H a (or_introl eq_refl)). apply IH.
  intros b Hb. apply H. right. exact Hb.
Qed.

(** C7. [spawnTrain] returns null, draws no random number and takes no
    train id whenever [countRailTiles] finds fewer than 10 rail tiles; on a
    square grid that is whenever fewer than 10 tiles are rail tiles or road
    tiles with a rail overlay, in particular when there is none. *)
Theorem spawnTrain_needs_ten_rail_tiles (rnd : RandomSource) (grid : Grid)
  (gridSize : Z) (st : SpawnState) :
  (forall n, countRailTiles grid gridSize = Ret n ->
             n < MIN_RAIL_TILES_FOR_TRAINS ->
             spawnTrain rnd grid gridSize st = Ret (None, st)) /\
  (squareGrid grid gridSize -> (railTileCount grid < 10)%nat ->
   spawnTrain rnd grid gridSize st = Ret (None, st)) /\
  (squareGrid grid gridSize ->
   (forall row t, In row grid -> In t row -> railOrOverlay t = false) ->
   spawnTrain rnd grid gridSize st = Ret (None, st)).
Proof.
  assert (Low : forall n, countRailTiles grid gridSize = Ret n ->
                          n < MIN_RAIL_TILES_FOR_TRAINS ->
                          spawnTrain rnd grid gridSize st = Ret (None, st)).
  { intros n Hc Hn. unfold spawnTrain, bindS, liftS. rewrite Hc. simpl.
    destruct (Z.ltb_spec n MIN_RAIL_TILES_FOR_TRAINS); [reflexivity|lia]. }
  split; [exact Low|]. split.
  - intros Hsq Hn. apply (Low _ (countRailTiles_square _ _ Hsq)).
    unfold MIN_RAIL_TILES_FOR_TRAINS. lia.
  - intros Hsq Hnone. apply (Low _ (countRailTiles_square _ _ Hsq)).
    unfold MIN_RAIL_TILES_FOR_TRAINS, railTileCount.
    assert (E : filter railOrOverlay (List.concat grid) = []).
    { apply filter_none. intros t Hin.
      apply in_concat in Hin. destruct Hin as (row & Hrow & Ht).
      exact (Hnone row t Hrow Ht). }
    rewrite E. simpl. lia.
Qed.

Lemma spawnTrain_needs_ten_rail_tiles_witness :
  spawnTrain halfSource terminusGrid 3 (mkSpawnState 0 1)
  = Ret (None, mkSpawnState 0 1) /\
  spawnTrain halfSource meadowGrid 3 (mkSpawnState 0 1)
  = Ret (None, mkSpawnState 0 1).
Proof.
  split.
  - destruct (spawnTrain_needs_ten_rail_tiles halfSource terminusGrid 3
                (mkSpawnState 0 1)) as (_ & H & _).
    apply H; [reflexivity | vm_compute; lia].
  - destruct (spawnTrain_needs_ten_rail_tiles halfSource meadowGrid 3
                (mkSpawnState 0 1)) as (_ & _ & H).
    apply H; [reflexivity|].
    intros row t Hrow Ht. simpl in Hrow.
    repeat (destruct Hrow as [<- | Hrow];
            [simpl in Ht;
             repeat (destruct Ht as [<- | Ht]; [reflexivity|]);
             contradiction|]).
    contradiction.
Defined.

(** With twelve rail tiles and no station the same call makes a train:
    the refusal above is the threshold, not the only outcome. *)
Example spawnTrain_on_loop :
  exists train st',
    spawnTrain halfSource loopGrid 4 (mkSpawnState 0 1) = Ret (Some train, st')
    /\ trainId train = 1 /\ current st' = 2 /\
    List.length (carriages train) = 8%nat.
Proof. eexists. eexists. split; [vm_compute; reflexivity|]. vm_compute. auto. Qed.

End SpawnFacts.

(** ** Rail pathfinder *)

Module PathFacts.
Import Rail Trains Scenarios OracleFacts SpawnFacts.

(** C10. A query whose start and end are the same cell returns the path
    made of that cell alone, on every grid and for every coordinate, on the
    map or off it: the start entry is taken off the queue and compared with
    the goal before any tile is read. *)
Theorem findPathOnRails_same_cell (grid : Grid) (gridSize x y : Z) :
  findPathOnRails grid gridSize x y x y = Ret (Some [(x, y)]).
Proof.
  unfold findPathOnRails, bfsFuel. simpl. rewrite !Z.eqb_refl. reflexivity.
Qed.

(** *** Cells and sets of cells *)

Lemma Coord_eqb_eq (a b : Coord) : Coord_eqb a b = true <-> a = b.
Proof.
  destruct a as [ax ay], b as [bx b_y]. unfold Coord_eqb. simpl.
  rewrite andb_true_iff, !Z.eqb_eq. split.
  - intros [-> ->]. reflexivity.
  - intros H. injection H as -> ->. auto.
Qed.

Lemma visitedHas_In (visited : list Coord) (c : Coord) :
  visitedHas visited c = true <-> In c visited.
Proof.
  unfold visitedHas. rewrite existsb_exists. split.
  - intros (d & Hd & E). apply Coord_eqb_eq in E. subst. exact Hd.
  - intros H. exists c. split; [exact H|]. apply Coord_eqb_eq. reflexivity.
Qed.

Lemma In_range (n z : Z) : In z (range n) <-> 0 <= z < n.
Proof.
  unfold range. rewrite in_map_iff. split.
  - intros (k & <- & Hk). apply in_seq in Hk. lia.
  - intros H. exists (Z.to_nat z). split; [lia|]. apply in_seq. lia.
Qed.

Lemma In_scanCells (gridSize : Z) (c : Coord) :
  In c (scanCells gridSize) <-> outOfBounds gridSize (fst c) (snd c) = false.
Proof.
  rewrite outOfBounds_false. unfold scanCells. rewrite in_flat_map. split.
  - intros (y & Hy & Hc). apply in_map_iff in Hc. destruct Hc as (x & <- & Hx).
    apply In_range in Hy. apply In_range in Hx. simpl. lia.
  - intros [Hx Hy]. exists (snd c). split; [apply In_range; exact Hy|].
    apply in_map_iff. exists (fst c). split; [destruct c; reflexivity|].
    apply In_range. exact Hx.
Qed.

Lemma length_scanCells (gridSize : Z) :
  (List.length (scanCells gridSize) <= Z.to_nat (gridSize * gridSize))%nat.
Proof.
  unfold scanCells.
  assert (L : List.length (range gridSize) = Z.to_nat gridSize).
  { unfold range. rewrite length_map, length_seq. reflexivity. }
  assert (F : forall l : list Z,
             List.length
               (flat_map (fun y => map (fun x => (x, y)) (range gridSize)) l)
             = (List.length l * Z.to_nat gridSize)%nat).
  { induction l as [|y l IH]; simpl; [reflexivity|].
    rewrite length_app, length_map, L, IH. reflexivity. }
  rewrite F, L. destruct (Z_le_gt_dec 0 gridSize).
  - rewrite Z2Nat.inj_mul by assumption. lia.
  - replace (Z.to_nat gridSize) with 0%nat by lia. lia.
Qed.

(** Marking one more in-bounds cell leaves fewer unvisited ones. *)
Lemma filter_length_lt {A : Type} (f h : A -> bool) (l : list A) (x : A) :
  (forall a, f a = true -> h a = true) ->
  In x l -> h x = true -> f x = false ->
  (List.length (filter f l) < List.length (filter h l))%nat.
Proof.
  intros Himp. 
  assert (Le : forall l', (List.length (filter f l')
                           <= List.length (filter h l'))%nat).
  { induction l' as [|a l' IH]; simpl; [lia|].
    destruct (f a) eqn:Fa.
    - rewrite (Himp a Fa). simpl. lia.
    - destruct (h a); simpl; lia. }
  induction l as [|a l IH]; intros Hin Hh Hf; [contradiction|].
  simpl. destruct Hin as [->|Hin].
  - rewrite Hf, Hh. simpl. specialize (Le l). lia.
  - specialize (IH Hin Hh Hf). destruct (f a) eqn:Fa.
    + rewrite (Himp a Fa). simpl. lia.
    + destruct (h a); simpl; lia.
Qed.

Lemma unvisited_cons (gridSize : Z) (visited : list Coord) (v : Coord) :
  outOfBounds gridSize (fst v) (snd v) = false -> ~ In v visited ->
  (S (unvisited gridSize (v :: visited)) <= unvisited gridSize visited)%nat.
Proof.
  intros Hb Hv. unfold unvisited.
  apply (filter_length_lt _ _ _ v).
  - intros a Ha. apply negb_true_iff in Ha. apply negb_true_iff.
    destruct (visitedHas visited a) eqn:E; [|reflexivity].
    apply visitedHas_In in E.
    assert (In a (v :: visited)) by (right; exact E).
    apply visitedHas_In in H. congruence.
  - apply In_scanCells. exact Hb.
  - apply negb_true_iff. destruct (visitedHas visited v) eqn:E; [|reflexivity].
    apply visitedHas_In in E. contradiction.
  - apply negb_false_iff. apply visitedHas_In. left. reflexivity.
Qed.

(** *** The tests of the search on a square grid *)

Lemma isRailStationTile_defined (grid : Grid) (gridSize x y : Z) :
  squareGrid grid gridSize -> exists b, isRailStationTile grid gridSize x y = Ret b.
Proof.
  intros Hsq. destruct (outOfBounds gridSize x y) eqn:Hb.
  - unfold isRailStationTile. rewrite Hb. eauto.
  - destruct (tileAt_square _ _ x y Hsq Hb) as [t Ht].
    assert (Hty : buildingAt grid x y = Some (buildingType t)).
    { unfold buildingAt. rewrite Ht. reflexivity. }
    destruct (BuildingType_eqb (buildingType t) rail_station) eqn:E1.
    { apply BuildingType_eqb_eq in E1. rewrite E1 in Hty.
      rewrite (isRailStationTile_origin _ _ _ _ Hb Hty). eauto. }
    destruct (BuildingType_eqb (buildingType t) empty) eqn:E2.
    { apply BuildingType_eqb_eq in E2. rewrite E2 in Hty.
      rewrite (isRailStationTile_empty _ _ _ _ Hsq Hb Hty). eauto. }
    rewrite (isRailStationTile_other _ _ _ _ _ Hty); eauto.
    + intros E. rewrite E in E1. discriminate.
    + intros E. rewrite E in E2. discriminate.
Qed.

Lemma railOrStation_defined (grid : Grid) (gridSize x y : Z) :
  squareGrid grid gridSize -> exists b, railOrStation grid gridSize x y = Ret b.
Proof.
  intros Hsq. unfold railOrStation, isRailTile.
  destruct (outOfBounds gridSize x y) eqn:Hb; simpl.
  - apply isRailStationTile_defined. exact Hsq.
  - destruct (tileAt_square _ _ x y Hsq Hb) as [t ->]. simpl.
    destruct (railOrOverlay t); [eauto|].
    apply isRailStationTile_defined. exact Hsq.
Qed.

(** *** Paths *)

Lemma adjacent_direction (u : Coord) (d : Z * Z) :
  In d directions -> adjacent u (fst u + fst d, snd u + snd d).
Proof.
  unfold directions, adjacent. simpl.
  intros [<-|[<-|[<-|[<-|[]]]]]; simpl; lia.
Qed.

Lemma direction_adjacent (u v : Coord) :
  adjacent u v ->
  exists d, In d directions /\ v = (fst u + fst d, snd u + snd d).
Proof.
  destruct u as [ux uy], v as [vx vy]. unfold adjacent, directions. simpl.
  intros H.
  assert (C : (vx - ux = -1 /\ vy - uy = 0) \/ (vx - ux = 0 /\ vy - uy = -1) \/
              (vx - ux = 1 /\ vy - uy = 0) \/ (vx - ux = 0 /\ vy - uy = 1))
    by lia.
  destruct C as [[Hx Hy]|[[Hx Hy]|[[Hx Hy]|[Hx Hy]]]].
  - exists (-1, 0). split; [auto|]. simpl. f_equal; lia.
  - exists (0, -1). split; [auto|]. simpl. f_equal; lia.
  - exists (1, 0). split; [auto 6|]. simpl. f_equal; lia.
  - exists (0, 1). split; [auto 6|]. simpl. f_equal; lia.
Qed.

Lemma stepsOk_snoc (grid : Grid) (gridSize : Z) (v d : Coord) :
  forall p : list Coord,
    p <> [] -> stepsOk grid gridSize p -> adjacent (last p d) v ->
    passable grid gridSize v -> stepsOk grid gridSize (p ++ [v]).
Proof.
  induction p as [|a p IH]; intros Hne Hok Hadj Hpass; [contradiction|].
  destruct p as [|b p].
  - simpl in *. auto.
  - change (stepsOk grid gridSize (a :: b :: p ++ [v])).
    simpl in Hok. destruct Hok as (Hab & Hb & Hrest).
    simpl. split; [exact Hab|]. split; [exact Hb|].
    apply IH; auto. discriminate.
Qed.

(** A path of [n] steps is a walk of [n] steps. *)
Lemma stepsOk_walk (grid : Grid) (gridSize : Z) (start d : Coord) :
  forall (p : list Coord) (a : Coord) (n : nat),
    stepsOk grid gridSize (a :: p) -> walk grid gridSize start n a ->
    walk grid gridSize start (n + List.length p) (last (a :: p) d).
Proof.
  induction p as [|b p IH]; intros a n Hok Hw.
  - simpl. rewrite Nat.add_0_r. exact Hw.
  - simpl in Hok. destruct Hok as (Hab & Hb & Hrest).
    change (last (a :: b :: p) d) with (last (b :: p) d).
    replace (n + List.length (b :: p))%nat with (S n + List.length p)%nat
      by (simpl; lia).
    apply IH; [exact Hrest|]. eapply walk_step; eauto.
Qed.

Lemma railPath_walk (grid : Grid) (gridSize : Z) (start goal : Coord)
  (p : list Coord) :
  railPath grid gridSize start goal p ->
  walk grid gridSize start (pred (List.length p)) goal.
Proof.
  intros (Hhd & Hlast & Hok). destruct p as [|a p]; [discriminate|].
  injection Hhd as ->. rewrite <- Hlast.
  apply (stepsOk_walk grid gridSize start start p start 0 Hok).
  apply walk_here.
Qed.

(** *** The order of the paths *)

Lemma lexLt_lexLe (s t : list Z) : lexLt s t -> lexLe s t.
Proof.
  revert t. induction s as [|a s IH]; intros [|b t]; simpl; auto.
  intros [H|[H1 H2]]; [left; exact H|right; split; [exact H1|apply IH; exact H2]].
Qed.

Lemma lexLt_app (s t r1 r2 : list Z) :
  lexLt s t -> lexLt (s ++ r1) (t ++ r2).
Proof.
  revert t. induction s as [|a s IH]; intros [|b t]; simpl; try contradiction.
  intros [H|[H1 H2]]; [left; exact H|right; split; [exact H1|apply IH; exact H2]].
Qed.

Lemma lexLt_snoc (s : list Z) (x y : Z) :
  x < y -> lexLt (s ++ [x]) (s ++ [y]).
Proof.
  intros H. induction s as [|a s IH]; simpl; [left; exact H|].
  right. split; [reflexivity|exact IH].
Qed.

Lemma lexLe_snoc (s t : list Z) (x : Z) :
  List.length s = List.length t -> lexLe s t -> lexLe (s ++ [x]) (t ++ [x]).
Proof.
  revert t. induction s as [|a s IH]; intros [|b t] Hlen; simpl in *;
    try discriminate.
  - intros _. right. split; reflexivity.
  - intros [H|[H1 H2]]; [left; exact H|].
    right. split; [exact H1|]. apply IH; [lia|exact H2].
Qed.

Lemma lexLt_le_trans (s t u : list Z) :
  List.length t = List.length u -> lexLt s t -> lexLe t u -> lexLt s u.
Proof.
  revert t u. induction s as [|a s IH]; intros [|b t] [|c u] Hlen; simpl in *;
    try contradiction; try discriminate.
  intros [H|[H1 H2]] [K|[K1 K2]].
  - left. lia.
  - left. lia.
  - left. lia.
  - right. split; [lia|]. apply (IH t u); [lia|exact H2|exact K2].
Qed.

Lemma turns_snoc (v d : Coord) :
  forall p : list Coord,
    p <> [] -> turns (p ++ [v]) = turns p ++ [turn (last p d) v].
Proof.
  induction p as [|a p IH]; intros Hne; [contradiction|].
  destruct p as [|b p]; [reflexivity|].
  change (turns ((a :: b :: p) ++ [v]))
    with (turn a b :: turns ((b :: p) ++ [v])).
  rewrite IH by discriminate. reflexivity.
Qed.

Lemma length_turns (p : list Coord) :
  List.length (turns p) = pred (List.length p).
Proof.
  induction p as [|a p IH]; [reflexivity|].
  destruct p as [|b p]; [reflexivity|].
  change (turns (a :: b :: p)) with (turn a b :: turns (b :: p)).
  simpl List.length in *. rewrite IH. reflexivity.
Qed.

(** The step in one of the four directions has the place of the direction
    in [directions]. *)
Lemma turn_direction (u : Coord) (d : Z * Z) :
  turn u (fst u + fst d, snd u + snd d) = turn (0, 0) d.
Proof.
  unfold turn. simpl.
  replace (fst u + fst d - fst u) with (fst d - 0) by lia.
  replace (snd u + snd d - snd u) with (snd d - 0) by lia.
  reflexivity.
Qed.

Lemma directions_sorted :
  StronglySorted (fun d d' : Z * Z => turn (0, 0) d < turn (0, 0) d') directions.
Proof.
  unfold directions.
  repeat (constructor; [|repeat constructor; reflexivity]). constructor.
Qed.

Lemma StronglySorted_app {A : Type} (R : A -> A -> Prop) (l1 l2 : list A) :
  StronglySorted R l1 -> StronglySorted R l2 ->
  (forall a b, In a l1 -> In b l2 -> R a b) ->
  StronglySorted R (l1 ++ l2).
Proof.
  intros H1 H2 Hx. induction l1 as [|a l1 IH]; [exact H2|].
  inversion H1 as [|a' l' Hs Hf]; subst. simpl. constructor.
  - apply IH; [exact Hs|]. intros x y Hin Hy. apply Hx; [right; exact Hin|exact Hy].
  - apply Forall_app. split; [exact Hf|].
    apply Forall_forall. intros y Hy. apply Hx; [left; reflexivity|exact Hy].
Qed.

Lemma StronglySorted_In {A : Type} (R R' : A -> A -> Prop) (l : list A) :
  (forall a b, In a l -> In b l -> R a b -> R' a b) ->
  StronglySorted R l -> StronglySorted R' l.
Proof.
  intros Himp H. induction H as [|a l Hs IH Hf]; [constructor|].
  constructor.
  - apply IH. intros x y Hin Hy. apply Himp; right; assumption.
  - rewrite Forall_forall in *. intros y Hy.
    apply Himp; [left; reflexivity|right; exact Hy|apply Hf; exact Hy].
Qed.

(** A path of two cells or more is a path to the cell before the last,
    followed by one step. *)
Lemma stepsOk_snoc_inv (grid : Grid) (gridSize : Z) (v d : Coord) :
  forall p : list Coord,
    p <> [] -> stepsOk grid gridSize (p ++ [v]) ->
    stepsOk grid gridSize p /\ adjacent (last p d) v /\
    passable grid gridSize v.
Proof.
  induction p as [|a p IH]; intros Hne Hok; [contradiction|].
  destruct p as [|b p].
  - simpl in *. destruct Hok as (H1 & H2 & _). auto.
  - change (stepsOk grid gridSize (a :: b :: p ++ [v])) in Hok.
    simpl in Hok. destruct Hok as (Hab & Hb & Hrest).
    destruct (IH ltac:(discriminate) Hrest) as (H1 & H2 & H3).
    split; [|split; assumption]. simpl. auto.
Qed.

Lemma railPath_snoc_inv (grid : Grid) (gridSize : Z) (s v : Coord)
  (q : list Coord) (k : nat) :
  railPath grid gridSize s v q -> List.length q = S (S k) ->
  exists q', q = q' ++ [v] /\ List.length q' = S k /\
             railPath grid gridSize s (last q' s) q' /\
             adjacent (last q' s) v /\ passable grid gridSize v.
Proof.
  intros (Hhd & Hlast & Hok) Hlen.
  destruct (exists_last (l := q)) as (q' & x & E).
  { intros E. rewrite E in Hlen. discriminate. }
  subst q. rewrite last_last in Hlast. subst x.
  rewrite length_app in Hlen. simpl in Hlen.
  assert (Hne : q' <> []).
  { intros E. rewrite E in Hlen. simpl in Hlen. lia. }
  destruct (stepsOk_snoc_inv grid gridSize v s q' Hne Hok) as (H1 & H2 & H3).
  exists q'. split; [reflexivity|]. split; [lia|].
  split; [|split; assumption].
  split; [|split; [reflexivity|exact H1]].
  destruct q'; [contradiction|exact Hhd].
Qed.

(** *** One round of the search *)

Section Search.

Variable grid : Grid.
Variable gridSize : Z.
Hypothesis Hsquare : squareGrid grid gridSize.
Variables start goal : Coord.

Let entryOk := entryOk grid gridSize start.
Let passable := passable grid gridSize.
Let walk := walk grid gridSize start.

(** A neighbour is put on the queue exactly when it is a rail-or-station
    cell that has not been seen. *)
Lemma visitNeighbor_spec (e : QueueEntry) (queue : list QueueEntry)
  (visited : list Coord) (d : Z * Z) :
  let v := (qx e + fst d, qy e + snd d) in
  (visitNeighbor grid gridSize e (queue, visited) d = Ret (queue, visited) /\
   (~ passable v \/ In v visited)) \/
  (visitNeighbor grid gridSize e (queue, visited) d
   = Ret (queue ++ [mkEntry (fst v) (snd v) (qpath e ++ [v])], v :: visited) /\
   passable v /\ ~ In v visited).
Proof.
  intros v. unfold visitNeighbor. fold v.
  change (qx e + fst d) with (fst v). change (qy e + snd d) with (snd v).
  destruct (outOfBounds gridSize (fst v) (snd v)) eqn:Hb.
  { left. split; [reflexivity|]. left. intros [Hp _].
    unfold v in Hp. simpl in Hp. unfold v in Hb. simpl in Hb. congruence. }
  replace (fst v, snd v) with v by reflexivity.
  destruct (visitedHas visited v) eqn:Hv.
  { left. split; [reflexivity|]. right. apply visitedHas_In. exact Hv. }
  destruct (railOrStation_defined grid gridSize (fst v) (snd v) Hsquare)
    as [b Hr].
  rewrite Hr. simpl. destruct b; simpl.
  - right. split; [reflexivity|]. split.
    + split; assumption.
    + intros Hin. apply visitedHas_In in Hin. congruence.
  - left. split; [reflexivity|]. left. intros [_ Hp].
    unfold Rail.Coord in *. congruence.
Qed.

(** The four neighbours of the entry [e] taken off the queue: the new
    entries are the children of [e] at its unseen rail-or-station
    neighbours, in the order of the directions. *)
Lemma expand_spec (e : QueueEntry) (k : nat) :
  entryOk k e ->
  forall (ds : list (Z * Z)) (queue : list QueueEntry) (visited : list Coord),
    incl ds directions ->
    StronglySorted (fun d d' : Z * Z => turn (0, 0) d < turn (0, 0) d') ds ->
    exists (new : list QueueEntry) (visited' : list Coord),
      forEachM (visitNeighbor grid gridSize e) ds (queue, visited)
      = Ret (queue ++ new, visited') /\
      Forall (entryOk (S k)) new /\
      (forall c, In c visited' <-> In c visited \/ In c (map cell new)) /\
      (forall d, In d ds -> passable (qx e + fst d, qy e + snd d) ->
                 In (qx e + fst d, qy e + snd d) visited') /\
      (List.length new + unvisited gridSize visited'
       <= unvisited gridSize visited)%nat /\
      Forall (fun n => exists d, In d ds /\ n = child e d /\
                                 ~ In (cell n) visited) new /\
      StronglySorted
        (fun a b => turn (cell e) (cell a) < turn (cell e) (cell b)) new.
Proof.
  intros He. induction ds as [|d ds IH]; intros queue visited Hds Hsorted.
  - exists [], visited. simpl. rewrite app_nil_r.
    split; [reflexivity|]. split; [constructor|]. split; [tauto|].
    split; [contradiction|]. split; [lia|]. split; constructor.
  - assert (Hd : In d directions) by (apply Hds; left; reflexivity).
    assert (Hds' : incl ds directions).
    { intros x Hx. apply Hds. right. exact Hx. }
    inversion Hsorted as [|d0 ds0 Hsorted' Hlater]; subst.
    cbn [forEachM].
    destruct (visitNeighbor_spec e queue visited d)
      as [(-> & Hskip) | (-> & Hpass & Hnew)]; cbn [bind].
    + destruct (IH queue visited Hds' Hsorted')
        as (new & visited' & Hrun & Hok & Hvis & Hcov & Hmu & Hfrom & Hord).
      exists new, visited'. split; [exact Hrun|]. split; [exact Hok|].
      split; [exact Hvis|]. split; [|split; [exact Hmu|split; [|exact Hord]]].
      * intros d' [<-|Hd'] Hp.
        -- destruct Hskip as [Hn|Hin]; [contradiction|].
           apply Hvis. left. exact Hin.
        -- apply Hcov; assumption.
      * apply Forall_forall. intros n Hn.
        rewrite Forall_forall in Hfrom.
        destruct (Hfrom n Hn) as (d' & Hd' & En & Hv).
        exists d'. split; [right; exact Hd'|]. split; assumption.
    + set (v := (qx e + fst d, qy e + snd d)) in *.
      set (n := mkEntry (fst v) (snd v) (qpath e ++ [v])).
      destruct (IH (queue ++ [n]) (v :: visited) Hds' Hsorted')
        as (new & visited' & Hrun & Hok & Hvis & Hcov & Hmu & Hfrom & Hord).
      exists (n :: new), visited'.
      split; [etransitivity; [exact Hrun|]; rewrite <- app_assoc; reflexivity|].
      split; [|split; [|split; [|split; [|split]]]].
      * constructor; [|exact Hok].
        destruct He as ((Hhd & Hlast & Hsteps) & Hlen).
        assert (Hne : qpath e <> []).
        { intros E. rewrite E in Hlen. discriminate. }
        split.
        -- split; [|split].
           ++ simpl. destruct (qpath e); [contradiction|exact Hhd].
           ++ simpl. rewrite last_last. reflexivity.
           ++ simpl. apply (stepsOk_snoc grid gridSize v start); auto.
              rewrite Hlast. apply (adjacent_direction (cell e) d Hd).
        -- simpl. rewrite length_app, Hlen. simpl. lia.
      * intros c. rewrite Hvis. simpl.
        change (cell n) with v. tauto.
      * intros d' [<-|Hd'] Hp.
        -- apply Hvis. left. left. reflexivity.
        -- apply Hcov; assumption.
      * pose proof (unvisited_cons gridSize visited v (proj1 Hpass) Hnew).
        change (List.length (n :: new)) with (S (List.length new)).
        unfold Coord in *. lia.
      * constructor.
        -- exists d. split; [left; reflexivity|]. split; [reflexivity|].
           exact Hnew.
        -- apply Forall_forall. intros n' Hn'.
           rewrite Forall_forall in Hfrom.
           destruct (Hfrom n' Hn') as (d' & Hd' & En & Hv).
           exists d'. split; [right; exact Hd'|]. split; [exact En|].
           intros Hin. apply Hv. right. exact Hin.
      * constructor; [exact Hord|].
        apply Forall_forall. intros n' Hn'.
        rewrite Forall_forall in Hfrom, Hlater.
        destruct (Hfrom n' Hn') as (d' & Hd' & -> & _).
        change (cell n) with (fst (cell e) + fst d, snd (cell e) + snd d).
        change (cell (child e d'))
          with (fst (cell e) + fst d', snd (cell e) + snd d').
        rewrite !turn_direction. apply Hlater. exact Hd'.
Qed.

(** *** The invariant of the search loop *)

Let Inv := SearchInv grid gridSize start goal.

Lemma Inv_init :
  Inv 0 [mkEntry (fst start) (snd start) [start]] [] [start] [].
Proof.
  constructor.
  - constructor; [|constructor]. split; [|reflexivity].
    split; [reflexivity|]. split; [destruct start; reflexivity|exact I].
  - constructor.
  - intros c. simpl. unfold cell. simpl. destruct start. simpl. tauto.
  - intros n c _ Hn. lia.
  - intros c Hw. inversion Hw; subst. right. left.
    destruct c; reflexivity.
  - intros u v [].
  - intros [].
Qed.

(** When the near part of the queue is used up, the far part is the near
    part of the next level. *)
Lemma Inv_shift (k : nat) (B : list QueueEntry) (visited P : list Coord) :
  Inv k [] B visited P -> Inv (S k) B [] visited P.
Proof.
  intros [HA HB Hvis Hbelow Hlevel Hclosed Hgoal]. constructor.
  - exact HB.
  - constructor.
  - intros c. rewrite Hvis, app_nil_r. reflexivity.
  - intros n c Hw Hn. destruct (Nat.eq_dec n k) as [->|Hne].
    + destruct (Hlevel c Hw) as [H|[]]. exact H.
    + apply (Hbelow n c Hw). lia.
  - intros c Hw. inversion Hw as [|n u v Hu Hadj Hpass]; subst.
    destruct (Hlevel u Hu) as [HuP|[]].
    exact (Hclosed u c HuP Hadj Hpass).
  - intros u v Hu Hadj Hpass. rewrite app_nil_r.
    exact (Hclosed u v Hu Hadj Hpass).
  - exact Hgoal.
Qed.

(** With an empty queue every reachable cell was taken off the queue. *)
Lemma Inv_exhausted (k : nat) (visited P : list Coord) :
  Inv k [] [] visited P -> forall n c, walk n c -> In c P.
Proof.
  intros HI n c Hw.
  assert (Up : forall j, Inv (j + k) [] [] visited P).
  { induction j as [|j IH]; [exact HI|]. apply Inv_shift. exact IH. }
  destruct (Up (S n)) as [_ _ _ Hbelow _ _ _]. apply (Hbelow n c Hw). lia.
Qed.

(** The entry at the head of the queue is the goal: its path is a shortest
    one. *)
Lemma Inv_found (k : nat) (e : QueueEntry) (A B : list QueueEntry)
  (visited P : list Coord) :
  Inv k (e :: A) B visited P -> cell e = goal ->
  searchPost grid gridSize start goal (Some (qpath e)).
Proof.
  intros [HA _ _ Hbelow _ _ Hgoal] He.
  inversion HA as [|e' A' [Hpath Hlen] _]; subst. simpl. split.
  - exact Hpath.
  - intros q Hq. pose proof Hq as (Hhd & _). apply railPath_walk in Hq.
    destruct (Nat.lt_ge_cases (pred (List.length q)) k) as [Hlt|Hge].
    + exfalso. apply Hgoal. exact (Hbelow _ _ Hq Hlt).
    + rewrite Hlen. destruct q; [discriminate|]. simpl in Hge. simpl. lia.
Qed.

(** Taking the head [e] off the queue and putting its unseen rail-or-station
    neighbours at the back keeps the invariant. *)
Lemma Inv_step (k : nat) (e : QueueEntry) (A B new : list QueueEntry)
  (visited visited' P : list Coord) :
  Inv k (e :: A) B visited P -> cell e <> goal ->
  Forall (entryOk (S k)) new ->
  (forall c, In c visited' <-> In c visited \/ In c (map cell new)) ->
  (forall d, In d directions -> passable (qx e + fst d, qy e + snd d) ->
             In (qx e + fst d, qy e + snd d) visited') ->
  Inv k A (B ++ new) visited' (cell e :: P).
Proof.
  intros [HA HB Hvis Hbelow Hlevel Hclosed Hgoal] Hne Hnew Hvis' Hcov.
  assert (V : forall c, In c visited' <->
                        In c (cell e :: P) \/ In c (map cell (A ++ B ++ new))).
  { intros c. rewrite Hvis', Hvis. simpl.
    rewrite !map_app, !in_app_iff. tauto. }
  constructor.
  - inversion HA; assumption.
  - apply Forall_app. split; assumption.
  - exact V.
  - intros n c Hw Hn. right. exact (Hbelow n c Hw Hn).
  - intros c Hw. destruct (Hlevel c Hw) as [H|[H|H]].
    + left. right. exact H.
    + left. left. exact H.
    + right. exact H.
  - intros u v [<-|Hu] Hadj Hpass.
    + apply V. destruct (direction_adjacent (cell e) v Hadj) as (d & Hd & ->).
      apply Hcov; assumption.
    + destruct (Hclosed u v Hu Hadj Hpass) as [H|H].
      * left. right. exact H.
      * simpl in H. destruct H as [H|H].
        -- left. left. exact H.
        -- right. rewrite map_app, in_app_iff in H.
           rewrite !map_app, !in_app_iff. tauto.
  - intros [H|H]; [apply Hne; exact H|apply Hgoal; exact H].
Qed.

(** *** The order of the queue *)

Let Ord := SearchOrder grid gridSize start.

Lemma Ord_init : Ord [mkEntry (fst start) (snd start) [start]] [].
Proof.
  constructor.
  - constructor; constructor.
  - constructor.
  - intros a b _ [].
  - intros e [<-|[]] q _ _. exact I.
Qed.

Lemma Ord_shift (B : list QueueEntry) : Ord [] B -> Ord B [].
Proof.
  intros [HA HB Hlev Hfirst]. constructor.
  - exact HB.
  - constructor.
  - intros a b _ [].
  - intros e He. apply Hfirst. rewrite app_nil_r in He. exact He.
Qed.

(** The entry at the head of the queue carries the first path of its
    length to its cell. *)
Lemma Ord_found (e : QueueEntry) (A B : list QueueEntry) :
  Ord (e :: A) B -> firstFound grid gridSize start (cell e) (qpath e).
Proof.
  intros [_ _ _ Hfirst]. apply Hfirst. left. reflexivity.
Qed.

(** The path of a child of [e]. *)
Lemma turns_child (e : QueueEntry) (k : nat) (d : Z * Z) :
  entryOk k e ->
  turns (qpath (child e d))
  = turns (qpath e) ++ [turn (cell e) (cell (child e d))].
Proof.
  intros ((Hhd & Hlast & _) & Hlen). unfold child. cbn [qpath].
  rewrite (turns_snoc _ start).
  - rewrite Hlast. reflexivity.
  - intros E. rewrite E in Hlen. discriminate.
Qed.

(** Taking the head [e] off the queue and putting its children at the back
    keeps the order: a child of [e] carries the first path to its cell,
    since a path through an entry taken off earlier would have put the cell
    on the queue before, and the entries left on the near level come after
    [e]. *)
Lemma Ord_step (k : nat) (e : QueueEntry) (A B new : list QueueEntry)
  (visited P : list Coord) :
  Inv k (e :: A) B visited P -> Ord (e :: A) B ->
  Forall (entryOk (S k)) new ->
  Forall (fun n => exists d, In d directions /\ n = child e d /\
                             ~ In (cell n) visited) new ->
  StronglySorted
    (fun a b => turn (cell e) (cell a) < turn (cell e) (cell b)) new ->
  Ord A (B ++ new).
Proof.
  intros [HA HB Hvis Hbelow Hlevel Hclosed Hgoal] [OA OB Olev Ofirst]
         Hnew Hfrom Hsorted.
  inversion HA as [|e' A' He HA']; subst.
  inversion OA as [|e' A' OA' Ohead]; subst.
  rewrite Forall_forall in Hfrom, Ohead.
  assert (Key : forall n, In n new ->
                  exists d, n = child e d /\
                    turns (qpath n)
                    = turns (qpath e) ++ [turn (cell e) (cell n)]).
  { intros n Hn. destruct (Hfrom n Hn) as (d & _ & -> & _).
    exists d. split; [reflexivity|]. apply (turns_child e k d He). }
  constructor.
  - exact OA'.
  - apply StronglySorted_app.
    + exact OB.
    + apply (StronglySorted_In
               (fun a b => turn (cell e) (cell a) < turn (cell e) (cell b)));
        [|exact Hsorted].
      intros a b Ha Hb Hlt. unfold before.
      destruct (Key a Ha) as (_ & _ & ->). destruct (Key b Hb) as (_ & _ & ->).
      apply lexLt_snoc. exact Hlt.
    + intros b n Hb Hn. unfold before.
      destruct (Key n Hn) as (_ & _ & ->).
      rewrite <- (app_nil_r (turns (qpath b))).
      apply lexLt_app. apply (Olev e b); [left; reflexivity|exact Hb].
  - intros a b Ha Hb. apply in_app_iff in Hb. destruct Hb as [Hb|Hb].
    + apply Olev; [right; exact Ha|exact Hb].
    + unfold before. destruct (Key b Hb) as (_ & _ & ->).
      rewrite <- (app_nil_r (turns (qpath a))).
      apply lexLt_app. apply Ohead. exact Ha.
  - intros n Hn. rewrite app_assoc in Hn. apply in_app_iff in Hn.
    destruct Hn as [Hn|Hn].
    { apply Ofirst. simpl. right. exact Hn. }
    destruct (Key n Hn) as (d & En & Hturns).
    destruct (Hfrom n Hn) as (_ & _ & _ & Hunseen).
    rewrite Forall_forall in Hnew. destruct (Hnew n Hn) as [_ Hlen].
    intros q Hq Hqlen. rewrite Hlen in Hqlen.
    destruct (railPath_snoc_inv grid gridSize start (cell n) q k Hq Hqlen)
      as (q' & -> & Hlen' & Hq' & Hadj & Hpass).
    set (u := last q' start) in *.
    assert (Hne : q' <> []).
    { intros E. rewrite E in Hlen'. discriminate. }
    rewrite (turns_snoc _ start) by exact Hne. fold u. rewrite Hturns.
    assert (Hw : walk k u).
    { apply railPath_walk in Hq'. rewrite Hlen' in Hq'. exact Hq'. }
    destruct He as [Hpe Hle].
    assert (Lq : List.length (turns q') = k).
    { rewrite length_turns, Hlen'. reflexivity. }
    assert (Le : List.length (turns (qpath e)) = k).
    { rewrite length_turns, Hle. reflexivity. }
    destruct (Hlevel u Hw) as [HuP|HuA].
    { exfalso. apply Hunseen. apply Hvis.
      exact (Hclosed u (cell n) HuP Hadj Hpass). }
    apply in_map_iff in HuA. destruct HuA as (a & Ea & [<-|Ha]).
    + rewrite Ea. apply lexLe_snoc; [lia|].
      apply (Ofirst e (or_introl eq_refl)).
      * rewrite Ea. exact Hq'.
      * lia.
    + apply lexLt_lexLe. apply lexLt_app.
      apply (lexLt_le_trans _ (turns (qpath a))).
      * rewrite Forall_forall in HA'. destruct (HA' a Ha) as [_ Hla].
        rewrite length_turns, Hla. simpl. lia.
      * apply Ohead. exact Ha.
      * apply (Ofirst a).
        -- simpl. right. apply in_app_iff. left. exact Ha.
        -- rewrite Ea. exact Hq'.
        -- rewrite Forall_forall in HA'. destruct (HA' a Ha) as [_ Hla]. lia.
Qed.

(** The loop returns, and what it returns is what the specification asks,
    as soon as the fuel covers the queue and the unseen cells. *)
Lemma bfsLoop_spec :
  forall (fuel k : nat) (A B : list QueueEntry) (visited P : list Coord),
    Inv k A B visited P -> Ord A B ->
    (List.length (A ++ B) + unvisited gridSize visited <= fuel)%nat ->
    exists r,
      bfsLoop fuel grid gridSize (fst goal) (snd goal) (A ++ B) visited = Ret r
      /\ searchPost grid gridSize start goal r
      /\ orderPost grid gridSize start goal r.
Proof.
  induction fuel as [|fuel IH]; intros k A B visited P HI HO Hfuel.
  - destruct A as [|e A]; [destruct B as [|e B]|]; simpl in Hfuel; try lia.
    exists None. split; [reflexivity|]. split; [|exact I]. intros p Hp.
    apply railPath_walk in Hp.
    pose proof (Inv_exhausted k visited P HI _ _ Hp) as Hin.
    destruct HI as [_ _ _ _ _ _ Hgoal]. contradiction.
  - assert (N : exists k' A' B', A ++ B = A' ++ B' /\ Inv k' A' B' visited P /\
                                 Ord A' B' /\ (A' = [] -> B' = [])).
    { destruct A as [|e A].
      - exists (S k), B, []. split; [rewrite app_nil_r; reflexivity|].
        split; [apply Inv_shift; exact HI|].
        split; [apply Ord_shift; exact HO|reflexivity].
      - exists k, (e :: A), B. split; [reflexivity|]. split; [exact HI|].
        split; [exact HO|discriminate]. }
    destruct N as (k' & A' & B' & Heq & HI' & HO' & Hnil). rewrite Heq in *.
    clear HI HO Heq A B k. destruct A' as [|e A'].
    + rewrite (Hnil eq_refl) in *. exists None. split; [reflexivity|].
      split; [|exact I].
      intros p Hp. apply railPath_walk in Hp.
      pose proof (Inv_exhausted k' visited P HI' _ _ Hp) as Hin.
      destruct HI' as [_ _ _ _ _ _ Hgoal]. contradiction.
    + change ((e :: A') ++ B') with (e :: (A' ++ B')) in *.
      cbn [bfsLoop].
      destruct ((qx e =? fst goal) && (qy e =? snd goal)) eqn:G.
      * assert (Eg : cell e = goal).
        { apply andb_true_iff in G. destruct G as [G1 G2].
          apply Z.eqb_eq in G1. apply Z.eqb_eq in G2.
          unfold cell. rewrite G1, G2. destruct goal; reflexivity. }
        exists (Some (qpath e)). split; [reflexivity|]. split.
        -- exact (Inv_found k' e A' B' visited P HI' Eg).
        -- simpl. rewrite <- Eg. exact (Ord_found e A' B' HO').
      * assert (Hne : cell e <> goal).
        { intros E. unfold cell in E. rewrite <- E in G. simpl in G.
          rewrite !Z.eqb_refl in G. discriminate. }
        assert (He : entryOk k' e).
        { destruct HI' as [HA _ _ _ _ _ _]. inversion HA; assumption. }
        destruct (expand_spec e k' He directions (A' ++ B') visited
                              (incl_refl _) directions_sorted)
          as (new & visited' & Hrun & Hok & Hvis & Hcov & Hmu & Hfrom & Hord).
        rewrite Hrun. cbn [bind]. rewrite <- app_assoc.
        apply (IH k' A' (B' ++ new) visited' (cell e :: P)).
        -- apply (Inv_step k' e A' B' new visited visited' P); assumption.
        -- apply (Ord_step k' e A' B' new visited P); assumption.
        -- simpl in Hfuel. rewrite !length_app in *. lia.
Qed.

Lemma unvisited_le (visited : list Coord) :
  (unvisited gridSize visited <= Z.to_nat (gridSize * gridSize))%nat.
Proof.
  unfold unvisited.
  pose proof (filter_length_le (fun c => negb (visitedHas visited c))
                               (scanCells gridSize)).
  pose proof (length_scanCells gridSize). lia.
Qed.

(** The search from [start] to [goal] returns, with null when there is no
    path and otherwise with the first of the shortest paths. *)
Lemma findPathOnRails_first :
  exists r,
    findPathOnRails grid gridSize (fst start) (snd start) (fst goal) (snd goal)
    = Ret r /\
    searchPost grid gridSize start goal r /\
    orderPost grid gridSize start goal r.
Proof.
  unfold findPathOnRails.
  replace (fst start, snd start) with start by (destruct start; reflexivity).
  apply (bfsLoop_spec (bfsFuel gridSize) 0
           [mkEntry (fst start) (snd start) [start]] [] [start] []).
  - apply Inv_init.
  - apply Ord_init.
  - pose proof (unvisited_le [start]). unfold bfsFuel. simpl. lia.
Qed.

(** The search from [start] to [goal] returns, with a shortest path or with
    null when there is none. *)
Lemma findPathOnRails_spec :
  exists r,
    findPathOnRails grid gridSize (fst start) (snd start) (fst goal) (snd goal)
    = Ret r /\
    searchPost grid gridSize start goal r.
Proof.
  destruct findPathOnRails_first as (r & Hrun & Hpost & _).
  exists r. split; assumption.
Qed.

End Search.

(** *** The straight line *)

(** Among the sequences of adjacent cells from (0,0) to (0,4), the straight
    line is the only one of at most five cells. *)
Lemma straight_line_unique (grid : Grid) (gridSize : Z) (p : list Coord) :
  railPath grid gridSize (0, 0) (0, 4) p -> (List.length p <= 5)%nat ->
  p = straightLine.
Proof.
  unfold railPath, adjacent, straightLine. intros (Hhd & Hlast & Hok) Hlen.
  destruct p as [|[x0 y0] p]; [discriminate|]. injection Hhd as -> ->.
  destruct p as [|[x1 y1] p]; [simpl in Hlast; discriminate|].
  destruct Hok as (A1 & _ & Hok). unfold adjacent in A1. simpl in A1.
  destruct p as [|[x2 y2] p].
  { simpl in Hlast. injection Hlast as -> ->. lia. }
  destruct Hok as (A2 & _ & Hok). unfold adjacent in A2. simpl in A2.
  destruct p as [|[x3 y3] p].
  { simpl in Hlast. injection Hlast as -> ->. lia. }
  destruct Hok as (A3 & _ & Hok). unfold adjacent in A3. simpl in A3.
  destruct p as [|[x4 y4] p].
  { simpl in Hlast. injection Hlast as -> ->. lia. }
  destruct Hok as (A4 & _ & Hok). unfold adjacent in A4. simpl in A4.
  destruct p as [|c5 p]; [|simpl in Hlen; lia].
  simpl in Hlast. injection Hlast as -> ->.
  assert (x1 = 0 /\ y1 = 1 /\ x2 = 0 /\ y2 = 2 /\ x3 = 0 /\ y3 = 3) by lia.
  destruct H as (-> & -> & -> & -> & -> & ->). reflexivity.
Qed.

Lemma straight_line_is_path (grid : Grid) (gridSize : Z) :
  (forall y, 1 <= y <= 4 -> passable grid gridSize (0, y)) ->
  railPath grid gridSize (0, 0) (0, 4) straightLine.
Proof.
  intros H. unfold railPath, straightLine, adjacent. simpl.
  repeat split; try lia; apply H; lia.
Qed.

(** C2. On a square grid [findPathOnRails] returns for every pair of
    endpoints: either null, and then no sequence of orthogonal steps over
    rail-or-station cells leads from the start to the end, or a sequence
    that starts at the start cell, ends at the end cell, steps only to
    adjacent rail-or-station cells, and has no more cells than any other
    such sequence.  The neighbours are tried in the order north (x-1),
    east (y-1), south (x+1), west (y+1), which decides among the paths of
    equal length: at the first step where another shortest path leaves the
    one returned, the step of the returned path comes earlier in that
    order.  When the cells (0,1) to (0,4) carry rail the path from (0,0) to
    (0,4) is exactly the straight line, and on the loop of [loopGrid] the
    path to the opposite corner is the one that leaves to the south. *)
Theorem findPathOnRails_shortest_path (grid : Grid)
  (gridSize startX startY endX endY : Z) :
  squareGrid grid gridSize ->
  (exists r,
      findPathOnRails grid gridSize startX startY endX endY = Ret r /\
      match r with
      | None =>
          forall p, ~ railPath grid gridSize (startX, startY) (endX, endY) p
      | Some p =>
          railPath grid gridSize (startX, startY) (endX, endY) p /\
          (forall q, railPath grid gridSize (startX, startY) (endX, endY) q ->
                     (List.length p <= List.length q)%nat) /\
          (forall q, railPath grid gridSize (startX, startY) (endX, endY) q ->
                     List.length q = List.length p ->
                     lexLe (turns p) (turns q))
      end) /\
  ((forall y, 1 <= y <= 4 -> passable grid gridSize (0, y)) ->
   findPathOnRails grid gridSize 0 0 0 4 = Ret (Some straightLine)) /\
  findPathOnRails loopGrid 4 0 0 3 3
  = Ret (Some [(0, 0); (1, 0); (2, 0); (3, 0); (3, 1); (3, 2); (3, 3)]).
Proof.
  intros Hsq. split; [|split; [|reflexivity]].
  - destruct (findPathOnRails_first grid gridSize Hsq
                (startX, startY) (endX, endY)) as (r & Hrun & Hpost & Hord).
    exists r. split; [exact Hrun|].
    destruct r as [p|]; [|exact Hpost].
    destruct Hpost as [Hp Hmin]. split; [exact Hp|]. split; [exact Hmin|].
    exact Hord.
  - intros Hline.
    destruct (findPathOnRails_spec grid gridSize Hsq (0, 0) (0, 4))
      as (r & Hrun & Hpost).
    simpl in Hrun. rewrite Hrun.
    pose proof (straight_line_is_path grid gridSize Hline) as Hsl.
    destruct r as [p|]; simpl in Hpost.
    + destruct Hpost as [Hp Hmin]. f_equal. f_equal.
      apply (straight_line_unique grid gridSize p Hp).
      exact (Hmin straightLine Hsl).
    + exfalso. exact (Hpost straightLine Hsl).
Qed.

Lemma findPathOnRails_shortest_path_witness :
  findPathOnRails lineGrid 5 0 0 0 4 = Ret (Some straightLine) /\
  (exists r,
    findPathOnRails lineGrid 5 0 0 4 4 = Ret r /\
    match r with
    | None => forall p, ~ railPath lineGrid 5 (0, 0) (4, 4) p
    | Some p =>
        railPath lineGrid 5 (0, 0) (4, 4) p /\
        (forall q, railPath lineGrid 5 (0, 0) (4, 4) q ->
                   (List.length p <= List.length q)%nat) /\
        (forall q, railPath lineGrid 5 (0, 0) (4, 4) q ->
                   List.length q = List.length p ->
                   lexLe (turns p) (turns q))
    end) /\
  (exists r,
    findPathOnRails loopGrid 4 0 0 3 3 = Ret r /\
    match r with
    | None => forall p, ~ railPath loopGrid 4 (0, 0) (3, 3) p
    | Some p =>
        railPath loopGrid 4 (0, 0) (3, 3) p /\
        (forall q, railPath loopGrid 4 (0, 0) (3, 3) q ->
                   (List.length p <= List.length q)%nat) /\
        (forall q, railPath loopGrid 4 (0, 0) (3, 3) q ->
                   List.length q = List.length p ->
                   lexLe (turns p) (turns q))
    end).
Proof.
  split; [|split].
  - destruct (findPathOnRails_shortest_path lineGrid 5 0 0 0 4)
      as (_ & H & _); [reflexivity|].
    apply H. intros y Hy.
    assert (C : y = 1 \/ y = 2 \/ y = 3 \/ y = 4) by lia.
    destruct C as [->|[->|[->| ->]]]; split; reflexivity.
  - destruct (findPathOnRails_shortest_path lineGrid 5 0 0 4 4)
      as (H & _); [reflexivity|].
    exact H.
  - destruct (findPathOnRails_shortest_path loopGrid 4 0 0 3 3)
      as (H & _); [reflexivity|].
    exact H.
Defined.

End PathFacts.

(** * Further properties of the rail code *)

(** ** More on the grid adjacency oracle *)

Module OracleMore.
Import Rail Trains Scenarios MoreScenarios OracleFacts TrainFacts DeadEndFacts
       PathFacts.

Lemma hasRailAtPosition_eq (grid : Grid) (gridSize x y : Z) :
  hasRailAtPosition grid gridSize x y = railOrStation grid gridSize x y.
Proof.
  unfold hasRailAtPosition, railOrStation, isRailTile.
  destruct (outOfBounds gridSize x y) eqn:B; simpl.
  - unfold isRailStationTile. rewrite B. reflexivity.
  - destruct (tileAt grid x y) as [t| |] eqn:T; simpl; try reflexivity.
    unfold railOrOverlay. destruct (typeIs t rail) eqn:R; simpl;
      [reflexivity|].
    destruct (typeIs t road) eqn:Rd; simpl.
    + assert (S : isRailStationTile grid gridSize x y = Ret false).
      { apply (isRailStationTile_other grid gridSize x y road).
        - unfold buildingAt. rewrite T. f_equal.
          apply BuildingType_eqb_eq. exact Rd.
        - discriminate.
        - discriminate. }
      rewrite S. simpl. destruct (hasRailOverlay t); reflexivity.
    + destruct (isRailStationTile grid gridSize x y) as [[]| |]; reflexivity.
Qed.

(** X1. The connection oracle and the validity test of the train movement
    and of the pathfinder are the same function: a neighbour counts as a
    connection exactly when a train may enter it, and the two calls fail
    on the same malformed grids. *)
Theorem connection_oracle_is_entry_test (grid : Grid) (gridSize x y : Z) :
  hasRailAtPosition grid gridSize x y = railOrStation grid gridSize x y.
Proof. apply hasRailAtPosition_eq. Qed.

Lemma hasRailAtPosition_defined (grid : Grid) (gridSize x y : Z) :
  squareGrid grid gridSize ->
  exists b, hasRailAtPosition grid gridSize x y = Ret b.
Proof.
  intros Hsq. rewrite hasRailAtPosition_eq.
  apply railOrStation_defined. exact Hsq.
Qed.

Lemma hasRailAtPosition_outside (grid : Grid) (gridSize x y : Z) :
  outOfBounds gridSize x y = true ->
  hasRailAtPosition grid gridSize x y = Ret false.
Proof. intros H. unfold hasRailAtPosition. rewrite H. reflexivity. Qed.

Lemma getAdjacentRail_defined (grid : Grid) (gridSize x y : Z) :
  squareGrid grid gridSize ->
  exists c, getAdjacentRail grid gridSize x y = Ret c.
Proof.
  intros Hsq. unfold getAdjacentRail.
  destruct (hasRailAtPosition_defined grid gridSize (x - 1) y Hsq) as [n ->].
  destruct (hasRailAtPosition_defined grid gridSize x (y - 1) Hsq) as [e ->].
  destruct (hasRailAtPosition_defined grid gridSize (x + 1) y Hsq) as [s ->].
  destruct (hasRailAtPosition_defined grid gridSize x (y + 1) Hsq) as [w ->].
  simpl. eauto.
Qed.

(** X2. On a square grid [getAdjacentRail] answers for every coordinate,
    also on the border and off the map, and a neighbour that lies off the
    map is no connection: none to the north at [x <= 0], to the east at
    [y <= 0], to the south at [x >= gridSize - 1], to the west at
    [y >= gridSize - 1]. *)
Theorem getAdjacentRail_at_border (grid : Grid) (gridSize x y : Z) :
  squareGrid grid gridSize ->
  exists c,
    getAdjacentRail grid gridSize x y = Ret c /\
    (x <= 0 -> north c = false) /\
    (y <= 0 -> east c = false) /\
    (gridSize - 1 <= x -> south c = false) /\
    (gridSize - 1 <= y -> west c = false).
Proof.
  intros Hsq.
  destruct (getAdjacentRail_defined grid gridSize x y Hsq) as [c Hc].
  exists c. split; [exact Hc|].
  unfold getAdjacentRail in Hc.
  apply bind_Ret_inv in Hc. destruct Hc as (n & Hn & Hc).
  apply bind_Ret_inv in Hc. destruct Hc as (e & He & Hc).
  apply bind_Ret_inv in Hc. destruct Hc as (s & Hs & Hc).
  apply bind_Ret_inv in Hc. destruct Hc as (w & Hw & Hc).
  injection Hc as <-. simpl.
  assert (Out : forall a b v, hasRailAtPosition grid gridSize a b = Ret v ->
                              outOfBounds gridSize a b = true -> v = false).
  { intros a b v Hv Ho. rewrite hasRailAtPosition_outside in Hv by exact Ho.
    congruence. }
  repeat split; intros Hb.
  - apply (Out _ _ _ Hn). unfold outOfBounds.
    destruct (Z.ltb_spec (x - 1) 0); [reflexivity|lia].
  - apply (Out _ _ _ He). unfold outOfBounds.
    destruct (Z.ltb_spec (y - 1) 0); [apply orb_true_iff; left;
      apply orb_true_iff; left; apply orb_true_r|lia].
  - apply (Out _ _ _ Hs). unfold outOfBounds.
    destruct (Z.geb_spec (x + 1) gridSize);
      [rewrite orb_true_r; reflexivity|lia].
  - apply (Out _ _ _ Hw). unfold outOfBounds.
    destruct (Z.geb_spec (y + 1) gridSize); [apply orb_true_r|lia].
Qed.

Lemma getAdjacentRail_at_border_witness :
  exists c,
    getAdjacentRail stationGrid 7 0 0 = Ret c /\
    north c = false /\ east c = false.
Proof.
  destruct (getAdjacentRail_at_border stationGrid 7 0 0)
    as (c & Hc & Hn & He & _); [reflexivity|].
  exists c. split; [exact Hc|]. split; [apply Hn|apply He]; lia.
Defined.

(** X3. A tile cannot be both: where [isRailTile] holds, on a rail tile or
    a road with a rail overlay, [isRailStationTile] fails. *)
Theorem rail_tile_is_no_station_tile (grid : Grid) (gridSize x y : Z) :
  isRailTile grid gridSize x y = Ret true ->
  isRailStationTile grid gridSize x y = Ret false.
Proof.
  unfold isRailTile. destruct (outOfBounds gridSize x y) eqn:B;
    [discriminate|].
  destruct (tileAt grid x y) as [t| |] eqn:T; simpl; try discriminate.
  intros H. injection H as H. unfold railOrOverlay in H.
  apply orb_true_iff in H.
  assert (Ty : buildingType t = rail \/ buildingType t = road).
  { destruct H as [H|H].
    - left. apply BuildingType_eqb_eq. exact H.
    - right. apply andb_true_iff in H. apply BuildingType_eqb_eq. apply H. }
  destruct Ty as [Ty|Ty];
    apply (isRailStationTile_other grid gridSize x y (buildingType t));
    try (unfold buildingAt; rewrite T; reflexivity);
    rewrite Ty; discriminate.
Qed.

Lemma rail_tile_is_no_station_tile_witness :
  isRailStationTile lineGrid 5 0 2 = Ret false.
Proof.
  apply (rail_tile_is_no_station_tile lineGrid 5 0 2). reflexivity.
Defined.

Lemma In_optionsOf (c : RailConnection) (d : CarDirection) :
  In d (optionsOf c) <-> connected c d = true.
Proof.
  destruct c as [[] [] [] []], d; simpl; intuition congruence.
Qed.

Lemma getAdjacentRail_ahead (grid : Grid) (gridSize x y : Z)
  (c : RailConnection) (d : CarDirection) :
  getAdjacentRail grid gridSize x y = Ret c ->
  railOrStation grid gridSize (fst (ahead x y d)) (snd (ahead x y d))
  = Ret (connected c d).
Proof.
  unfold getAdjacentRail. intros H.
  apply bind_Ret_inv in H. destruct H as (n & Hn & H).
  apply bind_Ret_inv in H. destruct H as (e & He & H).
  apply bind_Ret_inv in H. destruct H as (s & Hs & H).
  apply bind_Ret_inv in H. destruct H as (w & Hw & H).
  injection H as <-. rewrite hasRailAtPosition_eq in Hn, He, Hs, Hw.
  destruct d; simpl; rewrite ?Z.add_0_r.
  - replace (x + -1) with (x - 1) by lia. exact Hn.
  - replace (y + -1) with (y - 1) by lia. exact He.
  - exact Hs.
  - exact Hw.
Qed.

(** X4. The headings [getRailDirectionOptions] offers at a tile are the
    live connections [getAdjacentRail] reports, in the order north, east,
    south, west and as many as [getTrackType] counts; a heading is offered
    exactly when the tile one [DIRECTION_META] step ahead may be entered. *)
Theorem direction_options_lead_onto_rail (grid : Grid) (gridSize x y : Z)
  (c : RailConnection) :
  getAdjacentRail grid gridSize x y = Ret c ->
  getRailDirectionOptions grid gridSize x y = Ret (optionsOf c) /\
  List.length (optionsOf c) = connectionCount c /\
  forall d,
    In d (optionsOf c) <->
    railOrStation grid gridSize (fst (ahead x y d)) (snd (ahead x y d))
    = Ret true.
Proof.
  intros Hc. split; [apply getRailDirectionOptions_connections; exact Hc|].
  split; [destruct c as [[] [] [] []]; reflexivity|].
  intros d. rewrite In_optionsOf.
  rewrite (getAdjacentRail_ahead grid gridSize x y c d Hc).
  split; [intros ->; reflexivity|intros H; injection H; auto].
Qed.

Lemma direction_options_lead_onto_rail_witness :
  getRailDirectionOptions loopGrid 4 0 0 = Ret [dSouth; dWest] /\
  railOrStation loopGrid 4 1 0 = Ret true.
Proof.
  destruct (direction_options_lead_onto_rail loopGrid 4 0 0
              (mkConn false false true true)) as (H1 & _ & H3);
    [reflexivity|].
  split; [exact H1|]. apply (proj1 (H3 dSouth)). simpl. auto.
Defined.

End OracleMore.

(** ** More on the choice of heading *)

Module HeadingMore.
Import Rail Trains Scenarios MoreScenarios OracleFacts TrainFacts DeadEndFacts
       PathFacts OracleMore Curves.

(** The choice of heading, once the connections are known. *)
Lemma pickNextDirection_by_cases (d : CarDirection) (grid : Grid)
  (gridSize x y : Z) (c : RailConnection) (P : option CarDirection -> Prop) :
  getAdjacentRail grid gridSize x y = Ret c ->
  (forall r,
      (options <- Ret (optionsOf c) ;;
       if Nat.eqb (List.length options) 0 then Ret None
       else
         connections <- Ret c ;;
         let trackType := getTrackType connections in
         let incoming := OPPOSITE_DIRECTION d in
         let filtered :=
           filter (fun dir => negb (CarDirection_eqb dir incoming)) options in
         if Nat.eqb (List.length filtered) 0 then Ret (Some incoming)
         else
           let straightOrFirst :=
             if includes filtered d then Some d else hd_error filtered in
           match trackType with
           | straight_ns | straight_ew => Ret straightOrFirst
           | curve_ne | curve_nw | curve_se | curve_sw =>
               Ret (hd_error filtered)
           | junction_t_n | junction_t_e | junction_t_s | junction_t_w =>
               Ret straightOrFirst
           | junction_cross => Ret straightOrFirst
           | terminus_n | terminus_e | terminus_s | terminus_w =>
               Ret (Some incoming)
           | single =>
               match hd_error filtered with
               | Some d' => Ret (Some d')
               | None => Ret (Some incoming)
               end
           end) = Ret r -> P r) ->
  exists r, pickNextDirection d grid gridSize x y = Ret r /\ P r.
Proof.
  intros Hc HP. unfold pickNextDirection.
  rewrite (getRailDirectionOptions_connections _ _ _ _ _ Hc), Hc.
  destruct c as [[] [] [] []], d; eexists;
    (split; [reflexivity|apply HP; reflexivity]).
Qed.

(** X5. [pickNextDirection] returns null exactly on a tile without any
    connection; with one connection or more it returns a heading. *)
Theorem pickNextDirection_null_iff_isolated (d : CarDirection) (grid : Grid)
  (gridSize x y : Z) (c : RailConnection) :
  getAdjacentRail grid gridSize x y = Ret c ->
  exists r,
    pickNextDirection d grid gridSize x y = Ret r /\
    (r = None <-> connectionCount c = 0%nat).
Proof.
  intros Hc. apply (pickNextDirection_by_cases d grid gridSize x y c _ Hc).
  intros r. destruct c as [[] [] [] []], d; simpl; intros H;
    injection H as <-; split; intros E; solve [discriminate | reflexivity].
Qed.

Lemma pickNextDirection_null_iff_isolated_witness :
  pickNextDirection dSouth isolatedGrid 3 1 1 = Ret None.
Proof.
  destruct (pickNextDirection_null_iff_isolated dSouth isolatedGrid 3 1 1
              (mkConn false false false false)) as (r & Hr & Hiff);
    [reflexivity|].
  rewrite Hr. f_equal. apply Hiff. reflexivity.
Defined.

(** X6. On a tile with two connections or more the heading picked is a
    live connection, is never the way back, and the tile ahead in that
    heading may be entered: on a loop or through a junction the train is
    never turned around or sent off the rails. *)
Theorem pickNextDirection_keeps_going (d : CarDirection) (grid : Grid)
  (gridSize x y : Z) (c : RailConnection) :
  getAdjacentRail grid gridSize x y = Ret c ->
  (2 <= connectionCount c)%nat ->
  exists d',
    pickNextDirection d grid gridSize x y = Ret (Some d') /\
    connected c d' = true /\
    d' <> OPPOSITE_DIRECTION d /\
    railOrStation grid gridSize (fst (ahead x y d')) (snd (ahead x y d'))
    = Ret true.
Proof.
  intros Hc Hn.
  destruct (pickNextDirection_by_cases d grid gridSize x y c
              (fun r => exists d', r = Some d' /\ connected c d' = true /\
                                   d' <> OPPOSITE_DIRECTION d) Hc)
    as (r & Hr & d' & -> & Hlive & Hfwd).
  { intros r. destruct c as [[] [] [] []]; cbv in Hn; try lia;
      destruct d; simpl; intros H; injection H as <-;
      eexists; (split; [reflexivity|]); split;
      solve [reflexivity | discriminate]. }
  exists d'. split; [exact Hr|]. split; [exact Hlive|]. split; [exact Hfwd|].
  rewrite (getAdjacentRail_ahead grid gridSize x y c d' Hc), Hlive.
  reflexivity.
Qed.

Lemma pickNextDirection_keeps_going_witness :
  exists d',
    pickNextDirection dNorth loopGrid 4 0 0 = Ret (Some d') /\
    d' <> dSouth /\
    railOrStation loopGrid 4 (fst (ahead 0 0 d')) (snd (ahead 0 0 d'))
    = Ret true.
Proof.
  destruct (pickNextDirection_keeps_going dNorth loopGrid 4 0 0
              (mkConn false false true true))
    as (d' & H1 & _ & H3 & H4); [reflexivity | cbv; lia |].
  exists d'. auto.
Defined.

(** X7. On a straight, a T-junction or a crossing the train keeps its
    heading whenever the connection straight ahead is live: it turns at
    curves only. *)
Theorem pickNextDirection_straight_through (d : CarDirection) (grid : Grid)
  (gridSize x y : Z) (c : RailConnection) :
  getAdjacentRail grid gridSize x y = Ret c ->
  (2 <= connectionCount c)%nat ->
  isCurve (getTrackType c) = false ->
  connected c d = true ->
  pickNextDirection d grid gridSize x y = Ret (Some d).
Proof.
  intros Hc Hn Hcurve Hlive.
  destruct (pickNextDirection_by_cases d grid gridSize x y c
              (fun r => r = Some d) Hc) as (r & Hr & ->); [|exact Hr].
  intros r. destruct c as [[] [] [] []]; cbv in Hn; try lia;
    simpl in Hcurve; try discriminate Hcurve;
    destruct d; simpl in Hlive; try discriminate Hlive;
    simpl; intros H; injection H as <-; reflexivity.
Qed.

Lemma pickNextDirection_straight_through_witness :
  pickNextDirection dWest loopGrid 4 0 1 = Ret (Some dWest).
Proof.
  apply (pickNextDirection_straight_through dWest loopGrid 4 0 1
           (mkConn false true false true));
    solve [reflexivity | cbv; lia].
Defined.

(** X8. Reversing a heading is an involution that reverses the step of
    [DIRECTION_META] and changes the track side: trains running in
    opposite directions never use the same track of the double track. *)
Theorem opposite_direction_reverses (d : CarDirection) :
  OPPOSITE_DIRECTION (OPPOSITE_DIRECTION d) = d /\
  OPPOSITE_DIRECTION d <> d /\
  step (OPPOSITE_DIRECTION d) = (- fst (step d), - snd (step d)) /\
  getTrackSide (OPPOSITE_DIRECTION d) = 1 - getTrackSide d.
Proof. destruct d; repeat split; discriminate. Qed.

(** X9. [getDirectionToTile] inverts the step of [DIRECTION_META]: the
    direction from a tile to the tile one step ahead in heading [d] is
    [d], and a direction is found only between such tiles. *)
Theorem getDirectionToTile_inverts_step (fromX fromY toX toY : Z)
  (d : CarDirection) :
  getDirectionToTile fromX fromY toX toY = Some d <->
  (toX, toY) = ahead fromX fromY d.
Proof.
  unfold getDirectionToTile, ahead. split.
  - destruct (Z.eqb_spec (toX - fromX) (-1)); destruct (Z.eqb_spec (toY - fromY) 0);
      simpl; [intros H; injection H as <-; simpl; f_equal; lia| | |];
      (destruct (Z.eqb_spec (toX - fromX) 1); simpl;
       [try (intros H; injection H as <-; simpl; f_equal; lia)|]);
      (destruct (Z.eqb_spec (toX - fromX) 0); simpl;
       [destruct (Z.eqb_spec (toY - fromY) (-1)); simpl;
        [intros H; injection H as <-; simpl; f_equal; lia|];
        destruct (Z.eqb_spec (toY - fromY) 1); simpl;
        [intros H; injection H as <-; simpl; f_equal; lia|discriminate]
       |try discriminate]).
  - intros H. injection H as -> ->.
    destruct d; simpl;
      repeat match goal with
             | |- context [?a =? ?b] =>
                 let E := fresh in destruct (Z.eqb_spec a b) as [E|E];
                 try lia; simpl
             end; reflexivity.
Qed.

(** X10. The curve parameters are defined exactly for the two headings
    that lead out of a curve tile along one of its connections, and entry
    and exit are then the two ends of the curve; on every other track type
    there are none. *)
Theorem curve_traversal_defined_on_connections (c : RailConnection)
  (d : CarDirection) :
  (isCurve (getTrackType c) = true ->
   (getCurveTraversalDirection (getTrackType c) d <> None <->
    connected c d = true)) /\
  (isCurve (getTrackType c) = false ->
   getCurveTraversalDirection (getTrackType c) d = None) /\
  (forall entryT exitT,
      getCurveTraversalDirection (getTrackType c) d = Some (entryT, exitT) ->
      (entryT, exitT) = (0, 1)%Q \/ (entryT, exitT) = (1, 0)%Q).
Proof.
  split; [|split].
  - destruct c as [[] [] [] []]; simpl; try discriminate; intros _;
      destruct d; simpl; split; intros H;
      solve [reflexivity | discriminate | congruence | exfalso; apply H; reflexivity].
  - destruct c as [[] [] [] []]; simpl; try discriminate; intros _;
      reflexivity.
  - intros entryT exitT.
    destruct c as [[] [] [] []]; simpl; try discriminate;
      destruct d; simpl; try discriminate; intros H; injection H as <- <-;
      auto.
Qed.

End HeadingMore.

(** ** More on the train movement *)

Module MovementMore.
Import Rail Trains Scenarios MoreScenarios OracleFacts TrainFacts DeadEndFacts
       PathFacts OracleMore HeadingMore.

Local Open Scope Q_scope.

(** One round of the tile-crossing loop. *)
Lemma moveLoop_round (fuel : nat) (grid : Grid) (gridSize : Z) (train : Train) :
  Qle_bool 1 (progress train) = true ->
  moveLoop (S fuel) grid gridSize train =
  (valid <- railOrStation grid gridSize
              (fst (ahead (tileX train) (tileY train) (direction train)))
              (snd (ahead (tileX train) (tileY train) (direction train))) ;;
   if negb valid then
     altDir <- pickNextDirection (direction train) grid gridSize
                 (tileX train) (tileY train) ;;
     match altDir with
     | None =>
         Ret (setProgress
                (setDirection train (OPPOSITE_DIRECTION (direction train)))
                (1 # 2))
     | Some d => Ret (setProgress (setDirection train d) (1 # 10))
     end
   else
     s <- isRailStationTile grid gridSize
            (fst (ahead (tileX train) (tileY train) (direction train)))
            (snd (ahead (tileX train) (tileY train) (direction train))) ;;
     nextDir <- pickNextDirection (direction train) grid gridSize
                  (fst (ahead (tileX train) (tileY train) (direction train)))
                  (snd (ahead (tileX train) (tileY train) (direction train))) ;;
     moveLoop fuel grid gridSize
       (advance train
          (fst (ahead (tileX train) (tileY train) (direction train)))
          (snd (ahead (tileX train) (tileY train) (direction train)))
          s nextDir)).
Proof.
  intros H. rewrite (moveLoop_step fuel grid gridSize train H).
  reflexivity.
Qed.

(** A property of trains that the bounce and the advance keep is kept by
    the loop. *)
Lemma moveLoop_keeps (I : Train -> Prop) (grid : Grid) (gridSize : Z) :
  (forall t d p, I t -> I (setProgress (setDirection t d) p)) ->
  (forall t s nd,
      I t ->
      railOrStation grid gridSize
        (fst (ahead (tileX t) (tileY t) (direction t)))
        (snd (ahead (tileX t) (tileY t) (direction t))) = Ret true ->
      I (advance t (fst (ahead (tileX t) (tileY t) (direction t)))
                 (snd (ahead (tileX t) (tileY t) (direction t))) s nd)) ->
  forall (fuel : nat) (t t' : Train),
    I t -> moveLoop fuel grid gridSize t = Ret t' -> I t'.
Proof.
  intros Hbounce Hadv. induction fuel as [|fuel IH]; intros t t' Ht H.
  - simpl in H. destruct (Qle_bool 1 (progress t)); [discriminate|].
    injection H as <-. exact Ht.
  - destruct (Qle_bool 1 (progress t)) eqn:E.
    + rewrite (moveLoop_round fuel grid gridSize t E) in H.
      apply bind_Ret_inv in H. destruct H as (valid & Hvalid & H).
      destruct valid; simpl in H.
      * apply bind_Ret_inv in H. destruct H as (s & _ & H).
        apply bind_Ret_inv in H. destruct H as (nd & _ & H).
        apply (IH _ t' (Hadv t s nd Ht Hvalid) H).
      * apply bind_Ret_inv in H. destruct H as (alt & _ & H).
        destruct alt; injection H as <-; apply Hbounce; exact Ht.
    + rewrite moveLoop_exit in H by assumption. injection H as <-. exact Ht.
Qed.

(** The carriage step keeps the type and the colour of every carriage. *)
Lemma followCarriages_makeup (train : Train) :
  forall (cs cs' : list TrainCarriage) (i : Z),
    followCarriages train i cs = Ret cs' ->
    map carType cs' = map carType cs /\ map carColor cs' = map carColor cs.
Proof.
  induction cs as [|c cs IH]; intros cs' i H; simpl in H.
  - injection H as <-. auto.
  - apply bind_Ret_inv in H. destruct H as (c1 & Hc1 & H).
    apply bind_Ret_inv in H. destruct H as (rest & Hrest & H).
    injection H as <-. destruct (IH rest (i + 1)%Z Hrest) as [Ht Hcol].
    assert (carType c1 = carType c /\ carColor c1 = carColor c) as [E1 E2].
    { unfold followCarriage in Hc1. destruct (i =? 0)%Z.
      - injection Hc1 as <-. auto.
      - apply bind_Ret_inv in Hc1. destruct Hc1 as (s & _ & Hc1).
        apply bind_Ret_inv in Hc1. destruct Hc1 as (s' & _ & Hc1).
        injection Hc1 as <-. auto. }
    simpl. rewrite E1, E2, Ht, Hcol. auto.
Qed.

Lemma advance_makeup (t : Train) (x y : Z) (s : bool)
  (nd : option CarDirection) :
  sameMakeup t (advance t x y s nd) /\
  age (advance t x y s nd) = age t.
Proof.
  unfold sameMakeup, advance. cbv zeta.
  destruct (s && TrainType_eqb _ _); destruct nd; simpl;
    match goal with
    | |- context [if ?c then _ else _] => destruct c
    end; simpl; repeat split; reflexivity.
Qed.

(** X11. A tick never changes the make-up of a train: whatever
    [updateTrain] returns, the train has the same id, type, speed, maximum
    age and colour, and as many carriages of the same types and colours,
    in the same order. *)
Theorem updateTrain_keeps_makeup (train train' : Train)
  (delta speedMultiplier : Q) (grid : Grid) (gridSize : Z) (b : bool) :
  updateTrain train delta speedMultiplier grid gridSize = Ret (b, train') ->
  sameMakeup train train' /\
  List.length (carriages train') = List.length (carriages train).
Proof.
  intros H.
  assert (M : sameMakeup train train').
  { unfold updateTrain in H. cbv zeta in H.
    destruct (Qlt_bool _ _).
    { injection H as <- <-. repeat split; reflexivity. }
    simpl in H. destruct (atStation train).
    { injection H as <- <-.
      destruct (Qle_bool _ _); repeat split; reflexivity. }
    apply bind_Ret_inv in H. destruct H as (valid & _ & H).
    destruct valid; simpl in H.
    2:{ injection H as <- <-. repeat split; reflexivity. }
    apply bind_Ret_inv in H. destruct H as (t1 & Hloop & H).
    apply bind_Ret_inv in H. destruct H as (t2 & Hcar & H).
    injection H as <- <-.
    apply (moveLoop_keeps (sameMakeup train)) in Hloop.
    - unfold updateCarriagePositions in Hcar.
      apply bind_Ret_inv in Hcar. destruct Hcar as (cs & Hcs & Hcar).
      injection Hcar as <-.
      destruct (followCarriages_makeup t1 _ _ _ Hcs) as [Ht Hc].
      destruct Hloop as (H1 & H2 & H3 & H4 & H5 & H6 & H7).
      repeat split; simpl; congruence.
    - intros t d p Ht. exact Ht.
    - intros t s nd (H1 & H2 & H3 & H4 & H5 & H6 & H7) _.
      destruct (advance_makeup t
                  (fst (ahead (tileX t) (tileY t) (direction t)))
                  (snd (ahead (tileX t) (tileY t) (direction t))) s nd)
        as [(A1 & A2 & A3 & A4 & A5 & A6 & A7) _].
      repeat split; congruence.
    - repeat split; reflexivity. }
  split; [exact M|].
  destruct M as (_ & _ & _ & _ & _ & Ht & _).
  rewrite <- (length_map carType (carriages train')), Ht, length_map.
  reflexivity.
Qed.

Lemma updateTrain_keeps_makeup_witness :
  exists train',
    updateTrain bounceTrain 1 1 terminusGrid 3 = Ret (true, train') /\
    sameMakeup bounceTrain train' /\
    List.length (carriages train') = 2%nat.
Proof.
  eexists. split; [reflexivity|].
  apply (updateTrain_keeps_makeup bounceTrain _ 1 1 terminusGrid 3 true).
  reflexivity.
Defined.

(** *** The path history *)

Lemma tl_snoc (p : list Coord) (v d : Coord) :
  p <> [] ->
  tl (p ++ [v]) <> [] /\
  List.length (tl (p ++ [v])) = List.length p /\
  last (tl (p ++ [v])) d = v.
Proof.
  intros Hp. destruct p as [|a p]; [contradiction|]. simpl.
  split; [destruct p; discriminate|].
  split; [rewrite length_app; simpl; lia|]. apply last_last.
Qed.

Lemma advance_path_nonempty (t : Train) (x y : Z) (s : bool)
  (nd : option CarDirection) :
  path t <> [] -> path (advance t x y s nd) <> [].
Proof.
  intros Hp. unfold advance. cbv zeta.
  destruct (s && TrainType_eqb _ _); destruct nd; simpl;
    match goal with
    | |- context [if ?c then _ else _] => destruct c
    end; simpl;
    solve [apply (tl_snoc (path t) (x, y) (0, 0)%Z Hp)
          | destruct (path t); discriminate].
Qed.

Lemma advance_history (t : Train) (x y : Z) (s : bool)
  (nd : option CarDirection) :
  historyOk t -> historyOk (advance t x y s nd).
Proof.
  intros (Hne & Hlen & Hidx & _).
  destruct (tl_snoc (path t) (x, y) (0, 0)%Z Hne) as (T1 & T2 & T3).
  assert (L : List.length (path t ++ [(x, y)]) = S (List.length (path t))).
  { rewrite length_app. simpl. lia. }
  unfold historyOk, advance. cbv zeta. unfold Coord in *.
  destruct (s && TrainType_eqb _ _); destruct nd; simpl;
    match goal with
    | |- context [if (?a >? ?b)%Z then _ else _] =>
        destruct (Z.gtb_spec a b) as [C|C]
    end; simpl; rewrite ?T2, ?T3, ?L, ?last_last;
    rewrite L in C;
    repeat split; try assumption; try lia;
    try (destruct (path t); discriminate).
Qed.

(** X12. A tick keeps the path history in shape: if it is not empty, holds
    at most 80 tiles, ends on the lead tile and [pathIndex] points at its
    last entry, the same is true after [updateTrain], whatever it
    returns. *)
Theorem updateTrain_keeps_history (train train' : Train)
  (delta speedMultiplier : Q) (grid : Grid) (gridSize : Z) (b : bool) :
  historyOk train ->
  updateTrain train delta speedMultiplier grid gridSize = Ret (b, train') ->
  historyOk train'.
Proof.
  intros Hok H. unfold updateTrain in H. cbv zeta in H.
  destruct (Qlt_bool _ _).
  { injection H as <- <-. exact Hok. }
  simpl in H. destruct (atStation train).
  { injection H as <- <-. destruct (Qle_bool _ _); exact Hok. }
  apply bind_Ret_inv in H. destruct H as (valid & _ & H).
  destruct valid; simpl in H.
  2:{ injection H as <- <-. exact Hok. }
  apply bind_Ret_inv in H. destruct H as (t1 & Hloop & H).
  apply bind_Ret_inv in H. destruct H as (t2 & Hcar & H).
  injection H as <- <-.
  apply updateCarriagePositions_frame in Hcar. destruct Hcar as [cs ->].
  apply (moveLoop_keeps historyOk) in Hloop.
  - exact Hloop.
  - intros t d p Ht. exact Ht.
  - intros t s nd Ht _. apply advance_history. exact Ht.
  - exact Hok.
Qed.

Lemma updateTrain_keeps_history_witness :
  exists train',
    updateTrain expressTrain 1 1 loopGrid 4 = Ret (true, train') /\
    path train' = [(0, 0); (1, 0); (2, 0)]%Z /\ historyOk train'.
Proof.
  eexists. split; [vm_compute; reflexivity|]. split; [reflexivity|].
  apply (updateTrain_keeps_history expressTrain _ 1 1 loopGrid 4 true).
  - unfold historyOk. simpl. repeat split; try lia. discriminate.
  - vm_compute. reflexivity.
Defined.

(** X13. A moving train stays on the rails: when [updateTrain] returns
    [true] for a train that was not waiting at a station, the lead tile it
    leaves the train on carries rail or belongs to a station. *)
Theorem updateTrain_stays_on_rail (train train' : Train)
  (delta speedMultiplier : Q) (grid : Grid) (gridSize : Z) :
  atStation train = false ->
  updateTrain train delta speedMultiplier grid gridSize = Ret (true, train') ->
  railOrStation grid gridSize (tileX train') (tileY train') = Ret true.
Proof.
  intros Hst H. unfold updateTrain in H. cbv zeta in H.
  destruct (Qlt_bool _ _); [discriminate|].
  simpl in H. rewrite Hst in H.
  apply bind_Ret_inv in H. destruct H as (valid & Hvalid & H).
  destruct valid; simpl in H; [|discriminate].
  apply bind_Ret_inv in H. destruct H as (t1 & Hloop & H).
  apply bind_Ret_inv in H. destruct H as (t2 & Hcar & H).
  injection H as <-.
  apply updateCarriagePositions_frame in Hcar. destruct Hcar as [cs ->].
  apply (moveLoop_keeps
           (fun t => railOrStation grid gridSize (tileX t) (tileY t) = Ret true))
    in Hloop.
  - exact Hloop.
  - intros t d p Ht. exact Ht.
  - intros t s nd _ Hnew. unfold advance. cbv zeta.
    destruct (s && TrainType_eqb _ _); destruct nd; simpl;
      match goal with
      | |- context [if ?c then _ else _] => destruct c
      end; simpl; exact Hnew.
  - exact Hvalid.
Qed.

Lemma updateTrain_stays_on_rail_witness :
  exists train',
    updateTrain expressTrain 1 1 loopGrid 4 = Ret (true, train') /\
    (tileX train', tileY train') = (2, 0)%Z /\
    railOrStation loopGrid 4 (tileX train') (tileY train') = Ret true.
Proof.
  eexists. split; [vm_compute; reflexivity|]. split; [reflexivity|].
  apply (updateTrain_stays_on_rail expressTrain _ 1 1 loopGrid 4);
    vm_compute; reflexivity.
Defined.

(** X14. Freight trains never dwell: a freight train that is not at a
    station is not at a station after a tick, whatever tiles it crossed. *)
Theorem freight_never_dwells (train train' : Train)
  (delta speedMultiplier : Q) (grid : Grid) (gridSize : Z) (b : bool) :
  trainType train = freightTrain -> atStation train = false ->
  updateTrain train delta speedMultiplier grid gridSize = Ret (b, train') ->
  atStation train' = false.
Proof.
  intros Hty Hst H. unfold updateTrain in H. cbv zeta in H.
  destruct (Qlt_bool _ _).
  { injection H as <- <-. exact Hst. }
  simpl in H. rewrite Hst in H.
  apply bind_Ret_inv in H. destruct H as (valid & _ & H).
  destruct valid; simpl in H.
  2:{ injection H as <- <-. exact Hst. }
  apply bind_Ret_inv in H. destruct H as (t1 & Hloop & H).
  apply bind_Ret_inv in H. destruct H as (t2 & Hcar & H).
  injection H as <- <-.
  apply updateCarriagePositions_frame in Hcar. destruct Hcar as [cs ->].
  apply (moveLoop_keeps
           (fun t => trainType t = freightTrain /\ atStation t = false))
    in Hloop.
  - exact (proj2 Hloop).
  - intros t d p Ht. exact Ht.
  - intros t s nd [T1 T2] _. unfold advance. cbv zeta. simpl.
    rewrite T1. simpl. rewrite andb_false_r.
    destruct nd; simpl;
      match goal with
      | |- context [if ?c then _ else _] => destruct c
      end; simpl; auto.
  - split; [exact Hty|exact Hst].
Qed.

Lemma freight_never_dwells_witness :
  exists train',
    updateTrain expressTrain 1 1 loopGrid 4 = Ret (true, train') /\
    atStation train' = false.
Proof.
  eexists. split; [vm_compute; reflexivity|].
  apply (freight_never_dwells expressTrain _ 1 1 loopGrid 4 true);
    vm_compute; reflexivity.
Defined.

(** *** When a train is removed *)

Lemma pickNextDirection_defined (d : CarDirection) (grid : Grid)
  (gridSize x y : Z) :
  squareGrid grid gridSize ->
  exists r, pickNextDirection d grid gridSize x y = Ret r.
Proof.
  intros Hsq. destruct (getAdjacentRail_defined grid gridSize x y Hsq) as [c Hc].
  destruct (pickNextDirection_by_cases d grid gridSize x y c (fun _ => True) Hc)
    as (r & Hr & _); [auto|]. eauto.
Qed.

(** On a square grid the tile-crossing loop returns. *)
Lemma moveLoop_returns (grid : Grid) (gridSize : Z) :
  squareGrid grid gridSize ->
  forall (fuel : nat) (train : Train),
    progress train < inject_Z (Z.of_nat fuel) + 1 ->
    exists train', moveLoop fuel grid gridSize train = Ret train'.
Proof.
  intros Hsq. induction fuel as [|fuel IH]; intros train Hlt.
  - simpl. destruct (Qle_bool 1 (progress train)) eqn:E; [|eauto].
    apply Qle_bool_iff in E. change (inject_Z (Z.of_nat 0)) with 0 in Hlt.
    exfalso. lra.
  - destruct (Qle_bool 1 (progress train)) eqn:E.
    + rewrite (moveLoop_round fuel grid gridSize train E).
      destruct (railOrStation_defined grid gridSize
                  (fst (ahead (tileX train) (tileY train) (direction train)))
                  (snd (ahead (tileX train) (tileY train) (direction train)))
                  Hsq) as [valid ->].
      destruct valid; cbn [bind negb].
      * destruct (isRailStationTile_defined grid gridSize
                    (fst (ahead (tileX train) (tileY train) (direction train)))
                    (snd (ahead (tileX train) (tileY train) (direction train)))
                    Hsq) as [s ->].
        destruct (pickNextDirection_defined (direction train) grid gridSize
                    (fst (ahead (tileX train) (tileY train) (direction train)))
                    (snd (ahead (tileX train) (tileY train) (direction train)))
                    Hsq) as [nd ->].
        cbn [bind]. apply IH.
        assert (P : progress train - 1 < inject_Z (Z.of_nat fuel) + 1).
        { rewrite Nat2Z.inj_succ in Hlt. unfold Z.succ in Hlt.
          rewrite inject_Z_plus in Hlt.
          change (inject_Z 1) with 1 in Hlt. lra. }
        unfold advance. cbv zeta.
        destruct (s && TrainType_eqb _ _); destruct nd; simpl;
          match goal with
          | |- context [if ?c then _ else _] => destruct c
          end; simpl; exact P.
      * destruct (pickNextDirection_defined (direction train) grid gridSize
                    (tileX train) (tileY train) Hsq) as [alt ->].
        cbn [bind]. destruct alt; eauto.
    + rewrite moveLoop_exit by assumption. eauto.
Qed.

(** X15. On a square grid [updateTrain] always returns, and it asks for
    the removal of the train in two cases only: the train has outlived
    [maxAge], or it is not waiting at a station and its lead tile no longer
    carries rail.  A train that finds no way on is turned around, never
    removed. *)
Theorem updateTrain_removes_only_when (train : Train)
  (delta speedMultiplier : Q) (grid : Grid) (gridSize : Z) :
  squareGrid grid gridSize -> path train <> [] ->
  exists b train',
    updateTrain train delta speedMultiplier grid gridSize = Ret (b, train') /\
    (b = false <->
     (maxAge train < age train + delta * speedMultiplier \/
      (atStation train = false /\
       railOrStation grid gridSize (tileX train) (tileY train) = Ret false))).
Proof.
  intros Hsq Hpath. unfold updateTrain. cbv zeta.
  destruct (Qlt_bool (maxAge (setAge train (age train + delta * speedMultiplier)))
                     (age (setAge train (age train + delta * speedMultiplier))))
    eqn:Old.
  { simpl in Old. apply Qlt_bool_iff in Old.
    eexists. eexists. split; [reflexivity|]. tauto. }
  assert (Young : ~ maxAge train < age train + delta * speedMultiplier).
  { intros H. apply Qlt_bool_iff in H. simpl in Old. congruence. }
  cbn [atStation setAge tileX tileY].
  destruct (atStation train) eqn:St.
  { eexists. eexists. split; [reflexivity|].
    split; [discriminate|]. intros [H|[H _]]; [contradiction|discriminate]. }
  destruct (railOrStation_defined grid gridSize (tileX train) (tileY train) Hsq)
    as [valid Hvalid].
  rewrite Hvalid. cbn [bind]. destruct valid; cbn [negb].
  2:{ eexists. eexists. split; [reflexivity|]. split; auto. }
  match goal with
  | |- context [moveLoop ?f grid gridSize ?t] =>
      destruct (moveLoop_returns grid gridSize Hsq f t (moveFuel_enough _))
        as [t1 Hloop];
      assert (P1 : path t1 <> [])
  end.
  { apply (moveLoop_keeps (fun t => path t <> [])) in Hloop.
    - exact Hloop.
    - intros t d p Ht. exact Ht.
    - intros t s nd Ht _. apply advance_path_nonempty. exact Ht.
    - exact Hpath. }
  rewrite Hloop. cbn [bind].
  destruct (updateCarriagePositions_returns t1 P1) as [t2 ->]. cbn [bind].
  eexists. eexists. split; [reflexivity|].
  split; [discriminate|]. intros [H|[_ H]]; [contradiction|discriminate].
Qed.

Lemma updateTrain_removes_only_when_witness :
  exists train',
    updateTrain bounceTrain 1 1 meadowGrid 3 = Ret (false, train').
Proof.
  destruct (updateTrain_removes_only_when bounceTrain 1 1 meadowGrid 3)
    as (b & t' & Hrun & Hiff); [reflexivity | discriminate |].
  exists t'. rewrite Hrun. f_equal. f_equal. apply Hiff.
  right. split; reflexivity.
Defined.

(** *** More on the carriages *)

Lemma walkBack_setCarriages (cs : list TrainCarriage) (train : Train) :
  forall (fuel : nat) (s : Follow),
    walkBack fuel (setCarriages train cs) s = walkBack fuel train s.
Proof.
  induction fuel as [|fuel IH]; intros s; simpl; [reflexivity|].
  destruct (Qlt_bool (carriageProgress s) 0 && (pathIdx s >? 0)%Z);
    [|reflexivity].
  destruct ((pathIdx s - 1 >=? 0)%Z && _); [|apply IH].
  destruct (coordAt (path train) (pathIdx s - 1)) as [c| |]; simpl; auto.
  destruct (pathIdx s - 1 + 1 <? _)%Z; simpl; [|apply IH].
  destruct (coordAt (path train) (pathIdx s - 1 + 1)) as [c'| |]; simpl; auto.
  destruct (getDirectionToTile _ _ _ _); simpl; apply IH.
Qed.

Lemma followCarriage_setCarriages (cs : list TrainCarriage) (train : Train)
  (i : Z) (c : TrainCarriage) :
  followCarriage (setCarriages train cs) i c = followCarriage train i c.
Proof.
  unfold followCarriage. cbn [tileX tileY progress direction pathIndex path
                              setCarriages].
  rewrite walkBack_setCarriages. reflexivity.
Qed.

Lemma followCarriages_setCarriages (cs : list TrainCarriage) (train : Train) :
  forall (l : list TrainCarriage) (i : Z),
    followCarriages (setCarriages train cs) i l = followCarriages train i l.
Proof.
  induction l as [|c l IH]; intros i; simpl; [reflexivity|].
  rewrite followCarriage_setCarriages, IH. reflexivity.
Qed.

(** Running the carriage body on its own result changes nothing. *)
Lemma followCarriage_again (train : Train) (i : Z) (c c' : TrainCarriage) :
  followCarriage train i c = Ret c' -> followCarriage train i c' = Ret c'.
Proof.
  unfold followCarriage. destruct (i =? 0)%Z.
  - intros H. injection H as <-. reflexivity.
  - intros H. apply bind_Ret_inv in H. destruct H as (s & Hs & H).
    rewrite Hs. cbn [bind] in *.
    apply bind_Ret_inv in H. destruct H as (s' & Hs' & H).
    rewrite Hs'. cbn [bind]. injection H as <-. reflexivity.
Qed.

Lemma followCarriages_again (train : Train) :
  forall (cs cs' : list TrainCarriage) (i : Z),
    followCarriages train i cs = Ret cs' ->
    followCarriages train i cs' = Ret cs'.
Proof.
  induction cs as [|c cs IH]; intros cs' i H; simpl in H.
  - injection H as <-. reflexivity.
  - apply bind_Ret_inv in H. destruct H as (c1 & Hc1 & H).
    apply bind_Ret_inv in H. destruct H as (rest & Hrest & H).
    injection H as <-. simpl.
    rewrite (followCarriage_again train i c c1 Hc1). simpl.
    rewrite (IH rest (i + 1)%Z Hrest). reflexivity.
Qed.

(** The tile the walk back ends on is the one it started from or a tile of
    the path history. *)
Lemma walkBack_on_path (train : Train) (x0 y0 : Z) :
  forall (fuel : nat) (s s' : Follow),
    walkBack fuel train s = Ret s' ->
    ((carriageTileX s, carriageTileY s) = (x0, y0) \/
     In (carriageTileX s, carriageTileY s) (path train)) ->
    (carriageTileX s', carriageTileY s') = (x0, y0) \/
    In (carriageTileX s', carriageTileY s') (path train).
Proof.
  induction fuel as [|fuel IH]; intros s s' H Hs; simpl in H.
  - destruct (Qlt_bool (carriageProgress s) 0 && (pathIdx s >? 0)%Z);
      [discriminate|]. injection H as <-. exact Hs.
  - destruct (Qlt_bool (carriageProgress s) 0 && (pathIdx s >? 0)%Z).
    2:{ injection H as <-. exact Hs. }
    destruct ((pathIdx s - 1 >=? 0)%Z && _).
    2:{ apply (IH _ _ H). exact Hs. }
    apply bind_Ret_inv in H. destruct H as (c & Hc & H).
    apply bind_Ret_inv in H. destruct H as (dir & _ & H).
    apply (IH _ _ H). right. simpl.
    unfold coordAt in Hc. destruct (idx (path train) (pathIdx s - 1)) eqn:E;
      [|discriminate].
    injection Hc as <-. apply idx_In in E. destruct c0; exact E.
Qed.

(** X16. The carriage step puts every carriage on the track the train has
    run: on the lead tile or on a tile of the path history.  And it is
    idempotent: run again on its own result it changes nothing, since the
    carriages are a function of the lead state and the path history. *)
Theorem carriages_follow_the_track (train train' : Train) :
  updateCarriagePositions train = Ret train' ->
  (forall c, In c (carriages train') ->
             (carTileX c, carTileY c) = (tileX train, tileY train) \/
             In (carTileX c, carTileY c) (path train)) /\
  updateCarriagePositions train' = Ret train'.
Proof.
  unfold updateCarriagePositions. intros H.
  apply bind_Ret_inv in H. destruct H as (cs & Hcs & H). injection H as <-.
  split.
  - simpl. clear -Hcs. revert cs Hcs. generalize 0%Z.
    induction (carriages train) as [|c0 l IH]; intros i cs H c Hin;
      simpl in H.
    + injection H as <-. contradiction.
    + apply bind_Ret_inv in H. destruct H as (c1 & Hc1 & H).
      apply bind_Ret_inv in H. destruct H as (rest & Hrest & H).
      injection H as <-. destruct Hin as [<-|Hin].
      2:{ exact (IH _ _ Hrest c Hin). }
      unfold followCarriage in Hc1. destruct (i =? 0)%Z.
      { injection Hc1 as <-. left. reflexivity. }
      apply bind_Ret_inv in Hc1. destruct Hc1 as (s & Hs & Hc1).
      apply (walkBack_on_path train (tileX train) (tileY train)) in Hs;
        [|left; reflexivity].
      destruct (negb (foundValidPosition s) && Qlt_bool (carriageProgress s) 0).
      * apply bind_Ret_inv in Hc1. destruct Hc1 as (s' & Hs' & Hc1).
        apply bind_Ret_inv in Hs'. destruct Hs' as (sp & Hsp & Hs').
        injection Hs' as <-. injection Hc1 as <-. simpl. right.
        unfold coordAt in Hsp. destruct (idx (path train) 0) eqn:E;
          [|discriminate].
        injection Hsp as <-. apply idx_In in E. destruct c; exact E.
      * simpl in Hc1. injection Hc1 as <-. simpl. exact Hs.
  - cbn [carriages setCarriages].
    rewrite followCarriages_setCarriages.
    rewrite (followCarriages_again train _ _ _ Hcs). reflexivity.
Qed.

Lemma carriages_follow_the_track_witness :
  exists train',
    updateCarriagePositions bounceTrain = Ret train' /\
    (forall c, In c (carriages train') ->
               (carTileX c, carTileY c) = (1, 1)%Z \/
               In (carTileX c, carTileY c) (path bounceTrain)) /\
    updateCarriagePositions train' = Ret train'.
Proof.
  eexists. split; [reflexivity|].
  apply (carriages_follow_the_track bounceTrain). reflexivity.
Defined.

End MovementMore.

(** ** More on the train spawning *)

Module SpawnMore.
Import Rail Trains Scenarios MoreScenarios OracleFacts TrainFacts DeadEndFacts
       SpawnFacts PathFacts OracleMore HeadingMore MovementMore.

Local Open Scope Q_scope.

(** *** The spawn monad *)

Lemma bindS_inv {A B : Type} (m : Spawn A) (k : A -> Spawn B)
  (st st' : SpawnState) (b : B) :
  bindS m k st = Ret (b, st') ->
  exists a st1, m st = Ret (a, st1) /\ k a st1 = Ret (b, st').
Proof.
  unfold bindS. destruct (m st) as [[a st1]| |]; try discriminate. eauto.
Qed.

Lemma liftS_inv {A : Type} (m : Res A) (st st' : SpawnState) (a : A) :
  liftS m st = Ret (a, st') -> m = Ret a /\ st' = st.
Proof.
  unfold liftS. destruct m; simpl; try discriminate.
  intros H. injection H as <- <-. auto.
Qed.

(** [Math.floor(r * n)] is an index below [n] when [r] is drawn from the
    unit interval. *)
Lemma floorTimes_range (r : Q) (n : Z) :
  0 <= r -> r < 1 -> (0 < n)%Z -> (0 <= floorTimes r n < n)%Z.
Proof.
  intros H0 H1 Hn. unfold floorTimes.
  assert (Pn : 0 < inject_Z n).
  { change 0 with (inject_Z 0). rewrite <- Zlt_Qlt. exact Hn. }
  split.
  - change 0%Z with (Qfloor 0). apply Qfloor_resp_le.
    apply Qmult_le_0_compat; [exact H0|apply Qlt_le_weak; exact Pn].
  - assert (L : r * inject_Z n < inject_Z n).
    { setoid_replace (inject_Z n) with (1 * inject_Z n) at 2 by ring.
      apply Qmult_lt_compat_r; assumption. }
    pose proof (Qfloor_le (r * inject_Z n)) as F.
    rewrite Zlt_Qlt. eapply Qle_lt_trans; eauto.
Qed.

Lemma pickRandom_run {A : Type} (rnd : RandomSource) (l : list A)
  (st : SpawnState) :
  l <> [] ->
  exists a,
    In a l /\
    pickRandom rnd l st = Ret (a, mkSpawnState (S (draws st)) (current st)).
Proof.
  intros Hl. unfold pickRandom, bindS, random.
  destruct (draw_range rnd (draws st)) as [R0 R1].
  assert (Hn : (0 < Z.of_nat (List.length l))%Z).
  { destruct l; [contradiction|]. simpl. lia. }
  pose proof (floorTimes_range _ _ R0 R1 Hn) as Hi.
  destruct (idx_Some l _ Hi) as [a Ha]. rewrite Ha.
  exists a. split; [exact (idx_In _ _ _ Ha)|reflexivity].
Qed.

Lemma pickRandom_inv {A : Type} (rnd : RandomSource) (l : list A)
  (st st' : SpawnState) (a : A) :
  pickRandom rnd l st = Ret (a, st') ->
  In a l /\ st' = mkSpawnState (S (draws st)) (current st).
Proof.
  unfold pickRandom, bindS, random.
  destruct (idx l _) as [a'|] eqn:E; [|discriminate].
  intros H. injection H as <- <-. split; [exact (idx_In _ _ _ E)|reflexivity].
Qed.

(** The number of carriages drawn for a train of [lo] to [lo + 3] or
    [lo + 4] carriages. *)
Lemma carriage_count_range (rnd : RandomSource) (n : nat) (lo span : Z) :
  (0 < span)%Z ->
  (lo <= lo + floorTimes (draw rnd n) span < lo + span)%Z.
Proof.
  intros Hs. destruct (draw_range rnd n) as [R0 R1].
  pose proof (floorTimes_range _ _ R0 R1 Hs). lia.
Qed.

(** A property of the state that each round of a loop keeps is kept by
    the loop. *)
Lemma forEachM_keeps {S D : Type} (I : S -> Prop) (body : S -> D -> Res S) :
  (forall s d s', I s -> body s d = Ret s' -> I s') ->
  forall (l : list D) (s s' : S),
    I s -> forEachM body l s = Ret s' -> I s'.
Proof.
  intros Hbody. induction l as [|d l IH]; intros s s' Hs H; simpl in H.
  - injection H as <-. exact Hs.
  - apply bind_Ret_inv in H. destruct H as (s1 & H1 & H).
    exact (IH s1 s' (Hbody s d s1 Hs H1) H).
Qed.

(** *** The trains that are created *)

Lemma length_bodyIndices (n : Z) :
  List.length (bodyIndices n) = Z.to_nat (n - 2).
Proof.
  unfold bodyIndices, range. rewrite !length_map, length_seq. reflexivity.
Qed.

Lemma createPassengerTrain_run (rnd : RandomSource) (id x y : Z)
  (d : CarDirection) (st : SpawnState) :
  exists (t : Train) (n : Z) (loco cab : TrainCarriage)
         (body : list TrainCarriage),
    createPassengerTrain rnd id x y d st
    = Ret (t, mkSpawnState (5 + draws st) (current st)) /\
    (5 <= n <= 8)%Z /\
    carriages t = loco :: body ++ [cab] /\
    List.length (carriages t) = Z.to_nat n /\
    (carType loco = locomotive /\ carProgress loco = 0 /\
     In (carColor loco) LOCOMOTIVE_COLORS /\ color t = carColor loco) /\
    (exists col, In col PASSENGER_COLORS /\
                 Forall2 (passengerCar col) (bodyIndices n) body) /\
    (carType cab = caboose /\ carColor cab = carColor loco /\
     carProgress cab = - inject_Z (n - 1) * CARRIAGE_SPACING) /\
    freshTrain t id passengerTrain x y d /\
    (25 # 100 <= speed t /\ speed t <= 35 # 100) /\
    (60 <= maxAge t /\ maxAge t <= 90).
Proof.
  unfold createPassengerTrain.
  set (n := (PASSENGER_MIN
             + floorTimes (draw rnd (draws st))
                          (PASSENGER_MAX - PASSENGER_MIN + 1))%Z).
  assert (Hn : (5 <= n <= 8)%Z).
  { pose proof (carriage_count_range rnd (draws st) 5 4 ltac:(lia)) as H.
    unfold n, PASSENGER_MIN, PASSENGER_MAX.
    change (8 - 5 + 1)%Z with 4%Z. lia. }
  unfold bindS at 1. cbn [random]. fold n.
  destruct (pickRandom_run rnd LOCOMOTIVE_COLORS
              (mkSpawnState (S (draws st)) (current st)))
    as (lc & Hlc & Elc); [discriminate|].
  unfold bindS at 1. rewrite Elc. cbn [draws current].
  destruct (pickRandom_run rnd PASSENGER_COLORS
              (mkSpawnState (S (S (draws st))) (current st)))
    as (pc & Hpc & Epc); [discriminate|].
  unfold bindS at 1. rewrite Epc. cbn [draws current].
  destruct (Z.gtb_spec n 1) as [_|]; [|lia].
  unfold bindS, random, retS. cbn [draws current].
  destruct (draw_range rnd (S (S (S (draws st))))) as [S0 S1].
  destruct (draw_range rnd (S (S (S (S (draws st)))))) as [A0 A1].
  eexists. exists n. eexists. eexists. eexists.
  split; [reflexivity|]. split; [exact Hn|].
  split; [cbn [carriages app]; reflexivity|].
  split.
  { cbn [carriages app List.length].
    rewrite length_app, length_map, length_bodyIndices.
    cbn [List.length]. lia. }
  split; [split; [reflexivity|split; [reflexivity|split; [exact Hlc|reflexivity]]]|].
  split.
  { exists pc. split; [exact Hpc|].
    induction (bodyIndices n) as [|i l IH]; simpl; constructor; auto.
    repeat split; auto. }
  split; [repeat split; reflexivity|].
  split.
  { unfold freshTrain. cbn [trainId trainType tileX tileY direction progress
                              age path pathIndex atStation carriages app].
    repeat split.
    constructor; [repeat split|].
    apply Forall_app. split.
    - apply Forall_forall. intros c Hc. apply in_map_iff in Hc.
      destruct Hc as (i & <- & _). repeat split.
    - constructor; [repeat split|constructor]. }
  cbn [speed maxAge]. unfold TRAIN_MAX_AGE. split; split; lra.
Qed.

(** X17. [createPassengerTrain] always makes a train of 5 to 8 carriages:
    a locomotive in one of the locomotive colours, which is also the colour
    of the train, passenger cars that all have the one passenger colour
    drawn, and a tail car in the colour of the locomotive; carriage [i]
    starts with progress [-i * 0.28] on the spawn tile; the train starts at
    progress 0 with a one-tile path history, a speed from 0.25 to 0.35 and
    a maximum age from 60 to 90, the ends included; five random numbers
    are drawn and no id is taken. *)
Theorem createPassengerTrain_shape (rnd : RandomSource) (id x y : Z)
  (d : CarDirection) (st : SpawnState) :
  exists (t : Train) (n : Z) (loco cab : TrainCarriage)
         (body : list TrainCarriage),
    createPassengerTrain rnd id x y d st
    = Ret (t, mkSpawnState (5 + draws st) (current st)) /\
    (5 <= n <= 8)%Z /\
    carriages t = loco :: body ++ [cab] /\
    List.length (carriages t) = Z.to_nat n /\
    (carType loco = locomotive /\ carProgress loco = 0 /\
     In (carColor loco) LOCOMOTIVE_COLORS /\ color t = carColor loco) /\
    (exists col, In col PASSENGER_COLORS /\
                 Forall2 (passengerCar col) (bodyIndices n) body) /\
    (carType cab = caboose /\ carColor cab = carColor loco /\
     carProgress cab = - inject_Z (n - 1) * CARRIAGE_SPACING) /\
    freshTrain t id passengerTrain x y d /\
    (25 # 100 <= speed t /\ speed t <= 35 # 100) /\
    (60 <= maxAge t /\ maxAge t <= 90).
Proof. apply createPassengerTrain_run. Qed.

(** The loop over the freight cars appends one car per index, drawing two
    random numbers for each. *)
Lemma freightCars_run (rnd : RandomSource) (x y : Z) (d : CarDirection) :
  forall (indices : list Z) (acc : list TrainCarriage) (st : SpawnState),
    exists body,
      freightCars rnd x y d indices acc st
      = Ret (acc ++ body,
             mkSpawnState (2 * List.length indices + draws st) (current st))
      /\ Forall2 freightCar indices body
      /\ Forall (onSpawnTile x y d) body.
Proof.
  induction indices as [|i indices IH]; intros acc st.
  - exists []. simpl. unfold retS. rewrite app_nil_r.
    destruct st; split; [reflexivity|]. split; constructor.
  - cbn [freightCars].
    destruct (pickRandom_run rnd [freight_box; freight_tank; freight_flat] st)
      as (ty & Hty & Ety); [discriminate|].
    unfold bindS at 1. rewrite Ety.
    destruct (pickRandom_run rnd FREIGHT_COLORS
                (mkSpawnState (S (draws st)) (current st)))
      as (col & Hcol & Ecol); [discriminate|].
    unfold bindS at 1. rewrite Ecol. cbn [draws current].
    destruct (IH (acc ++ [mkCarriage ty col x y
                            (- inject_Z i * CARRIAGE_SPACING) d])
                 (mkSpawnState (S (S (draws st))) (current st)))
      as (body & Erun & Hbody & Htile).
    rewrite Erun. cbn [draws current].
    exists (mkCarriage ty col x y (- inject_Z i * CARRIAGE_SPACING) d :: body).
    split.
    + rewrite <- app_assoc. f_equal. f_equal. f_equal. simpl. lia.
    + split; constructor; auto; repeat split; auto.
Qed.

Lemma createFreightTrain_run (rnd : RandomSource) (id x y : Z)
  (d : CarDirection) (st : SpawnState) :
  exists (t : Train) (n : Z) (loco cab : TrainCarriage)
         (body : list TrainCarriage),
    createFreightTrain rnd id x y d st
    = Ret (t, mkSpawnState (Z.to_nat (2 * n) + draws st) (current st)) /\
    (6 <= n <= 10)%Z /\
    carriages t = loco :: body ++ [cab] /\
    List.length (carriages t) = Z.to_nat n /\
    (carType loco = locomotive /\ carProgress loco = 0 /\
     In (carColor loco) LOCOMOTIVE_COLORS /\ color t = carColor loco) /\
    Forall2 freightCar (bodyIndices n) body /\
    (carType cab = caboose /\ carColor cab = "#8B0000"%string /\
     carProgress cab = - inject_Z (n - 1) * CARRIAGE_SPACING) /\
    freshTrain t id freightTrain x y d /\
    0 < speed t /\
    (60 <= maxAge t /\ maxAge t <= 100).
Proof.
  unfold createFreightTrain.
  set (n := (FREIGHT_MIN
             + floorTimes (draw rnd (draws st))
                          (FREIGHT_MAX - FREIGHT_MIN + 1))%Z).
  assert (Hn : (6 <= n <= 10)%Z).
  { pose proof (carriage_count_range rnd (draws st) 6 5 ltac:(lia)) as H.
    unfold n, FREIGHT_MIN, FREIGHT_MAX.
    change (10 - 6 + 1)%Z with 5%Z. lia. }
  unfold bindS at 1. cbn [random]. fold n.
  destruct (pickRandom_run rnd LOCOMOTIVE_COLORS
              (mkSpawnState (S (draws st)) (current st)))
    as (lc & Hlc & Elc); [discriminate|].
  unfold bindS at 1. rewrite Elc. cbn [draws current].
  destruct (freightCars_run rnd x y d (bodyIndices n)
              [mkCarriage locomotive lc x y 0 d]
              (mkSpawnState (S (S (draws st))) (current st)))
    as (body & Erun & Hbody & Htile).
  unfold bindS at 1. rewrite Erun. cbn [draws current].
  destruct (Z.gtb_spec n 1) as [_|]; [|lia].
  unfold bindS, random, retS. cbn [draws current].
  match goal with
  | |- context [draw rnd ?k] =>
      destruct (draw_range rnd k) as [S0 S1];
      destruct (draw_range rnd (S k)) as [A0 A1]
  end.
  pose proof (Forall2_length Hbody) as Lb. rewrite length_bodyIndices in Lb.
  match goal with
  | |- context [mkSpawnState (S ?X) (current st)] =>
      replace (S X) with (Z.to_nat (2 * n) + draws st)%nat
        by (rewrite length_bodyIndices; lia)
  end.
  eexists. exists n. eexists. eexists. exists body.
  split; [reflexivity|].
  split; [exact Hn|].
  split; [cbn [carriages app]; reflexivity|].
  split.
  { cbn [carriages app List.length]. rewrite length_app.
    cbn [List.length]. lia. }
  split; [split; [reflexivity|split; [reflexivity|split; [exact Hlc|reflexivity]]]|].
  split; [exact Hbody|].
  split; [repeat split; reflexivity|].
  split.
  { unfold freshTrain. cbn [trainId trainType tileX tileY direction progress
                              age path pathIndex atStation carriages app].
    repeat split.
    constructor; [repeat split|].
    apply Forall_app. split; [exact Htile|].
    constructor; [repeat split|constructor]. }
  cbn [speed maxAge]. unfold TRAIN_MAX_AGE. split; [|split]; lra.
Qed.

(** X18. [createFreightTrain] always makes a train of 6 to 10 carriages:
    a locomotive in one of the locomotive colours, which is also the colour
    of the train, body cars that are each a box, tank or flat car in a
    freight colour of their own, and a dark red caboose; carriage [i]
    starts with progress [-i * 0.28] on the spawn tile; the train has a
    positive speed and a maximum age from 60 to 100, the ends included; it
    draws two random numbers per carriage and takes no id. *)
Theorem createFreightTrain_shape (rnd : RandomSource) (id x y : Z)
  (d : CarDirection) (st : SpawnState) :
  exists (t : Train) (n : Z) (loco cab : TrainCarriage)
         (body : list TrainCarriage),
    createFreightTrain rnd id x y d st
    = Ret (t, mkSpawnState (Z.to_nat (2 * n) + draws st) (current st)) /\
    (6 <= n <= 10)%Z /\
    carriages t = loco :: body ++ [cab] /\
    List.length (carriages t) = Z.to_nat n /\
    (carType loco = locomotive /\ carProgress loco = 0 /\
     In (carColor loco) LOCOMOTIVE_COLORS /\ color t = carColor loco) /\
    Forall2 freightCar (bodyIndices n) body /\
    (carType cab = caboose /\ carColor cab = "#8B0000"%string /\
     carProgress cab = - inject_Z (n - 1) * CARRIAGE_SPACING) /\
    freshTrain t id freightTrain x y d /\
    0 < speed t /\
    (60 <= maxAge t /\ maxAge t <= 100).
Proof. apply createFreightTrain_run. Qed.

(** *** Where trains are spawned *)

Lemma forEachM_keeps_in {S D : Type} (I : S -> Prop) (body : S -> D -> Res S)
  (l : list D) :
  (forall s d s', In d l -> I s -> body s d = Ret s' -> I s') ->
  forall (s s' : S), I s -> forEachM body l s = Ret s' -> I s'.
Proof.
  induction l as [|d l IH]; intros Hbody s s' Hs H; simpl in H.
  - injection H as <-. exact Hs.
  - apply bind_Ret_inv in H. destruct H as (s1 & H1 & H).
    apply (IH (fun s d s' Hd => Hbody s d s' (or_intror Hd)) s1 s');
      [|exact H].
    exact (Hbody s d s1 (or_introl eq_refl) Hs H1).
Qed.

Lemma getRailDirectionOptions_inv (grid : Grid) (gridSize x y : Z)
  (options : list CarDirection) :
  getRailDirectionOptions grid gridSize x y = Ret options ->
  exists c, getAdjacentRail grid gridSize x y = Ret c /\ options = optionsOf c.
Proof.
  unfold getRailDirectionOptions, getAdjacentRail. intros H.
  apply bind_Ret_inv in H. destruct H as (n & -> & H).
  apply bind_Ret_inv in H. destruct H as (e & -> & H).
  apply bind_Ret_inv in H. destruct H as (s & -> & H).
  apply bind_Ret_inv in H. destruct H as (w & -> & H).
  injection H as <-. eexists. split; [reflexivity|].
  destruct n, e, s, w; reflexivity.
Qed.

(** A heading among the options of a tile leads onto a tile that may be
    entered. *)
Lemma option_leads_onto_rail (grid : Grid) (gridSize x y : Z)
  (options : list CarDirection) (d : CarDirection) :
  getRailDirectionOptions grid gridSize x y = Ret options -> In d options ->
  railOrStation grid gridSize (fst (ahead x y d)) (snd (ahead x y d))
  = Ret true.
Proof.
  intros H Hd. apply getRailDirectionOptions_inv in H.
  destruct H as (c & Hc & ->). apply In_optionsOf in Hd.
  rewrite (getAdjacentRail_ahead grid gridSize x y c d Hc), Hd. reflexivity.
Qed.

(** The stations found are in-bounds tiles with the station marker. *)
Lemma findRailStations_marked (grid : Grid) (gridSize : Z)
  (stations : list Coord) :
  findRailStations grid gridSize = Ret stations ->
  forall c, In c stations ->
            isRailStationTile grid gridSize (fst c) (snd c) = Ret true.
Proof.
  unfold findRailStations. intros H.
  refine (forEachM_keeps_in
            (fun l => forall c, In c l ->
               isRailStationTile grid gridSize (fst c) (snd c) = Ret true)
            _ _ _ _ _ _ H).
  - intros l d l' Hd Hl Hbody.
    apply bind_Ret_inv in Hbody. destruct Hbody as (t & Ht & Hbody).
    destruct (typeIs t rail_station) eqn:E; injection Hbody as <-;
      [|exact Hl].
    intros c Hc. apply in_app_iff in Hc. destruct Hc as [Hc|[<-|[]]];
      [exact (Hl c Hc)|].
    apply isRailStationTile_origin.
    + apply In_scanCells. exact Hd.
    + unfold buildingAt. rewrite Ht. f_equal.
      apply BuildingType_eqb_eq. exact E.
  - intros c [].
Qed.

Lemma station_may_be_entered (grid : Grid) (gridSize x y : Z) :
  isRailStationTile grid gridSize x y = Ret true ->
  railOrStation grid gridSize x y = Ret true.
Proof.
  intros H. unfold railOrStation.
  destruct (isRailTile grid gridSize x y) as [r| |] eqn:R; simpl.
  - destruct r; [reflexivity|exact H].
  - unfold isRailTile, isRailStationTile in *.
    destruct (outOfBounds gridSize x y); [discriminate|].
    destruct (tileAt grid x y); discriminate.
  - exfalso. exact (fuelSafe_isRailTile grid gridSize x y R).
Qed.

Lemma firstOrthogonalRail_inv (grid : Grid) (gridSize sx sy : Z) :
  forall (ds : list (Z * Z * CarDirection)) (nx ny : Z) (dir : CarDirection),
    firstOrthogonalRail grid gridSize sx sy ds = Ret (Some (nx, ny, dir)) ->
    isRailTile grid gridSize nx ny = Ret true /\
    In (nx - sx, ny - sy, dir)%Z ds.
Proof.
  induction ds as [|[[dx dy] d0] ds IH]; intros nx ny dir H; simpl in H.
  - discriminate.
  - apply bind_Ret_inv in H. destruct H as (r & Hr & H). destruct r.
    + injection H as <- <- <-. split; [exact Hr|]. left.
      replace (sx + dx - sx)%Z with dx by lia.
      replace (sy + dy - sy)%Z with dy by lia. reflexivity.
    + destruct (IH nx ny dir H) as [H1 H2]. split; [exact H1|].
      right. exact H2.
Qed.

Lemma firstDiagonalRail_inv (rnd : RandomSource) (grid : Grid)
  (gridSize sx sy : Z) :
  forall (ds : list (Z * Z)) (st st' : SpawnState) (r : option SpawnPoint),
    firstDiagonalRail rnd grid gridSize sx sy ds st = Ret (r, st') ->
    current st' = current st /\
    forall nx ny dir,
      r = Some (nx, ny, dir) ->
      isRailTile grid gridSize nx ny = Ret true /\
      In (nx - sx, ny - sy)%Z ds /\
      railOrStation grid gridSize (fst (ahead nx ny dir)) (snd (ahead nx ny dir))
      = Ret true.
Proof.
  induction ds as [|[dx dy] ds IH]; intros st st' r H; cbn [firstDiagonalRail] in H.
  - unfold retS in H. injection H as <- <-. split; [reflexivity|].
    intros nx ny dir E. discriminate.
  - assert (Next : forall st0,
               firstDiagonalRail rnd grid gridSize sx sy ds st0 = Ret (r, st') ->
               current st' = current st0 /\
               forall nx ny dir,
                 r = Some (nx, ny, dir) ->
                 isRailTile grid gridSize nx ny = Ret true /\
                 In (nx - sx, ny - sy)%Z ((dx, dy) :: ds) /\
                 railOrStation grid gridSize (fst (ahead nx ny dir))
                               (snd (ahead nx ny dir)) = Ret true).
    { intros st0 H0. destruct (IH st0 st' r H0) as [C F]. split; [exact C|].
      intros nx ny dir E. destruct (F nx ny dir E) as (F1 & F2 & F3).
      split; [exact F1|]. split; [right; exact F2|exact F3]. }
    apply bindS_inv in H. destruct H as (rl & st1 & Hrl & H).
    apply liftS_inv in Hrl. destruct Hrl as [Hrl ->].
    destruct rl; [|exact (Next st H)].
    apply bindS_inv in H. destruct H as (options & st1 & Hop & H).
    apply liftS_inv in Hop. destruct Hop as [Hop ->].
    destruct (0 <? List.length options)%nat; [|exact (Next st H)].
    apply bindS_inv in H. destruct H as (dir0 & st1 & Hpick & H).
    apply pickRandom_inv in Hpick. destruct Hpick as [Hin ->].
    unfold retS in H. injection H as <- <-. split; [reflexivity|].
    intros nx ny dir E. injection E as <- <- <-.
    split; [exact Hrl|]. split.
    + left. replace (sx + dx - sx)%Z with dx by lia.
      replace (sy + dy - sy)%Z with dy by lia. reflexivity.
    + exact (option_leads_onto_rail _ _ _ _ _ _ Hop Hin).
Qed.

(** What [findAdjacentRailToStation] returns for a station at [(sx, sy)]. *)
Lemma findAdjacentRailToStation_inv (rnd : RandomSource) (grid : Grid)
  (gridSize sx sy : Z) (st st' : SpawnState) (r : option SpawnPoint) :
  findAdjacentRailToStation rnd grid gridSize sx sy st = Ret (r, st') ->
  current st' = current st /\
  forall nx ny dir,
    r = Some (nx, ny, dir) ->
    isRailTile grid gridSize nx ny = Ret true /\
    ((Z.abs (nx - sx) + Z.abs (ny - sy) = 1)%Z ->
     ahead nx ny dir = (sx, sy) /\ st' = st) /\
    (railOrStation grid gridSize sx sy = Ret true ->
     railOrStation grid gridSize (fst (ahead nx ny dir)) (snd (ahead nx ny dir))
     = Ret true).
Proof.
  unfold findAdjacentRailToStation. intros H.
  apply bindS_inv in H. destruct H as (found & st1 & Hf & H).
  apply liftS_inv in Hf. destruct Hf as [Hf ->].
  destruct found as [[[fx fy] fd]|].
  - unfold retS in H. injection H as <- <-. split; [reflexivity|].
    intros nx ny dir E. injection E as <- <- <-.
    apply firstOrthogonalRail_inv in Hf. destruct Hf as [Hrail Hin].
    split; [exact Hrail|].
    assert (A : ahead fx fy fd = (sx, sy)).
    { unfold ahead. simpl in Hin.
      destruct Hin as [E|[E|[E|[E|[]]]]]; injection E as E1 E2 <-; simpl;
        f_equal; lia. }
    split; [intros _; split; [exact A|reflexivity]|].
    intros Hs. rewrite A. exact Hs.
  - apply firstDiagonalRail_inv in H. destruct H as [C F].
    split; [exact C|]. intros nx ny dir E.
    destruct (F nx ny dir E) as (F1 & F2 & F3). split; [exact F1|].
    split; [|intros _; exact F3].
    intros Habs. exfalso. simpl in F2.
    repeat (destruct F2 as [F2|F2];
            [injection F2 as E1 E2; lia|]).
    contradiction.
Qed.

(** X19. A train spawned right next to a station, on one of its four
    orthogonal neighbours, heads towards the station: the tile one step
    ahead of the spawn point in the heading returned is the station tile
    itself, and no random number is drawn for it. *)
Theorem station_spawn_heads_to_station (rnd : RandomSource) (grid : Grid)
  (gridSize sx sy nx ny : Z) (dir : CarDirection) (st st' : SpawnState) :
  findAdjacentRailToStation rnd grid gridSize sx sy st
  = Ret (Some (nx, ny, dir), st') ->
  (Z.abs (nx - sx) + Z.abs (ny - sy) = 1)%Z ->
  isRailTile grid gridSize nx ny = Ret true /\
  ahead nx ny dir = (sx, sy) /\ st' = st.
Proof.
  intros H Habs. apply findAdjacentRailToStation_inv in H.
  destruct H as [_ F]. destruct (F nx ny dir eq_refl) as (F1 & F2 & _).
  split; [exact F1|]. exact (F2 Habs).
Qed.

Lemma station_spawn_heads_to_station_witness :
  findAdjacentRailToStation halfSource depotGrid 5 2 2 (mkSpawnState 0 1)
  = Ret (Some (1, 2, dSouth)%Z, mkSpawnState 0 1) /\
  ahead 1 2 dSouth = (2, 2)%Z.
Proof.
  split; [reflexivity|].
  apply (station_spawn_heads_to_station halfSource depotGrid 5 2 2 1 2 dSouth
           (mkSpawnState 0 1) (mkSpawnState 0 1)); reflexivity.
Defined.

Lemma findRandomRailTile_inv (rnd : RandomSource) (grid : Grid)
  (gridSize : Z) (st st' : SpawnState) (r : option Coord) :
  findRandomRailTile rnd grid gridSize st = Ret (r, st') ->
  current st' = current st /\
  forall x y, r = Some (x, y) -> isRailTile grid gridSize x y = Ret true.
Proof.
  unfold findRandomRailTile. intros H.
  set (OnRail := fun l : list Coord =>
         forall c, In c l -> isRailTile grid gridSize (fst c) (snd c) = Ret true).
  apply bindS_inv in H. destruct H as (tiles1 & st1 & H1 & H).
  apply liftS_inv in H1. destruct H1 as [H1 ->].
  assert (T1 : OnRail tiles1).
  { apply (forEachM_keeps OnRail) in H1; [exact H1| |intros c []].
    intros l d l' Hl Hbody.
    apply bind_Ret_inv in Hbody. destruct Hbody as (r0 & Hr0 & Hbody).
    destruct r0; [|injection Hbody as <-; exact Hl].
    apply bind_Ret_inv in Hbody. destruct Hbody as (options & _ & Hbody).
    destruct (2 <=? List.length options)%nat; injection Hbody as <-;
      [|exact Hl].
    intros c Hc. apply in_app_iff in Hc.
    destruct Hc as [Hc|[<-|[]]]; [exact (Hl c Hc)|exact Hr0]. }
  apply bindS_inv in H. destruct H as (tiles2 & st2 & H2 & H).
  assert (T2 : OnRail tiles2 /\ st2 = st).
  { destruct (Nat.eqb (List.length tiles1) 0).
    - apply liftS_inv in H2. destruct H2 as [H2 ->]. split; [|reflexivity].
      apply (forEachM_keeps OnRail) in H2; [exact H2| |exact T1].
      intros l d l' Hl Hbody.
      apply bind_Ret_inv in Hbody. destruct Hbody as (r0 & Hr0 & Hbody).
      destruct r0; injection Hbody as <-; [|exact Hl].
      intros c Hc. apply in_app_iff in Hc.
      destruct Hc as [Hc|[<-|[]]]; [exact (Hl c Hc)|exact Hr0].
    - unfold retS in H2. injection H2 as <- <-. auto. }
  destruct T2 as [T2 ->].
  destruct (Nat.eqb (List.length tiles2) 0).
  - unfold retS in H. injection H as <- <-. split; [reflexivity|].
    intros x y E. discriminate.
  - apply bindS_inv in H. destruct H as (t & st3 & Hpick & H).
    apply pickRandom_inv in Hpick. destruct Hpick as [Hin ->].
    unfold retS in H. injection H as <- <-. split; [reflexivity|].
    intros x y E. injection E as ->. exact (T2 (x, y) Hin).
Qed.

(** What [spawnTrain] returns. *)
Lemma spawnTrain_inv (rnd : RandomSource) (grid : Grid) (gridSize : Z)
  (st st' : SpawnState) (r : option Train) :
  spawnTrain rnd grid gridSize st = Ret (r, st') ->
  match r with
  | None => current st' = current st
  | Some t =>
      current st' = (current st + 1)%Z /\
      isRailTile grid gridSize (tileX t) (tileY t) = Ret true /\
      railOrStation grid gridSize
        (fst (ahead (tileX t) (tileY t) (direction t)))
        (snd (ahead (tileX t) (tileY t) (direction t))) = Ret true /\
      (5 <= List.length (carriages t) <= 10)%nat /\
      exists ty, freshTrain t (current st) ty (tileX t) (tileY t) (direction t)
  end.
Proof.
  unfold spawnTrain. intros H.
  apply bindS_inv in H. destruct H as (count & st1 & Hcount & H).
  apply liftS_inv in Hcount. destruct Hcount as [Hcount ->].
  destruct (count <? MIN_RAIL_TILES_FOR_TRAINS)%Z.
  { unfold retS in H. injection H as <- <-. reflexivity. }
  apply bindS_inv in H. destruct H as (stations & st1 & Hst & H).
  apply liftS_inv in Hst. destruct Hst as [Hst ->].
  apply bindS_inv in H. destruct H as (fromStation & st1 & Hfs & H).
  assert (C1 : current st1 = current st).
  { destruct (0 <? List.length stations)%nat.
    - apply bindS_inv in Hfs. destruct Hfs as (r0 & st2 & Hr & Hfs).
      unfold random in Hr. injection Hr as <- <-.
      unfold retS in Hfs. injection Hfs as <- <-. reflexivity.
    - unfold retS in Hfs. injection Hfs as <- <-. reflexivity. }
  clear Hfs.
  apply bindS_inv in H. destruct H as (spawn & st2 & Hspawn & H).
  assert (P : current st2 = current st /\
              forall x y dir,
                spawn = Some (x, y, dir) ->
                isRailTile grid gridSize x y = Ret true /\
                railOrStation grid gridSize (fst (ahead x y dir))
                              (snd (ahead x y dir)) = Ret true).
  { destruct fromStation.
    - apply bindS_inv in Hspawn. destruct Hspawn as (station & st3 & Hpick & Hspawn).
      apply pickRandom_inv in Hpick. destruct Hpick as [Hin ->].
      apply findAdjacentRailToStation_inv in Hspawn.
      destruct Hspawn as [C F]. simpl in C. split; [congruence|].
      intros x y dir E. destruct (F x y dir E) as (F1 & _ & F3).
      split; [exact F1|]. apply F3. apply station_may_be_entered.
      exact (findRailStations_marked grid gridSize stations Hst station Hin).
    - apply bindS_inv in Hspawn. destruct Hspawn as (tile & st3 & Htile & Hspawn).
      apply findRandomRailTile_inv in Htile. destruct Htile as [C F].
      destruct tile as [[tx ty]|].
      + apply bindS_inv in Hspawn. destruct Hspawn as (options & st4 & Hop & Hspawn).
        apply liftS_inv in Hop. destruct Hop as [Hop ->].
        destruct (Nat.eqb (List.length options) 0).
        * unfold retS in Hspawn. injection Hspawn as <- <-.
          split; [congruence|]. intros x y dir E. discriminate.
        * apply bindS_inv in Hspawn.
          destruct Hspawn as (dir0 & st4 & Hpick & Hspawn).
          apply pickRandom_inv in Hpick. destruct Hpick as [Hin ->].
          unfold retS in Hspawn. injection Hspawn as <- <-.
          split; [simpl; congruence|]. intros x y dir E.
          injection E as <- <- <-. split; [exact (F tx ty eq_refl)|].
          exact (option_leads_onto_rail _ _ _ _ _ _ Hop Hin).
      + unfold retS in Hspawn. injection Hspawn as <- <-.
        split; [congruence|]. intros x y dir E. discriminate. }
  destruct P as [C2 P].
  destruct spawn as [[[sx sy] sdir]|].
  2:{ unfold retS in H. injection H as <- <-. exact C2. }
  destruct (P sx sy sdir eq_refl) as [Prail Pahead].
  apply bindS_inv in H. destruct H as (r0 & st3 & Hr & H).
  unfold random in Hr. injection Hr as <- <-.
  apply bindS_inv in H. destruct H as (id & st3 & Hid & H).
  unfold nextTrainId in Hid. cbn [draws current] in Hid.
  injection Hid as <- <-.
  apply bindS_inv in H. destruct H as (train & st3 & Hmake & H).
  unfold retS in H. injection H as <- <-.
  destruct (Qlt_bool (draw rnd (draws st2)) (1 # 2)).
  - destruct (createPassengerTrain_run rnd (current st2) sx sy sdir
                (mkSpawnState (S (draws st2)) (current st2 + 1)))
      as (t & n & loco & cab & body & Erun & Hn & _ & Hlen & _ & _ & _
          & Hfresh & _).
    rewrite Erun in Hmake. injection Hmake as <- <-.
    pose proof Hfresh as (_ & _ & -> & -> & -> & _).
    cbn [current]. split; [congruence|]. split; [exact Prail|].
    split; [exact Pahead|]. split; [lia|].
    exists passengerTrain. rewrite <- C2. exact Hfresh.
  - destruct (createFreightTrain_run rnd (current st2) sx sy sdir
                (mkSpawnState (S (draws st2)) (current st2 + 1)))
      as (t & n & loco & cab & body & Erun & Hn & _ & Hlen & _ & _ & _
          & Hfresh & _).
    rewrite Erun in Hmake. injection Hmake as <- <-.
    pose proof Hfresh as (_ & _ & -> & -> & -> & _).
    cbn [current]. split; [congruence|]. split; [exact Prail|].
    split; [exact Pahead|]. split; [lia|].
    exists freightTrain. rewrite <- C2. exact Hfresh.
Qed.

(** X20. [spawnTrain] takes exactly one id per train: a train it returns
    carries the id that was current and leaves the counter one higher; a
    refused spawn leaves the counter as it was, on every path through the
    function. *)
Theorem spawnTrain_takes_one_id (rnd : RandomSource) (grid : Grid)
  (gridSize : Z) (st st' : SpawnState) (r : option Train) :
  spawnTrain rnd grid gridSize st = Ret (r, st') ->
  match r with
  | None => current st' = current st
  | Some t => trainId t = current st /\ current st' = (current st + 1)%Z
  end.
Proof.
  intros H. apply spawnTrain_inv in H. destruct r as [t|]; [|exact H].
  destruct H as (C & _ & _ & _ & ty & Hid & _). auto.
Qed.

Lemma spawnTrain_takes_one_id_witness :
  exists t st',
    spawnTrain halfSource loopGrid 4 (mkSpawnState 0 7) = Ret (Some t, st') /\
    trainId t = 7%Z /\ current st' = 8%Z.
Proof.
  eexists. eexists. split; [vm_compute; reflexivity|].
  apply (spawnTrain_takes_one_id halfSource loopGrid 4 (mkSpawnState 0 7) _
           (Some _)).
  vm_compute. reflexivity.
Defined.

(** X21. A train [spawnTrain] returns stands on a rail tile, faces a tile
    it may enter (a rail tile or a station), has 5 to 10 carriages, all on
    the spawn tile with the train's heading, and starts at progress 0 and
    age 0, not at a station, with the spawn tile as its path history. *)
Theorem spawnTrain_places_on_rail (rnd : RandomSource) (grid : Grid)
  (gridSize : Z) (st st' : SpawnState) (t : Train) :
  spawnTrain rnd grid gridSize st = Ret (Some t, st') ->
  isRailTile grid gridSize (tileX t) (tileY t) = Ret true /\
  railOrStation grid gridSize
    (fst (ahead (tileX t) (tileY t) (direction t)))
    (snd (ahead (tileX t) (tileY t) (direction t))) = Ret true /\
  (5 <= List.length (carriages t) <= 10)%nat /\
  Forall (onSpawnTile (tileX t) (tileY t) (direction t)) (carriages t) /\
  progress t = 0 /\ age t = 0 /\ atStation t = false /\
  path t = [(tileX t, tileY t)] /\ pathIndex t = 0%Z /\ historyOk t.
Proof.
  intros H. apply spawnTrain_inv in H.
  destruct H as (_ & Hrail & Hahead & Hlen & ty & Hfresh).
  destruct Hfresh as (_ & _ & _ & _ & _ & Hp & Ha & Hpath & Hidx & Hst & Hcars).
  repeat split; try assumption; try lia.
  - rewrite Hpath. discriminate.
  - rewrite Hpath. simpl. lia.
  - rewrite Hpath, Hidx. reflexivity.
  - rewrite Hpath. reflexivity.
Qed.

Lemma spawnTrain_places_on_rail_witness :
  exists t st',
    spawnTrain halfSource loopGrid 4 (mkSpawnState 0 1) = Ret (Some t, st') /\
    isRailTile loopGrid 4 (tileX t) (tileY t) = Ret true /\
    historyOk t.
Proof.
  eexists. eexists. split; [vm_compute; reflexivity|].
  destruct (spawnTrain_places_on_rail halfSource loopGrid 4 (mkSpawnState 0 1)
              _ _ ltac:(vm_compute; reflexivity))
    as (H1 & _ & _ & _ & _ & _ & _ & _ & _ & H2).
  split; [exact H1|exact H2].
Defined.

End SpawnMore.

(** ** More on the rail pathfinder *)

Module PathMore.
Import Rail Trains Scenarios MoreScenarios OracleFacts TrainFacts DeadEndFacts
       SpawnFacts PathFacts OracleMore.

Lemma stepsOk_app_l (grid : Grid) (gridSize : Z) :
  forall l1 l2 : list Coord,
    stepsOk grid gridSize (l1 ++ l2) -> stepsOk grid gridSize l1.
Proof.
  induction l1 as [|a l1 IH]; intros l2 H; [exact I|].
  destruct l1 as [|b l1]; [exact I|].
  simpl in H. destruct H as (H1 & H2 & H3). simpl.
  split; [exact H1|]. split; [exact H2|]. exact (IH l2 H3).
Qed.

Lemma stepsOk_app_r (grid : Grid) (gridSize : Z) :
  forall l1 l2 : list Coord,
    stepsOk grid gridSize (l1 ++ l2) -> stepsOk grid gridSize l2.
Proof.
  induction l1 as [|a l1 IH]; intros l2 H; [exact H|].
  apply IH. destruct l1 as [|b l1].
  - simpl in H. destruct l2; [exact I|]. apply H.
  - simpl in H. apply H.
Qed.

Lemma stepsOk_join (grid : Grid) (gridSize : Z) (c : Coord) :
  forall l1 l3 : list Coord,
    stepsOk grid gridSize (l1 ++ [c]) -> stepsOk grid gridSize (c :: l3) ->
    stepsOk grid gridSize (l1 ++ c :: l3).
Proof.
  induction l1 as [|a l1 IH]; intros l3 H1 H3; [exact H3|].
  destruct l1 as [|b l1].
  - simpl in *. destruct H1 as (A & B & _). auto.
  - simpl in H1. destruct H1 as (A & B & H1).
    change (stepsOk grid gridSize (a :: b :: (l1 ++ c :: l3))).
    simpl. split; [exact A|]. split; [exact B|]. exact (IH l3 H1 H3).
Qed.

(** Every cell of a path after the first may be entered. *)
Lemma stepsOk_passable (grid : Grid) (gridSize : Z) :
  forall p : list Coord,
    stepsOk grid gridSize p -> Forall (passable grid gridSize) (tl p).
Proof.
  induction p as [|a p IH]; intros H; [constructor|].
  destruct p as [|b p]; [constructor|].
  simpl in H. destruct H as (_ & Hb & H). simpl. constructor; [exact Hb|].
  exact (IH H).
Qed.

Lemma last_after (l1 l3 : list Coord) (c d : Coord) :
  last (l1 ++ c :: l3) d = last (c :: l3) d.
Proof.
  induction l1 as [|a l1 IH]; [reflexivity|].
  rewrite <- IH. simpl. destruct (l1 ++ c :: l3) eqn:E; [|reflexivity].
  destruct l1; discriminate.
Qed.

(** A path that passes twice through a cell can be cut short. *)
Lemma railPath_cut (grid : Grid) (gridSize : Z) (s e c : Coord)
  (l1 l2 l3 : list Coord) :
  railPath grid gridSize s e (l1 ++ c :: l2 ++ c :: l3) ->
  railPath grid gridSize s e (l1 ++ c :: l3).
Proof.
  intros (Hhd & Hlast & Hok). split; [|split].
  - destruct l1; exact Hhd.
  - rewrite <- Hlast.
    replace (l1 ++ c :: l2 ++ c :: l3) with ((l1 ++ c :: l2) ++ c :: l3)
      by (rewrite <- app_assoc; reflexivity).
    rewrite !last_after. reflexivity.
  - apply stepsOk_join.
    + apply (stepsOk_app_l grid gridSize (l1 ++ [c]) (l2 ++ c :: l3)).
      rewrite <- app_assoc. exact Hok.
    + apply (stepsOk_app_r grid gridSize (l1 ++ c :: l2) (c :: l3)).
      rewrite <- app_assoc. exact Hok.
Qed.

Lemma repeated_or_NoDup (l : list Coord) :
  NoDup l \/ exists c l1 l2 l3, l = l1 ++ c :: l2 ++ c :: l3.
Proof.
  induction l as [|a l IH]; [left; constructor|].
  destruct (in_dec (fun u v : Coord =>
                      ltac:(decide equality; apply Z.eq_dec)) a l)
    as [Hin|Hnin].
  - right. apply in_split in Hin. destruct Hin as (l2 & l3 & ->).
    exists a, [], l2, l3. reflexivity.
  - destruct IH as [Hnd|(c & l1 & l2 & l3 & ->)].
    + left. constructor; assumption.
    + right. exists c, (a :: l1), l2, l3. reflexivity.
Qed.

(** X22. A path [findPathOnRails] returns on a square grid never passes
    twice through a cell, and so has at most one cell more than the grid
    has tiles. *)
Theorem findPathOnRails_simple_path (grid : Grid)
  (gridSize startX startY endX endY : Z) (p : list Coord) :
  squareGrid grid gridSize ->
  findPathOnRails grid gridSize startX startY endX endY = Ret (Some p) ->
  NoDup p /\
  (List.length p <= S (Z.to_nat (gridSize * gridSize)))%nat.
Proof.
  intros Hsq Hrun.
  destruct (findPathOnRails_spec grid gridSize Hsq (startX, startY)
              (endX, endY)) as (r & Hr & Hpost).
  simpl in Hr. rewrite Hrun in Hr. injection Hr as <-.
  destruct Hpost as [Hpath Hmin].
  assert (Hnd : NoDup p).
  { destruct (repeated_or_NoDup p) as [H|(c & l1 & l2 & l3 & ->)];
      [exact H|].
    exfalso. apply railPath_cut in Hpath. apply Hmin in Hpath.
    rewrite !length_app in Hpath. simpl in Hpath.
    rewrite length_app in Hpath. simpl in Hpath. lia. }
  split; [exact Hnd|].
  destruct Hpath as (_ & _ & Hok). apply stepsOk_passable in Hok.
  destruct p as [|a p]; [simpl; lia|]. simpl in Hok. simpl.
  apply le_n_S. inversion Hnd as [|? ? _ Hnd']; subst.
  etransitivity; [|apply length_scanCells].
  apply NoDup_incl_length; [exact Hnd'|].
  intros c Hc. apply In_scanCells.
  rewrite Forall_forall in Hok. exact (proj1 (Hok c Hc)).
Qed.

Lemma findPathOnRails_simple_path_witness :
  NoDup straightLine /\ (List.length straightLine <= 26)%nat.
Proof.
  apply (findPathOnRails_simple_path lineGrid 5 0 0 0 4 straightLine);
    reflexivity.
Defined.

(** X23. A search to a cell that is not the start and carries neither
    rail nor a station returns null on every square grid: the end cell is
    tested like every other cell, only the start is exempt. *)
Theorem findPathOnRails_needs_rail_at_end (grid : Grid)
  (gridSize startX startY endX endY : Z) :
  squareGrid grid gridSize ->
  (startX, startY) <> (endX, endY) ->
  ~ passable grid gridSize (endX, endY) ->
  findPathOnRails grid gridSize startX startY endX endY = Ret None.
Proof.
  intros Hsq Hne Hend.
  destruct (findPathOnRails_spec grid gridSize Hsq (startX, startY)
              (endX, endY)) as (r & Hr & Hpost).
  simpl in Hr. rewrite Hr. destruct r as [p|]; [|reflexivity].
  exfalso. destruct Hpost as [(Hhd & Hlast & Hok) _].
  apply stepsOk_passable in Hok.
  destruct p as [|a p]; [discriminate|]. injection Hhd as ->.
  destruct p as [|b p].
  - simpl in Hlast. contradiction.
  - simpl tl in Hok. apply Hend. rewrite <- Hlast.
    rewrite Forall_forall in Hok. apply Hok.
    change (last ((startX, startY) :: b :: p) (startX, startY))
      with (last (b :: p) (startX, startY)).
    clear. revert b. induction p as [|c p IH]; intros b.
    + left. reflexivity.
    + right. apply IH.
Qed.

Lemma findPathOnRails_needs_rail_at_end_witness :
  findPathOnRails lineGrid 5 0 0 4 4 = Ret None.
Proof.
  apply (findPathOnRails_needs_rail_at_end lineGrid 5 0 0 4 4).
  - reflexivity.
  - discriminate.
  - intros [_ H]. vm_compute in H. discriminate.
Defined.

End PathMore.

(** ** The scans of the grid and the shared helpers *)

Module UtilsMore.
Import Rail Trains Scenarios MoreScenarios OracleFacts TrainFacts DeadEndFacts
       SpawnFacts PathFacts OracleMore SpawnMore.

Lemma length_concat_rows (n : nat) (rows : list (list Tile)) :
  (forall row, In row rows -> List.length row = n) ->
  List.length (List.concat rows) = (List.length rows * n)%nat.
Proof.
  induction rows as [|row rows IH]; intros H; simpl; [reflexivity|].
  rewrite length_app, (H row (or_introl eq_refl)), IH; [reflexivity|].
  intros r Hr. apply H. right. exact Hr.
Qed.

(** X24. On a square grid [countRailTiles] returns, and what it returns
    is the number of tiles that are rail tiles or roads with a rail
    overlay; station tiles do not count, and the count is at most the
    number of tiles of the grid. *)
Theorem countRailTiles_counts (grid : Grid) (gridSize : Z) :
  squareGrid grid gridSize ->
  countRailTiles grid gridSize = Ret (Z.of_nat (railTileCount grid)) /\
  (railTileCount grid <= Z.to_nat (gridSize * gridSize))%nat.
Proof.
  intros Hsq. split; [apply countRailTiles_square; exact Hsq|].
  destruct (squareGrid_rows _ _ Hsq) as (H0 & Hlen & Hrows).
  unfold railTileCount.
  pose proof (filter_length_le railOrOverlay (List.concat grid)) as F.
  rewrite (length_concat_rows (Z.to_nat gridSize)) in F.
  - rewrite Z2Nat.inj_mul by assumption. lia.
  - intros row Hrow. specialize (Hrows row Hrow). lia.
Qed.

Lemma countRailTiles_counts_witness :
  countRailTiles depotGrid 5 = Ret 2 /\ (railTileCount depotGrid <= 25)%nat.
Proof.
  apply (countRailTiles_counts depotGrid 5). reflexivity.
Defined.

(** The scan for stations over in-bounds cells. *)
Lemma findRailStations_scan (grid : Grid) (gridSize : Z) :
  squareGrid grid gridSize ->
  forall (l acc : list Coord),
    (forall c, In c l -> outOfBounds gridSize (fst c) (snd c) = false) ->
    forEachM
      (fun stations c =>
         tile <- tileAt grid (fst c) (snd c) ;;
         if typeIs tile rail_station then Ret (stations ++ [c])
         else Ret stations) l acc
    = Ret (acc ++ filter (fun c => stationAt grid (fst c) (snd c)) l).
Proof.
  intros Hsq. induction l as [|c l IH]; intros acc Hin; simpl.
  - rewrite app_nil_r. reflexivity.
  - destruct (tileAt_square grid gridSize (fst c) (snd c) Hsq
                (Hin c (or_introl eq_refl))) as [t Ht].
    assert (Hin' : forall c', In c' l ->
                              outOfBounds gridSize (fst c') (snd c') = false).
    { intros c' Hc'. apply Hin. right. exact Hc'. }
    unfold stationAt at 1. rewrite Ht. cbn [bind].
    destruct (typeIs t rail_station).
    + etransitivity; [exact (IH (acc ++ [c]) Hin')|].
      rewrite <- app_assoc. reflexivity.
    + exact (IH acc Hin').
Qed.

(** X25. On a square grid [findRailStations] returns exactly the cells
    whose tile is a station marker, each once, in scan order (row by row,
    west to east); the [empty] tiles of a station footprint are not
    listed. *)
Theorem findRailStations_lists_markers (grid : Grid) (gridSize : Z) :
  squareGrid grid gridSize ->
  findRailStations grid gridSize
  = Ret (filter (fun c => stationAt grid (fst c) (snd c)) (scanCells gridSize)).
Proof.
  intros Hsq. unfold findRailStations.
  apply (findRailStations_scan grid gridSize Hsq (scanCells gridSize) []).
  intros c Hc. apply In_scanCells. exact Hc.
Qed.

Lemma findRailStations_lists_markers_witness :
  findRailStations stationGrid 7 = Ret [(3, 3)].
Proof.
  rewrite (findRailStations_lists_markers stationGrid 7); reflexivity.
Defined.

(** *** Road vehicles *)

Lemma CarDirection_eqb_eq (a b : CarDirection) :
  CarDirection_eqb a b = true <-> a = b.
Proof. destruct a, b; simpl; split; intros H; congruence. Qed.

Lemma getDirectionOptions_roads (gridData : Grid) (gridSizeValue x y : Z)
  (options : list CarDirection) :
  Utils.getDirectionOptions gridData gridSizeValue x y = Ret options ->
  forall d,
    In d options <->
    Utils.isRoadTile gridData gridSizeValue (fst (ahead x y d))
                     (snd (ahead x y d)) = Ret true.
Proof.
  unfold Utils.getDirectionOptions. intros H.
  apply bind_Ret_inv in H. destruct H as (n & Hn & H).
  apply bind_Ret_inv in H. destruct H as (e & He & H).
  apply bind_Ret_inv in H. destruct H as (s & Hs & H).
  apply bind_Ret_inv in H. destruct H as (w & Hw & H).
  injection H as <-. intros d. unfold ahead.
  destruct d; simpl; rewrite ?Z.add_0_r.
  - replace (x + -1) with (x - 1) by lia. rewrite Hn.
    destruct n, e, s, w; simpl; intuition congruence.
  - replace (y + -1) with (y - 1) by lia. rewrite He.
    destruct n, e, s, w; simpl; intuition congruence.
  - rewrite Hs. destruct n, e, s, w; simpl; intuition congruence.
  - rewrite Hw. destruct n, e, s, w; simpl; intuition congruence.
Qed.

(** X26. A road vehicle never turns back unless it must: the heading
    [pickNextDirection] of [utils.ts] draws is a road neighbour of the
    tile, and as soon as one road neighbour is not the way back, the
    heading drawn is not the way back; without a road neighbour the
    result is null and no random number is drawn. *)
Theorem road_vehicle_turns_back_only_if_forced (rnd : RandomSource)
  (previousDirection : CarDirection) (gridData : Grid)
  (gridSizeValue x y : Z) (st : SpawnState) (options : list CarDirection) :
  Utils.getDirectionOptions gridData gridSizeValue x y = Ret options ->
  (options = [] ->
   Utils.pickNextDirection rnd previousDirection gridData gridSizeValue x y st
   = Ret (None, st)) /\
  (options <> [] ->
   exists d,
     Utils.pickNextDirection rnd previousDirection gridData gridSizeValue x y st
     = Ret (Some d, mkSpawnState (S (draws st)) (current st)) /\
     Utils.isRoadTile gridData gridSizeValue (fst (ahead x y d))
                      (snd (ahead x y d)) = Ret true /\
     ((exists o, In o options /\ o <> OPPOSITE_DIRECTION previousDirection) ->
      d <> OPPOSITE_DIRECTION previousDirection)).
Proof.
  intros Hop. unfold Utils.pickNextDirection, bindS, liftS. rewrite Hop.
  cbn [bind]. split.
  - intros ->. reflexivity.
  - intros Hne.
    destruct (Nat.eqb (List.length options) 0) eqn:E.
    { destruct options; [contradiction|discriminate]. }
    cbv zeta. unfold Utils.getOppositeDirection.
    set (incoming := OPPOSITE_DIRECTION previousDirection).
    set (filtered := filter (fun dir => negb (CarDirection_eqb dir incoming))
                            options).
    destruct (0 <? List.length filtered)%nat eqn:F.
    + destruct (pickRandom_run rnd filtered st) as (d & Hd & Erun).
      { intros Z. rewrite Z in F. discriminate. }
      rewrite Erun. exists d. split; [reflexivity|].
      apply filter_In in Hd. destruct Hd as [Hin Hd].
      split; [apply (getDirectionOptions_roads _ _ _ _ _ Hop); exact Hin|].
      intros _ Eq. apply negb_true_iff in Hd.
      apply CarDirection_eqb_eq in Eq. congruence.
    + destruct (pickRandom_run rnd options st Hne) as (d & Hd & Erun).
      rewrite Erun. exists d. split; [reflexivity|].
      split; [apply (getDirectionOptions_roads _ _ _ _ _ Hop); exact Hd|].
      intros (o & Ho & Hback). exfalso.
      assert (Hf : In o filtered).
      { apply filter_In. split; [exact Ho|]. apply negb_true_iff.
        destruct (CarDirection_eqb o incoming) eqn:Eo; [|reflexivity].
        apply CarDirection_eqb_eq in Eo. contradiction. }
      destruct filtered; [contradiction|discriminate].
Qed.

Lemma road_vehicle_turns_back_only_if_forced_witness :
  exists d,
    Utils.pickNextDirection halfSource dSouth roadGrid 3 1 1 (mkSpawnState 0 1)
    = Ret (Some d, mkSpawnState 1 1) /\
    d <> dNorth.
Proof.
  destruct (road_vehicle_turns_back_only_if_forced halfSource dSouth roadGrid
              3 1 1 (mkSpawnState 0 1) [dNorth; dSouth] eq_refl)
    as [_ H].
  destruct (H ltac:(discriminate)) as (d & Hrun & _ & Hfwd).
  exists d. split; [exact Hrun|]. apply Hfwd.
  exists dSouth. split; [right; left; reflexivity|discriminate].
Defined.

(** *** Screen and grid coordinates *)

Local Open Scope Q_scope.

Lemma round_integer (q : Q) (z : Z) : q == inject_Z z -> Utils.round q = z.
Proof.
  intros E. unfold Utils.round.
  assert (E' : q + (1 # 2) == inject_Z z + (1 # 2)) by (rewrite E; reflexivity).
  rewrite (Qfloor_comp _ _ E').
  assert (Lo : (z <= Qfloor (inject_Z z + (1 # 2)))%Z).
  { rewrite <- (Qfloor_Z z) at 1. apply Qfloor_resp_le. lra. }
  assert (Hi : (Qfloor (inject_Z z + (1 # 2)) < z + 1)%Z).
  { rewrite Zlt_Qlt. eapply Qle_lt_trans; [apply Qfloor_le|].
    rewrite inject_Z_plus. change (inject_Z 1) with 1. lra. }
  lia.
Qed.

(** X27. [screenToGrid] inverts [gridToScreen] at the centre of a tile:
    for an integer tile and any offsets, the screen point half a tile to
    the right of and below what [gridToScreen] returns maps back to the
    tile.  The point [gridToScreen] itself returns, the corner of the
    bounding box, maps to the tile one to the north. *)
Theorem screenToGrid_inverts_gridToScreen (x y : Z) (offsetX offsetY : Q) :
  let screen :=
    Utils.gridToScreen (inject_Z x) (inject_Z y) offsetX offsetY in
  Utils.screenToGrid (fst screen + Utils.TILE_WIDTH / 2)
                     (snd screen + Utils.TILE_HEIGHT / 2) offsetX offsetY
  = (x, y) /\
  Utils.screenToGrid (fst screen) (snd screen) offsetX offsetY
  = ((x - 1)%Z, y).
Proof.
  cbv zeta. unfold Utils.screenToGrid, Utils.gridToScreen. cbn [fst snd].
  unfold Utils.TILE_HEIGHT, Utils.TILE_WIDTH, Utils.HEIGHT_RATIO.
  assert (M : inject_Z (x - 1) == inject_Z x - 1).
  { unfold Z.sub. rewrite inject_Z_plus. reflexivity. }
  split; f_equal; apply round_integer; rewrite ?M;
    generalize (inject_Z x) (inject_Z y); intros a b; field.
Qed.

End UtilsMore.

(** ** Arriving at a station, leaving the spawn tile *)

Module DwellMore.
Import Rail Trains Scenarios MoreScenarios OracleFacts TrainFacts DeadEndFacts
       SpawnFacts PathFacts OracleMore HeadingMore MovementMore SpawnMore.

Local Open Scope Q_scope.

(** X28. A passenger train that crosses onto a station tile stops there:
    when the tick carries the lead over exactly one tile boundary and the
    tile ahead belongs to a station, [updateTrain] returns [true] with the
    lead on that tile, the at-station flag set, the dwell timer at
    [STATION_STOP_DURATION] and the progress carried over. *)
Theorem passenger_stops_at_station (train : Train)
  (delta speedMultiplier : Q) (grid : Grid) (gridSize : Z) :
  squareGrid grid gridSize -> path train <> [] ->
  trainType train = passengerTrain -> atStation train = false ->
  age train + delta * speedMultiplier <= maxAge train ->
  railOrStation grid gridSize (tileX train) (tileY train) = Ret true ->
  1 <= progress train + speed train * delta * speedMultiplier ->
  progress train + speed train * delta * speedMultiplier < 2 ->
  isRailStationTile grid gridSize
    (fst (ahead (tileX train) (tileY train) (direction train)))
    (snd (ahead (tileX train) (tileY train) (direction train))) = Ret true ->
  exists train',
    updateTrain train delta speedMultiplier grid gridSize = Ret (true, train') /\
    (tileX train', tileY train')
    = ahead (tileX train) (tileY train) (direction train) /\
    atStation train' = true /\
    stationWaitTimer train' = STATION_STOP_DURATION /\
    progress train' = progress train + speed train * delta * speedMultiplier - 1.
Proof.
  intros Hsq Hpath Hty Hst Hage Hcur Hp1 Hp2 Hstation.
  set (p' := progress train + speed train * delta * speedMultiplier) in *.
  set (t0 := setProgress
               (setAge train (age train + delta * speedMultiplier)) p').
  assert (E : Qlt_bool (maxAge (setAge train (age train + delta * speedMultiplier)))
                       (age (setAge train (age train + delta * speedMultiplier)))
              = false).
  { simpl. unfold Qlt_bool. apply negb_false_iff. apply Qle_bool_iff.
    exact Hage. }
  destruct (pickNextDirection_defined (direction train) grid gridSize
              (fst (ahead (tileX train) (tileY train) (direction train)))
              (snd (ahead (tileX train) (tileY train) (direction train)))
              Hsq) as [nd Hnd].
  set (t1 := advance t0
               (fst (ahead (tileX train) (tileY train) (direction train)))
               (snd (ahead (tileX train) (tileY train) (direction train)))
               true nd).
  assert (P1 : progress t1 = p' - 1).
  { unfold t1, advance. cbv zeta. simpl. rewrite Hty. simpl.
    destruct nd; simpl;
      match goal with
      | |- context [if ?c then _ else _] => destruct c
      end; reflexivity. }
  assert (Loop : moveLoop (moveFuel (progress t0)) grid gridSize t0 = Ret t1).
  { assert (F : exists n, moveFuel (progress t0) = S n).
    { unfold moveFuel.
      assert (1 <= Qfloor (progress t0))%Z.
      { apply (Qfloor_resp_le 1 (progress t0)). exact Hp1. }
      exists (Z.to_nat (Qfloor (progress t0) - 1)). lia. }
    destruct F as [n ->].
    rewrite moveLoop_round by (apply Qle_bool_iff; exact Hp1).
    cbn [tileX tileY direction setProgress setAge t0].
    rewrite (station_may_be_entered _ _ _ _ Hstation). cbn [bind negb].
    rewrite Hstation. cbn [bind]. rewrite Hnd. cbn [bind].
    apply moveLoop_exit. apply Qle_bool_false.
    fold t0. fold t1. rewrite P1. lra. }
  assert (N1 : path t1 <> []).
  { apply advance_path_nonempty. exact Hpath. }
  destruct (updateCarriagePositions_returns t1 N1) as [t2 Hcar].
  exists t2. split.
  - unfold updateTrain. cbv zeta. rewrite E.
    cbn [atStation setAge tileX tileY]. rewrite Hst, Hcur. cbn [bind negb].
    match goal with
    | |- context [moveLoop ?f grid gridSize ?t] =>
        change (moveLoop f grid gridSize t)
          with (moveLoop (moveFuel (progress t0)) grid gridSize t0)
    end.
    rewrite Loop. cbn [bind]. rewrite Hcar. reflexivity.
  - apply updateCarriagePositions_frame in Hcar. destruct Hcar as [cs ->].
    cbn [tileX tileY atStation stationWaitTimer progress setCarriages].
    rewrite P1. unfold t1, advance. cbv zeta. simpl. rewrite Hty. simpl.
    destruct nd; simpl;
      match goal with
      | |- context [if ?c then _ else _] => destruct c
      end; simpl; repeat split; reflexivity.
Qed.

Lemma passenger_stops_at_station_witness :
  exists train',
    updateTrain arrivingTrain 1 1 depotGrid 5 = Ret (true, train') /\
    (tileX train', tileY train') = (2, 2)%Z /\
    atStation train' = true /\ stationWaitTimer train' = 2.
Proof.
  destruct (passenger_stops_at_station arrivingTrain 1 1 depotGrid 5)
    as (t' & H1 & H2 & H3 & H4 & _);
    try solve [reflexivity | discriminate].
  exists t'. auto.
Defined.

(** The carriage at index [i + k] of the result comes from the carriage at
    index [k] of the loop. *)
Lemma followCarriages_nth (train : Train) :
  forall (cs cs' : list TrainCarriage) (i : Z) (k : nat) (c' : TrainCarriage),
    followCarriages train i cs = Ret cs' -> nth_error cs' k = Some c' ->
    exists c, nth_error cs k = Some c /\
              followCarriage train (i + Z.of_nat k) c = Ret c'.
Proof.
  induction cs as [|c cs IH]; intros cs' i k c' H Hk; simpl in H.
  - injection H as <-. destruct k; discriminate.
  - apply bind_Ret_inv in H. destruct H as (c1 & Hc1 & H).
    apply bind_Ret_inv in H. destruct H as (rest & Hrest & H).
    injection H as <-. destruct k as [|k]; simpl in Hk.
    + injection Hk as <-. exists c. split; [reflexivity|].
      rewrite Z.add_0_r. exact Hc1.
    + destruct (IH rest (i + 1)%Z k c' Hrest Hk) as (c0 & Hc0 & Hf).
      exists c0. split; [exact Hc0|].
      replace (i + Z.of_nat (S k))%Z with (i + 1 + Z.of_nat k)%Z by lia.
      exact Hf.
Qed.

(** X29. While a train has no path history behind it ([pathIndex] 0, as
    after the spawn), the carriage step gives every carriage the heading
    of the train.  The locomotive, at index 0, takes the lead tile and the
    lead progress as it is.  Of the carriages behind it, at index [i] from
    1 on, one that does not fit on the lead tile is kept at the first tile
    of the path with progress 0, and one that fits is put on the lead
    tile, [i * 0.28] behind the lead and at most at 0.99. *)
Theorem carriages_wait_at_spawn (train train' : Train) (sp : Coord)
  (rest : list Coord) :
  (pathIndex train <= 0)%Z -> path train = sp :: rest ->
  updateCarriagePositions train = Ret train' ->
  forall (k : nat) (c : TrainCarriage),
    nth_error (carriages train') k = Some c ->
    carDirection c = direction train /\
    (k = 0%nat ->
     (carTileX c, carTileY c) = (tileX train, tileY train) /\
     carProgress c = progress train) /\
    (k <> 0%nat ->
     progress train - inject_Z (Z.of_nat k) * CARRIAGE_SPACING < 0 ->
     (carTileX c, carTileY c) = sp /\ carProgress c == 0) /\
    (k <> 0%nat ->
     0 <= progress train - inject_Z (Z.of_nat k) * CARRIAGE_SPACING ->
     (carTileX c, carTileY c) = (tileX train, tileY train) /\
     carProgress c
     == Qmin (99 # 100)
             (progress train - inject_Z (Z.of_nat k) * CARRIAGE_SPACING)).
Proof.
  intros Hidx Hpath H k c Hk. unfold updateCarriagePositions in H.
  apply bind_Ret_inv in H. destruct H as (cs & Hcs & H). injection H as <-.
  cbn [carriages setCarriages] in Hk.
  destruct (followCarriages_nth train _ _ _ _ _ Hcs Hk) as (c0 & _ & Hf).
  rewrite Z.add_0_l in Hf. unfold followCarriage in Hf.
  destruct (Z.eqb_spec (Z.of_nat k) 0) as [Hz|Hnz].
  { injection Hf as <-. simpl. split; [reflexivity|].
    split; [intros _; split; reflexivity|].
    split; intros Hne; exfalso; apply Hne; lia. }
  assert (Hne : k <> 0%nat) by lia.
  set (target := progress train - inject_Z (Z.of_nat k) * CARRIAGE_SPACING) in *.
  assert (W : forall s, walkBack (Z.to_nat (pathIndex train)) train
                          (mkFollow (tileX train) (tileY train) target
                                    (direction train) (pathIndex train) s)
                        = Ret (mkFollow (tileX train) (tileY train) target
                                        (direction train) (pathIndex train) s)).
  { intros s. replace (Z.to_nat (pathIndex train)) with 0%nat by lia.
    simpl. destruct (Z.gtb_spec (pathIndex train) 0); [lia|].
    rewrite andb_false_r. reflexivity. }
  rewrite W in Hf. cbn [bind foundValidPosition carriageProgress negb andb]
    in Hf.
  destruct (Qlt_bool target 0) eqn:T.
  - apply Qlt_bool_iff in T. unfold coordAt in Hf. rewrite Hpath in Hf.
    simpl in Hf. injection Hf as <-. simpl.
    split; [reflexivity|]. split; [intros H0; contradiction|]. split.
    + intros _ _. split; [destruct sp; reflexivity|]. reflexivity.
    + intros _ Hpos. exfalso. lra.
  - assert (Tpos : 0 <= target).
    { apply Qnot_lt_le. intros Hlt. apply Qlt_bool_iff in Hlt. congruence. }
    cbn [bind carriageTileX carriageTileY carriageProgress carriageDirection]
      in Hf.
    injection Hf as <-. simpl. split; [reflexivity|].
    split; [intros H0; contradiction|]. split.
    + intros _ Hneg. exfalso. lra.
    + intros _ _. split; [reflexivity|]. apply Q.max_r.
      apply Q.min_glb; [discriminate|exact Tpos].
Qed.

Lemma carriages_wait_at_spawn_witness :
  exists train' c0 c1,
    updateCarriagePositions waitingTrain = Ret train' /\
    nth_error (carriages train') 0 = Some c0 /\
    nth_error (carriages train') 1 = Some c1 /\
    carProgress c0 = 1 # 10 /\
    (carTileX c1, carTileY c1) = (1, 1)%Z /\ carProgress c1 == 0.
Proof.
  eexists. eexists. eexists. split; [reflexivity|]. split; [reflexivity|].
  split; [reflexivity|]. split.
  - destruct (carriages_wait_at_spawn waitingTrain _ (1, 1)%Z []
                ltac:(simpl; lia) eq_refl eq_refl 0%nat _ eq_refl)
      as (_ & H & _).
    apply H. reflexivity.
  - destruct (carriages_wait_at_spawn waitingTrain _ (1, 1)%Z []
                ltac:(simpl; lia) eq_refl eq_refl 1%nat _ eq_refl)
      as (_ & _ & H & _).
    apply H; [discriminate|reflexivity].
Defined.

End DwellMore.
